(** * Advent of Code leaderboard scanner: the snapshot-diff engine

    A shallow embedding of [main.go]: the leaderboard data model, the
    ranking and star-counting helpers, the ordinal suffix, the parser
    [buildLeaderboard] and the poll cycle [refresh], followed by the
    properties the specification states about them.

    Conventions.
    - A Go [int]/[int64] is a [Z]; where the code does arithmetic on it the
      64-bit wrap-around is written out with [wrap].
    - A nil pointer is [None]; dereferencing it, and indexing a slice out
      of range, is a run-time panic, modelled as [None] in the pure helpers
      and as [Panicked] in the effectful code.
    - A slice is a [list]; [s[i]] is [index s i]. *)

From Stdlib Require Import ZArith Lia Ascii String.
From stdpp Require Import base tactics option list strings.

Local Open Scope string_scope.
Local Open Scope list_scope.
Local Open Scope Z_scope.

(** ** Machine integers *)

(** Two's-complement wrap-around of a 64-bit Go [int]. *)
Definition wrap (z : Z) : Z := (z + 2 ^ 63) mod 2 ^ 64 - 2 ^ 63.

Definition maxInt : Z := 2 ^ 63 - 1.
Definition minInt : Z := - 2 ^ 63.

(** [s[i]] on a slice: panics ([None]) when [i] is negative or past the end. *)
Definition index {A : Type} (s : list A) (i : Z) : option A :=
  if i <? 0 then None else s !! Z.to_nat i.

(** ** Data model (main.go, lines 40-64) *)

Record completionPartData := {
  GotStarAt : Z;
  StarIndex : Z
}.

Record completionDayData := {
  Part1 : option completionPartData;
  Part2 : option completionPartData
}.

Record memberData := {
  Name : string;
  CompletionDayLevel : list completionDayData;
  ID : Z;
  LocalScore : Z;
  GlobalScore : Z;
  Stars : Z;
  LastStarTimestamp : Z
}.

Record leaderboardData := {
  Event : string;
  Members : list memberData;
  OwnerID : Z
}.

#[global] Instance completionPartData_eq_dec : EqDecision completionPartData.
Proof. solve_decision. Defined.
#[global] Instance completionDayData_eq_dec : EqDecision completionDayData.
Proof. solve_decision. Defined.
#[global] Instance memberData_eq_dec : EqDecision memberData.
Proof. solve_decision. Defined.
#[global] Instance leaderboardData_eq_dec : EqDecision leaderboardData.
Proof. solve_decision. Defined.

(** The zero value of [completionDayData]: both part pointers nil. *)
Definition emptyDay : completionDayData := {| Part1 := None; Part2 := None |}.

(** ** getTotalStars (main.go, lines 239-251) *)

(** The body of the [range] loop, [dayIdx] being the loop index. *)
Definition totalStarsStep (skipPart2OfDay : Z) (dayIdx : Z)
    (day : completionDayData) (total : Z) : Z :=
  let total := if Part1 day is Some _ then wrap (total + 1) else total in
  if Part2 day is Some _
  then (if skipPart2OfDay =? dayIdx then total else wrap (total + 1))
  else total.

Fixpoint totalStarsLoop (skipPart2OfDay : Z) (dayIdx : Z)
    (days : list completionDayData) (total : Z) : Z :=
  match days with
  | [] => total
  | day :: rest =>
      totalStarsLoop skipPart2OfDay (dayIdx + 1) rest
        (totalStarsStep skipPart2OfDay dayIdx day total)
  end.

Definition getTotalStars (member : memberData) (skipPart2OfDay : Z) : Z :=
  totalStarsLoop skipPart2OfDay 0 (CompletionDayLevel member) 0.

(** ** getCompletionRank (main.go, lines 253-279) *)

(** [x.PartN] selected the way the code does: [Part1] unless [partNum != 1]. *)
Definition partOf (day : completionDayData) (partNum : Z) : option completionPartData :=
  if partNum =? 1 then Part1 day else Part2 day.

(** One iteration of the loop over [leaderboard.Members]; [None] is the
    index panic of [member.CompletionDayLevel[dayIdx]]. *)
Definition rankStep (inMember : memberData) (dayIdx partNum targetTime : Z)
    (member : memberData) (numAhead : Z) : option Z :=
  if ID member =? ID inMember then Some numAhead
  else
    day ← index (CompletionDayLevel member) dayIdx;
    match partOf day partNum with
    | None => Some numAhead
    | Some part =>
        if GotStarAt part <? targetTime then Some (wrap (numAhead + 1))
        else Some numAhead
    end.

Fixpoint rankLoop (inMember : memberData) (dayIdx partNum targetTime : Z)
    (members : list memberData) (numAhead : Z) : option Z :=
  match members with
  | [] => Some numAhead
  | member :: rest =>
      numAhead ← rankStep inMember dayIdx partNum targetTime member numAhead;
      rankLoop inMember dayIdx partNum targetTime rest numAhead
  end.

(** The first statement dereferences [Part1] whatever [partNum] is; the
    second overwrites the time with [Part2]'s when [partNum != 1]. *)
Definition getCompletionRank (leaderboard : leaderboardData) (inMember : memberData)
    (dayIdx partNum : Z) : option Z :=
  day ← index (CompletionDayLevel inMember) dayIdx;
  part1 ← Part1 day;
  targetTime ←
    (if partNum =? 1 then Some (GotStarAt part1)
     else part2 ← Part2 day; Some (GotStarAt part2));
  rankLoop inMember dayIdx partNum targetTime (Members leaderboard) 0.

(** ** getOrdinal (main.go, lines 37 and 281-290) *)

Definition ordinals : list string := ["th"; "st"; "nd"; "rd"].

(** Go's [%] truncates toward zero: it is [Z.rem].  With [|v| < 100] the
    subtraction [v-20] cannot overflow, so no wrap-around is involved. *)
Definition getOrdinal (n : Z) : option string :=
  let v := Z.rem n 100 in
  if (20 <=? v) && (Z.rem (v - 20) 10 <? Z.of_nat (length ordinals))
  then index ordinals (Z.rem (v - 20) 10)
  else if v <? Z.of_nat (length ordinals)
  then index ordinals v
  else index ordinals 0.

(** ** The JSON libraries

    [buildLeaderboard] reads a body with two libraries that are not part of
    this repository: goccy/go-json ([json.Unmarshal], type-directed, into
    the tagged struct fields) and valyala/fastjson ([fastjson.ParseBytes],
    a value tree walked with [GetObject], [Object] and [Visit]).  Both are
    modelled over one reference reader of JSON text as RFC 8259 defines it.

    The libraries themselves accept more than that reader and refuse some
    of what it takes: fastjson does not validate number literals or the
    contents of strings and refuses values nested deeper than 300 levels,
    and go-json skips the values of keys the struct does not have without
    validating them.  Which bodies the libraries reject is therefore not
    settled by the reference reader: [buildLeaderboardWith] below takes
    the two top-level library calls as parameters, and what is proved
    about rejection is proved for any such pair.  The reference reader
    runs the sample documents, on which the libraries agree with it. *)

Module fastjson.

(** A parsed value.  A number keeps its literal, as fastjson does. *)
#[warnings="-register-all"]
Inductive Value :=
| Null
| Bool (b : bool)
| Number (raw : string)
| Str (s : string)
| Array (vs : list Value)
| Object (kvs : list (string * Value)).

Local Open Scope char_scope.

Definition isWS (c : ascii) : bool :=
  (c =? " ") || (c =? "009") || (c =? "010") || (c =? "013").

Fixpoint skipWS (s : list ascii) : list ascii :=
  match s with
  | c :: r => if isWS c then skipWS r else s
  | [] => []
  end.

Definition isDigit (c : ascii) : bool :=
  (48 <=? N_of_ascii c)%N && (N_of_ascii c <=? 57)%N.

Fixpoint spanDigits (s : list ascii) : list ascii * list ascii :=
  match s with
  | c :: r => if isDigit c then let '(ds, r') := spanDigits r in (c :: ds, r')
              else ([], s)
  | [] => ([], [])
  end.

(** A number literal: an optional minus sign, an integer part without
    leading zeros, an optional fraction and an optional exponent. *)
Definition lexNumber (s : list ascii) : option (list ascii * list ascii) :=
  let '(sign, s) := match s with
                    | c :: r => if c =? "-" then ([c], r) else ([], s)
                    | [] => ([], s)
                    end in
  let '(int, s) := spanDigits s in
  match int with
  | [] => None
  | d :: ds =>
      if (d =? "0") && negb (length ds =? 0)%nat then None
      else
        frac ← match s with
               | c :: r =>
                   if c =? "." then
                     let '(fs, r') := spanDigits r in
                     if (length fs =? 0)%nat then None else Some (c :: fs, r')
                   else Some ([], s)
               | [] => Some ([], s)
               end;
        let '(fr, s) := frac in
        ex ← match s with
             | c :: r =>
                 if (c =? "e") || (c =? "E") then
                   let '(sg, r) := match r with
                                   | c' :: r' =>
                                       if (c' =? "+") || (c' =? "-")
                                       then ([c'], r') else ([], r)
                                   | [] => ([], r)
                                   end in
                   let '(es, r') := spanDigits r in
                   if (length es =? 0)%nat then None
                   else Some ((c :: sg ++ es)%list, r')
                 else Some ([], s)
             | [] => Some ([], s)
             end;
        let '(e, s) := ex in
        Some ((sign ++ int ++ fr ++ e)%list, s)
  end.

Definition hexVal (c : ascii) : option N :=
  let n := N_of_ascii c in
  if isDigit c then Some (n - 48)%N
  else if (97 <=? n)%N && (n <=? 102)%N then Some (n - 87)%N
  else if (65 <=? n)%N && (n <=? 70)%N then Some (n - 55)%N
  else None.

Definition hex4 (a b c d : ascii) : option N :=
  x ← hexVal a; y ← hexVal b; z ← hexVal c; w ← hexVal d;
  Some (((x * 16 + y) * 16 + z) * 16 + w)%N.

(** UTF-8 bytes of a code point. *)
Definition utf8 (cp : N) : list ascii :=
  let b n := ascii_of_N n in
  (if cp <? 128 then [b cp]
   else if cp <? 2048 then [b (192 + cp / 64); b (128 + cp mod 64)]
   else if cp <? 65536 then
     [b (224 + cp / 4096); b (128 + (cp / 64) mod 64); b (128 + cp mod 64)]
   else [b (240 + cp / 262144); b (128 + (cp / 4096) mod 64);
         b (128 + (cp / 64) mod 64); b (128 + cp mod 64)])%N.

Definition isHighSurrogate (u : N) : bool := (55296 <=? u)%N && (u <? 56320)%N.
Definition isLowSurrogate (u : N) : bool := (56320 <=? u)%N && (u <? 57344)%N.

(** [acc] holds the bytes read so far, last one first. *)
Definition pushCodePoint (cp : N) (acc : list ascii) : list ascii :=
  (rev (utf8 cp) ++ acc)%list.

(** The text after an opening quote, up to the closing one, unescaped. *)
Fixpoint lexString (s : list ascii) (acc : list ascii)
    : option (string * list ascii) :=
  match s with
  | [] => None
  | c :: r =>
      if c =? "034" then Some (string_of_list_ascii (rev acc), r)
      else if c =? "\" then
        match r with
        | e :: r1 =>
            if (e =? "034") || (e =? "\") || (e =? "/") then lexString r1 (e :: acc)
            else if e =? "b" then lexString r1 ("008" :: acc)
            else if e =? "f" then lexString r1 ("012" :: acc)
            else if e =? "n" then lexString r1 ("010" :: acc)
            else if e =? "r" then lexString r1 ("013" :: acc)
            else if e =? "t" then lexString r1 ("009" :: acc)
            else if e =? "u" then
              match r1 with
              | h1 :: h2 :: h3 :: h4 :: r2 =>
                  match hex4 h1 h2 h3 h4 with
                  | None => None
                  | Some u =>
                      if isHighSurrogate u then
                        match r2 with
                        | b1 :: b2 :: l1 :: l2 :: l3 :: l4 :: r3 =>
                            match hex4 l1 l2 l3 l4 with
                            | Some lo =>
                                if (b1 =? "\") && (b2 =? "u") && isLowSurrogate lo
                                then lexString r3
                                       (pushCodePoint
                                          (65536 + (u - 55296) * 1024
                                           + (lo - 56320))%N acc)
                                else lexString r2 (pushCodePoint 65533%N acc)
                            | None => lexString r2 (pushCodePoint 65533%N acc)
                            end
                        | _ => lexString r2 (pushCodePoint 65533%N acc)
                        end
                      else if isLowSurrogate u
                      then lexString r2 (pushCodePoint 65533%N acc)
                      else lexString r2 (pushCodePoint u acc)
                  end
              | _ => None
              end
            else None
        | [] => None
        end
      else if (N_of_ascii c <? 32)%N then None
      else lexString r (c :: acc)
  end.

Definition literal (word : string) (v : Value) (s : list ascii)
    : option (Value * list ascii) :=
  let w := list_ascii_of_string word in
  if bool_decide (take (length w) s = w) then Some (v, drop (length w) s)
  else None.

(** Recursive descent.  A call reads a character of its own before it
    recurses, except [parseElements], whose first call is one that does;
    so twice the length of the text is fuel enough. *)
Fixpoint parseValue (fuel : nat) (s : list ascii) : option (Value * list ascii) :=
  match fuel with
  | O => None
  | S fuel =>
      match skipWS s with
      | [] => None
      | c :: r =>
          if c =? "{" then
            match skipWS r with
            | c' :: r' =>
                if c' =? "}" then Some (Object [], r')
                else '(kvs, rest) ← parseMembers fuel (c' :: r'); Some (Object kvs, rest)
            | [] => None
            end
          else if c =? "[" then
            match skipWS r with
            | c' :: r' =>
                if c' =? "]" then Some (Array [], r')
                else '(vs, rest) ← parseElements fuel (c' :: r'); Some (Array vs, rest)
            | [] => None
            end
          else if c =? "034" then
            '(str, rest) ← lexString r []; Some (Str str, rest)
          else if c =? "t" then literal "true" (Bool true) (c :: r)
          else if c =? "f" then literal "false" (Bool false) (c :: r)
          else if c =? "n" then literal "null" Null (c :: r)
          else
            '(raw, rest) ← lexNumber (c :: r);
            Some (Number (string_of_list_ascii raw), rest)
      end
  end
with parseMembers (fuel : nat) (s : list ascii)
    : option (list (string * Value) * list ascii) :=
  match fuel with
  | O => None
  | S fuel =>
      match skipWS s with
      | c :: r =>
          if c =? "034" then
            '(key, r1) ← lexString r [];
            match skipWS r1 with
            | c1 :: r2 =>
                if c1 =? ":" then
                  '(v, r3) ← parseValue fuel r2;
                  match skipWS r3 with
                  | c3 :: r4 =>
                      if c3 =? "," then
                        '(kvs, rest) ← parseMembers fuel r4;
                        Some ((key, v) :: kvs, rest)
                      else if c3 =? "}" then Some ([(key, v)], r4)
                      else None
                  | [] => None
                  end
                else None
            | [] => None
            end
          else None
      | [] => None
      end
  end
with parseElements (fuel : nat) (s : list ascii)
    : option (list Value * list ascii) :=
  match fuel with
  | O => None
  | S fuel =>
      '(v, r1) ← parseValue fuel s;
      match skipWS r1 with
      | c :: r2 =>
          if c =? "," then
            '(vs, rest) ← parseElements fuel r2; Some (v :: vs, rest)
          else if c =? "]" then Some ([v], r2)
          else None
      | [] => None
      end
  end.

(** [fastjson.ParseBytes]: one value, then only white space; [None] is
    the parse error. *)
Definition ParseBytes (body : string) : option Value :=
  let s := list_ascii_of_string body in
  '(v, rest) ← parseValue (S (2 * length s)) s;
  if bool_decide (skipWS rest = []) then Some v else None.

(** [o.Get(key)]: the first entry under that key. *)
Fixpoint lookup (kvs : list (string * Value)) (key : string) : option Value :=
  match kvs with
  | [] => None
  | (k, v) :: rest => if String.eqb k key then Some v else lookup rest key
  end.

(** [v.Object()]: the entries of an object; nil (with an error the code
    drops) for anything else.  [Visit] on a nil object visits nothing,
    so nil is the empty list of entries. *)
Definition entries (v : Value) : list (string * Value) :=
  match v with
  | Object kvs => kvs
  | _ => []
  end.

(** [v.GetObject(key)]: nil unless [v] is an object holding an object
    under [key]. *)
Definition GetObject (v : Value) (key : string) : list (string * Value) :=
  match lookup (entries v) key with
  | Some child => entries child
  | None => []
  end.

End fastjson.

(** goccy/go-json, as far as [json.Unmarshal] into the three tagged
    structs goes: a key is matched against the [json:"..."] tags without
    regard to case, a [null] leaves the field as it is, a value of another
    JSON type than the field's stops the decoding with an error, and the
    fields set before the error stay set. *)
Module json.
Import fastjson.

Definition toLower (c : ascii) : ascii :=
  let n := N_of_ascii c in
  if (65 <=? n)%N && (n <=? 90)%N then ascii_of_N (n + 32) else c.

Definition lowerKey (key : string) : string :=
  string_of_list_ascii (map toLower (list_ascii_of_string key)).

Fixpoint digitsValue (ds : list ascii) (acc : Z) : option Z :=
  match ds with
  | [] => Some acc
  | c :: r => if isDigit c
              then digitsValue r (acc * 10 + Z.of_N (N_of_ascii c - 48))
              else None
  end.

(** An integer literal that fits an [int]; a fraction, an exponent or an
    overflow is a decoding error. *)
Definition intOfLiteral (raw : string) : option Z :=
  z ← match list_ascii_of_string raw with
      | [] => None
      | c :: r => if (c =? "-")%char
                  then (if bool_decide (r = []) then None
                        else Z.opp <$> digitsValue r 0)
                  else digitsValue (c :: r) 0
      end;
  if (minInt <=? z) && (z <=? maxInt) then Some z else None.

Inductive fieldResult (T : Type) :=
| Unknown
| Decoded (t : T)
| Mismatch.
Arguments Unknown {T}.
Arguments Decoded {T} t.
Arguments Mismatch {T}.

Definition decodeInt {T : Type} (set : Z -> T) (v : Value) (t : T) : fieldResult T :=
  match v with
  | Null => Decoded t
  | Number raw => match intOfLiteral raw with
                  | Some z => Decoded (set z)
                  | None => Mismatch
                  end
  | _ => Mismatch
  end.

Definition decodeString {T : Type} (set : string -> T) (v : Value) (t : T)
    : fieldResult T :=
  match v with
  | Null => Decoded t
  | Str s => Decoded (set s)
  | _ => Mismatch
  end.

(** The struct and whether an error is returned. *)
Fixpoint decodeFields {T : Type} (field : string -> Value -> T -> fieldResult T)
    (kvs : list (string * Value)) (t : T) : T * bool :=
  match kvs with
  | [] => (t, false)
  | (k, v) :: rest =>
      match field (lowerKey k) v t with
      | Unknown => decodeFields field rest t
      | Decoded t' => decodeFields field rest t'
      | Mismatch => (t, true)
      end
  end.

Definition decodeStruct {T : Type} (field : string -> Value -> T -> fieldResult T)
    (v : Value) (t : T) : T * bool :=
  match v with
  | Null => (t, false)
  | Object kvs => decodeFields field kvs t
  | _ => (t, true)
  end.

(** [json.Unmarshal(body, &t)]. *)
Definition Unmarshal {T : Type} (field : string -> Value -> T -> fieldResult T)
    (body : string) (t : T) : T * bool :=
  match ParseBytes body with
  | None => (t, true)
  | Some v => decodeStruct field v t
  end.

(** The fields the struct tags of main.go expose; [json:"-"] hides
    [Members] and [CompletionDayLevel]. *)
Definition leaderboardField (key : string) (v : Value) (l : leaderboardData)
    : fieldResult leaderboardData :=
  if String.eqb key "event" then
    decodeString (fun s => {| Event := s; Members := Members l; OwnerID := OwnerID l |}) v l
  else if String.eqb key "owner_id" then
    decodeInt (fun z => {| Event := Event l; Members := Members l; OwnerID := z |}) v l
  else Unknown.

Definition memberField (key : string) (v : Value) (m : memberData)
    : fieldResult memberData :=
  let mk name id localScore globalScore stars lastStar :=
    {| Name := name; CompletionDayLevel := CompletionDayLevel m; ID := id;
       LocalScore := localScore; GlobalScore := globalScore; Stars := stars;
       LastStarTimestamp := lastStar |} in
  if String.eqb key "name" then
    decodeString (fun s => mk s (ID m) (LocalScore m) (GlobalScore m) (Stars m)
                             (LastStarTimestamp m)) v m
  else if String.eqb key "id" then
    decodeInt (fun z => mk (Name m) z (LocalScore m) (GlobalScore m) (Stars m)
                          (LastStarTimestamp m)) v m
  else if String.eqb key "local_score" then
    decodeInt (fun z => mk (Name m) (ID m) z (GlobalScore m) (Stars m)
                          (LastStarTimestamp m)) v m
  else if String.eqb key "global_score" then
    decodeInt (fun z => mk (Name m) (ID m) (LocalScore m) z (Stars m)
                          (LastStarTimestamp m)) v m
  else if String.eqb key "stars" then
    decodeInt (fun z => mk (Name m) (ID m) (LocalScore m) (GlobalScore m) z
                          (LastStarTimestamp m)) v m
  else if String.eqb key "last_star_ts" then
    decodeInt (fun z => mk (Name m) (ID m) (LocalScore m) (GlobalScore m) (Stars m) z) v m
  else Unknown.

Definition partField (key : string) (v : Value) (p : completionPartData)
    : fieldResult completionPartData :=
  if String.eqb key "get_star_ts" then
    decodeInt (fun z => {| GotStarAt := z; StarIndex := StarIndex p |}) v p
  else if String.eqb key "star_index" then
    decodeInt (fun z => {| GotStarAt := GotStarAt p; StarIndex := z |}) v p
  else Unknown.

End json.

(** [strconv.Atoi], of which the code keeps the number and drops the
    error: a syntax error gives 0, a value out of range is clamped. *)
Module strconv.

Definition Atoi (s : string) : Z :=
  let digits ds :=
    if bool_decide (ds = []) then None else json.digitsValue ds 0 in
  let n := match list_ascii_of_string s with
           | [] => None
           | c :: r => if (c =? "-")%char then Z.opp <$> digits r
                       else if (c =? "+")%char then digits r
                       else digits (c :: r)
           end in
  match n with
  | None => 0
  | Some z => Z.max minInt (Z.min maxInt z)
  end.

End strconv.

(** ** buildLeaderboard (main.go, lines 321-362) *)

Inductive error :=
| UnmarshalError   (* "error unmarshaling string ... into leaderboardData" *)
| ParseError.      (* "error parsing string into json" *)

(** [s[i] = x]: panics ([None]) out of range. *)
Definition setIndex {A : Type} (s : list A) (i : Z) (x : A) : option (list A) :=
  if i <? 0 then None
  else if (Z.to_nat i <? length s)%nat then Some (<[Z.to_nat i := x]> s)
  else None.

(** [o.Visit(f)] for a callback that updates the variables it captured,
    here the value [st], and may panic. *)
Fixpoint Visit {S : Type} (f : S -> string -> fastjson.Value -> option S)
    (o : list (string * fastjson.Value)) (st : S) : option S :=
  match o with
  | [] => Some st
  | (key, v) :: rest => st' ← f st key v; Visit f rest st'
  end.

Definition zeroPart : completionPartData := {| GotStarAt := 0; StarIndex := 0 |}.

Definition zeroMember : memberData :=
  {| Name := ""; CompletionDayLevel := []; ID := 0; LocalScore := 0;
     GlobalScore := 0; Stars := 0; LastStarTimestamp := 0 |}.

Definition zeroLeaderboard : leaderboardData :=
  {| Event := ""; Members := []; OwnerID := 0 |}.

(** The innermost callback (lines 344-352): any key but "1" fills [Part2];
    the error of the inner [json.Unmarshal] is dropped. *)
Definition visitPart (memberCompletionObj : completionDayData)
    (completionPartKey : string) (completionPartVal : fastjson.Value)
    : option completionDayData :=
  let completionPart := (json.decodeStruct json.partField completionPartVal zeroPart).1 in
  if String.eqb completionPartKey "1"
  then Some {| Part1 := Some completionPart; Part2 := Part2 memberCompletionObj |}
  else Some {| Part1 := Part1 memberCompletionObj; Part2 := Some completionPart |}.

Definition withDays (member : memberData) (days : list completionDayData) : memberData :=
  {| Name := Name member; CompletionDayLevel := days; ID := ID member;
     LocalScore := LocalScore member; GlobalScore := GlobalScore member;
     Stars := Stars member; LastStarTimestamp := LastStarTimestamp member |}.

(** The callback over [completion_day_level] (lines 340-356). *)
Definition visitDay (member : memberData) (completionKey : string)
    (completionDay : fastjson.Value) : option memberData :=
  memberCompletionObj ← Visit visitPart (fastjson.entries completionDay) emptyDay;
  let completionDayNum := strconv.Atoi completionKey in
  days ← setIndex (CompletionDayLevel member) (wrap (completionDayNum - 1))
                  memberCompletionObj;
  Some (withDays member days).

(** The callback over [members] (lines 334-359). *)
Definition visitMember (leaderboard : leaderboardData) (key : string)
    (memberVal : fastjson.Value) : option leaderboardData :=
  let member := (json.decodeStruct json.memberField memberVal zeroMember).1 in
  let member := withDays member (replicate 25 emptyDay) in
  let completionObj := fastjson.GetObject memberVal "completion_day_level" in
  member ← Visit visitDay completionObj member;
  Some {| Event := Event leaderboard;
          Members := Members leaderboard ++ [member];
          OwnerID := OwnerID leaderboard |}.

Section BuildLeaderboard.

(** The library calls of lines 323 and 328: [json.Unmarshal(body,
    &leaderboard)], which gives the struct as it leaves it and whether it
    returned an error, and [fastjson.ParseBytes(body)]. *)
Variable Unmarshal : string -> leaderboardData -> leaderboardData * bool.
Variable ParseBytes : string -> option fastjson.Value.

(** The pair Go returns, or [None] when a callback panicked. *)
Definition buildLeaderboardWith (body : string)
    : option (leaderboardData * option error) :=
  let '(leaderboard, marshalErr) := Unmarshal body zeroLeaderboard in
  if marshalErr then Some (leaderboard, Some UnmarshalError)
  else
    match ParseBytes body with
    | None => Some (leaderboard, Some ParseError)
    | Some jsonObj =>
        let members := fastjson.GetObject jsonObj "members" in
        leaderboard ← Visit visitMember members leaderboard;
        Some (leaderboard, None)
    end.

End BuildLeaderboard.

(** [buildLeaderboard] over the reference reader. *)
Definition buildLeaderboard (body : string) : option (leaderboardData * option error) :=
  buildLeaderboardWith (json.Unmarshal json.leaderboardField) fastjson.ParseBytes body.

(** ** arrayFind (main.go, lines 394-402) *)

(** A pointer to a copy of the first element satisfying [pred], or nil. *)
Fixpoint arrayFind {T : Type} (array : list T) (pred : T -> bool) : option T :=
  match array with
  | [] => None
  | v :: rest => if pred v then Some v else arrayFind rest pred
  end.

(** ** Effects of a poll cycle *)

(** [*time.Location]. *)
Inductive Location :=
| America_Chicago.

(** [t.In(loc)] for the instant [t] in Unix seconds: a nil location is a
    panic; otherwise the instant is the same and only its rendering is in
    the zone. *)
Definition timeIn (t : Z) (loc : option Location) : option Z :=
  match loc with
  | Some _ => Some t
  | None => None
  end.

(** A notification, by its format string and the arguments its
    [fmt.Sprintf] is given.  The completion time is kept as the instant
    [GotStarAt] that [Format] renders in the zone.

    The first two are the texts of main.go (lines 169 and 195).  The
    last two are those of the older main: line 150 of part_000, and lines
    171 and 189, two format strings that differ in the part number
    written in them and take the name twice. *)
Inductive notification :=
| NewChallenger (name year leaderboardID : string)
| PartCompleted (name : string) (day partNum rank : Z) (ordinal : string)
    (year leaderboardID : string) (completionTime : Z)
    (totalStars : Z) (totalStarsPlural : string)
| OlderNewChallenger (name year leaderboardID : string)
| OlderPartCompleted (name : string) (day partNum rank : Z) (ordinal : string)
    (year leaderboardID : string) (completionTime : Z) (nameAgain : string)
    (totalStars : Z) (totalStarsPlural : string).

Inductive logLine :=
| Scanning                                  (* line 123 *)
| TooSoon                                   (* line 127 *)
| DownloadError                             (* line 133 *)
| MarshalFailed                             (* line 142 *)
| SaveFailed                                (* line 146 *)
| CachedBodyError (e : error)               (* line 156 *)
| DownloadedBodyError (e : error)           (* line 161 *)
| NewChallengerError (name : string)        (* line 171 *)
| NotificationError (member : memberData)   (* line 209 *)
| Sending (content : notification).         (* line 371 *)

(** What a cycle does to the outside, in order.  [WriteFile] is the
    attempt to write [.cache.json] with the marshalled pair; [ok] tells
    whether the write succeeded.  [Post] is the POST to the webhook. *)
Inductive effect :=
| Log (l : logLine)
| WriteFile (last_read : Z) (last_body : string) (ok : bool)
| Post (content : notification).

(** What the outside answers during one cycle. *)
Record world := {
  clock : Z;                       (* [time.Now()] at line 126, in ns since the epoch *)
  nowUnix : Z;                     (* [time.Now().Unix()] at line 139 *)
  downloaded : option string;      (* [downloadLeaderboardData]: the body, or an error *)
  marshalFails : bool;             (* [json.Marshal] at line 140 *)
  writeFails : bool;               (* [os.WriteFile] at line 144 *)
  postFails : list effect -> notification -> bool
                                   (* [sendNotification] returns an error *)
}.

(** The flags and environment [main] resolves before the first cycle, and
    the package variable [ChicagoTimeZone] of line 36: what
    [time.LoadLocation] gave, nil when it failed (its error is dropped). *)
Record config := {
  yearArg : string;
  leaderboardID : string;
  session : string;
  ChicagoTimeZone : option Location
}.

(** A computation that appends to the effects so far and returns a value,
    or panics ([None]). *)
Definition M (A : Type) : Type := list effect -> list effect * option A.

Definition ret {A : Type} (a : A) : M A := fun t => (t, Some a).

Definition bind {A B : Type} (c : M A) (k : A -> M B) : M B :=
  fun t => match c t with
           | (t', Some a) => k a t'
           | (t', None) => (t', None)
           end.

Notation "'do' x <- c ; k" := (bind c (fun x => k))
  (at level 10, x name, c at level 100, k at level 200).
Notation "c ;; k" := (bind c (fun _ => k))
  (at level 100, k at level 200, right associativity).

Definition emit (e : effect) : M unit := fun t => (t ++ [e], Some tt).

(** A helper that may panic, run inside a cycle. *)
Definition orPanic {A : Type} (o : option A) : M A := fun t => (t, o).

(** [for i, x := range xs { body }], counting from [i]. *)
Fixpoint forRange {A : Type} (body : Z -> A -> M unit) (i : Z) (xs : list A) : M unit :=
  match xs with
  | [] => ret tt
  | x :: rest => body i x ;; forRange body (i + 1) rest
  end.

(** ** sendNotification (main.go, lines 364-382) *)

(** Returns whether the error is non-nil. *)
Definition sendNotification (w : world) (content : notification) : M bool :=
  emit (Log (Sending content)) ;;
  fun t => (t ++ [Post content], Some (postFails w t content)).

(** ** refresh (main.go, lines 122-222) *)

Section Refresh.
Variable cfg : config.
Variable w : world.

(** The closure [s] (lines 178-211).  The star count comes first and
    cannot fail; then [Time.In] at line 191 panics when the zone is nil,
    [getCompletionRank] at line 192 on a nil part or a short table, and
    [getOrdinal] at line 193 on a negative remainder. *)
Definition s (leaderboard : leaderboardData) (member : memberData) (dayIdx : Z)
    (part : completionPartData) (partNum : Z) : M unit :=
  let skipPart2OfDay := if partNum =? 1 then dayIdx else -1 in
  let totalStars := getTotalStars member skipPart2OfDay in
  let totalStarsPlural := if totalStars =? 1 then "" else "s" in
  do completionTime <- orPanic (timeIn (GotStarAt part) (ChicagoTimeZone cfg));
  do numAhead <- orPanic (getCompletionRank leaderboard member dayIdx partNum);
  let rank := wrap (numAhead + 1) in
  do ordinal <- orPanic (getOrdinal rank);
  do err <- sendNotification w
              (PartCompleted (Name member) (wrap (dayIdx + 1)) partNum rank ordinal
                 (yearArg cfg) (leaderboardID cfg) completionTime
                 totalStars totalStarsPlural);
  if err then emit (Log (NotificationError member)) else ret tt.

(** The body of the loop over the days (lines 177-220).  [&&] evaluates
    [lastMember.CompletionDayLevel[dayIdx]] only when the part of
    [current] is there. *)
Definition diffDay (leaderboard : leaderboardData) (lastMember member : memberData)
    (dayIdx : Z) (day : completionDayData) : M unit :=
  match Part1 day with
  | Some part1 =>
      do lastDay <- orPanic (index (CompletionDayLevel lastMember) dayIdx);
      if Part1 lastDay is None then s leaderboard member dayIdx part1 1 else ret tt
  | None => ret tt
  end ;;
  match Part2 day with
  | Some part2 =>
      do lastDay <- orPanic (index (CompletionDayLevel lastMember) dayIdx);
      if Part2 lastDay is None then s leaderboard member dayIdx part2 2 else ret tt
  | None => ret tt
  end.

(** The body of the loop over the members (lines 165-221). *)
Definition diffMember (lastLeaderboard leaderboard : leaderboardData)
    (member : memberData) : M unit :=
  match arrayFind (Members lastLeaderboard) (fun m => ID m =? ID member) with
  | None =>
      do nErr <- sendNotification w
                   (NewChallenger (Name member) (yearArg cfg) (leaderboardID cfg));
      if nErr then emit (Log (NewChallengerError (Name member))) else ret tt
  | Some lastMember =>
      forRange (diffDay leaderboard lastMember member) 0 (CompletionDayLevel member)
  end.

(** Lines 165-221. *)
Definition diff (lastLeaderboard leaderboard : leaderboardData) : M unit :=
  forRange (fun _ => diffMember lastLeaderboard leaderboard) 0 (Members leaderboard).

(** Lines 139-148: the cache write. *)
Definition saveCache (lastRead : Z) (currBody : string) : M unit :=
  if marshalFails w then emit (Log MarshalFailed)
  else
    emit (WriteFile lastRead currBody (negb (writeFails w))) ;;
    if writeFails w then emit (Log SaveFailed) else ret tt.

(** Lines 150-221: what follows the cache write. *)
Definition compare (lastBody currBody : string) : M unit :=
  if (String.length lastBody =? 0)%nat then ret tt
  else
    do last <- orPanic (buildLeaderboard lastBody);
    match last with
    | (_, Some lastLeaderboardErr) => emit (Log (CachedBodyError lastLeaderboardErr))
    | (lastLeaderboard, None) =>
        do curr <- orPanic (buildLeaderboard currBody);
        match curr with
        | (_, Some leaderboardErr) => emit (Log (DownloadedBodyError leaderboardErr))
        | (leaderboard, None) => diff lastLeaderboard leaderboard
        end
    end.

End Refresh.

(** The variables of [main] the closure [refresh] captures and assigns. *)
Record state := {
  lastRead : Z;
  lastBody : string
}.

(** One call of [refresh]: the effects, whether it returned ([Some tt]) or
    panicked, and the captured variables afterwards.  The assignment
    deferred at line 137 runs however the rest of the call ends.

    The gate of line 126 is computed in [Z].  [time.Since] saturates, which
    leaves the comparison with 14 minutes as it is; [time.Unix] wraps for a
    [lastRead] within about 6.2e10 seconds of [2^63], and only there does
    the gate of the program differ from this one. *)
Definition refresh (cfg : config) (w : world) (st : state) (t : list effect)
    : list effect * option unit * state :=
  let t := t ++ [Log Scanning] in
  if clock w - lastRead st * 10 ^ 9 <? 14 * 60 * 10 ^ 9
  then (t ++ [Log TooSoon], Some tt, st)
  else
    match downloaded w with
    | None => (t ++ [Log DownloadError], Some tt, st)
    | Some currBody =>
        let lastRead' := nowUnix w in
        (bind (saveCache w lastRead' currBody)
              (fun _ => compare cfg w (lastBody st) currBody) t,
         {| lastRead := lastRead'; lastBody := currBody |})
    end.

(** ** main (main.go, lines 105-120 and 224-232) *)

(** [.cache.json] as [main] reads it at start-up: [None] when the file is
    missing, unreadable or not JSON, otherwise its [last_read] and
    [last_body]. *)
Definition loadCache (cache : option (Z * string)) : state :=
  match cache with
  | Some (last_read, last_body) => {| lastRead := last_read; lastBody := last_body |}
  | None => {| lastRead := 0; lastBody := "" |}
  end.

(** With [-d]: the scheduler calls [refresh] once per tick, the world of
    each tick being given, until a call panics and takes the process down. *)
Fixpoint daemon (cfg : config) (ticks : list world) (st : state) (t : list effect)
    : list effect * option unit * state :=
  match ticks with
  | [] => (t, Some tt, st)
  | w :: rest =>
      match refresh cfg w st t with
      | (t', Some _, st') => daemon cfg rest st' t'
      | (t', None, st') => (t', None, st')
      end
  end.

(** The notifications posted, in order. *)
Fixpoint posted (t : list effect) : list notification :=
  match t with
  | [] => []
  | Post content :: rest => content :: posted rest
  | _ :: rest => posted rest
  end.

(** ** Vocabulary of the specification *)

(** The completion record of a member for a day index and a part, if it is
    present. *)
Definition completionAt (m : memberData) (dayIdx partNum : Z)
    : option completionPartData :=
  day ← index (CompletionDayLevel m) dayIdx; partOf day partNum.

(** The invariants the data model gives a snapshot: 25 slots per member,
    ids unique, no Part2 without the Part1 of its day; and, as in any Go
    slice, a number of members that fits an [int]. *)
Record Snapshot (lb : leaderboardData) : Prop := {
  snapshot_slots : ∀ m, m ∈ Members lb → length (CompletionDayLevel m) = 25%nat;
  snapshot_ids : NoDup (ID <$> Members lb);
  snapshot_parts : ∀ m day, m ∈ Members lb → day ∈ CompletionDayLevel m →
                   is_Some (Part2 day) → is_Some (Part1 day);
  snapshot_size : Z.of_nat (length (Members lb)) ≤ maxInt
}.

(** Another member, with the record present and a timestamp strictly less
    than [T]. *)
Definition finishedEarlier (subject : memberData) (dayIdx partNum T : Z)
    (m : memberData) : bool :=
  negb (ID m =? ID subject) &&
  match completionAt m dayIdx partNum with
  | Some record => GotStarAt record <? T
  | None => false
  end.

Definition numEarlier (lb : leaderboardData) (subject : memberData)
    (dayIdx partNum T : Z) : Z :=
  Z.of_nat (length (List.filter (finishedEarlier subject dayIdx partNum T) (Members lb))).

(** The 1-based rank the caller reports: [getCompletionRank(...) + 1]
    (line 192). *)
Definition rankReported (lb : leaderboardData) (subject : memberData)
    (dayIdx partNum : Z) : option Z :=
  (fun numAhead => wrap (numAhead + 1)) <$> getCompletionRank lb subject dayIdx partNum.

(** The English ordinal rule, on the decimal digits of [n]. *)
Definition englishSuffix (n : Z) : string :=
  let lastTwo := n mod 100 in
  let last := n mod 10 in
  if (11 <=? lastTwo) && (lastTwo <=? 13) then "th"
  else if last =? 1 then "st"
  else if last =? 2 then "nd"
  else if last =? 3 then "rd"
  else "th".

(** The populated Part1 and Part2 records of a completion table. *)
Definition populated (days : list completionDayData) : Z :=
  Z.of_nat (length (List.filter (fun day => bool_decide (is_Some (Part1 day))) days)
            + length (List.filter (fun day => bool_decide (is_Some (Part2 day))) days)).

(** Populated in [current], empty in [previous]. *)
Definition newlyCompleted (lastMember member : memberData) (dayIdx partNum : Z) : bool :=
  bool_decide (is_Some (completionAt member dayIdx partNum)) &&
  bool_decide (completionAt lastMember dayIdx partNum = None).

(** A part-completed notification, in either wording, for that day number
    and part. *)
Definition isCompletion (day partNum : Z) (content : notification) : bool :=
  match content with
  | PartCompleted _ day' partNum' _ _ _ _ _ _ _
  | OlderPartCompleted _ day' partNum' _ _ _ _ _ _ _ _ =>
      (day' =? day) && (partNum' =? partNum)
  | NewChallenger _ _ _ | OlderNewChallenger _ _ _ => false
  end.

Definition isNewChallenger (content : notification) : bool :=
  match content with
  | NewChallenger _ _ _ | OlderNewChallenger _ _ _ => true
  | PartCompleted _ _ _ _ _ _ _ _ _ _
  | OlderPartCompleted _ _ _ _ _ _ _ _ _ _ _ => false
  end.

Definition count (p : notification -> bool) (l : list notification) : nat :=
  length (List.filter p l).

Definition totalStarsOf (content : notification) : option Z :=
  match content with
  | PartCompleted _ _ _ _ _ _ _ _ totalStars _
  | OlderPartCompleted _ _ _ _ _ _ _ _ _ totalStars _ => Some totalStars
  | NewChallenger _ _ _ | OlderNewChallenger _ _ _ => None
  end.

(** The time gate of line 126 lets the cycle through. *)
Definition due (w : world) (st : state) : Prop :=
  14 * 60 * 10 ^ 9 ≤ clock w - lastRead st * 10 ^ 9.

(** A body does not show the completion as missing: if it parses and lists
    a member with that id, the first such member has the record. *)
Definition onRecord (body : string) (id dayIdx partNum : Z) : Prop :=
  ∀ lb lastMember,
    buildLeaderboard body = Some (lb, None) →
    arrayFind (Members lb) (fun m => ID m =? id) = Some lastMember →
    is_Some (completionAt lastMember dayIdx partNum).

(** The stars of one slot, and the star [getTotalStars] leaves out: the
    Part2 of the day at index [skip]. *)
Definition part1Star (day : completionDayData) : Z := if Part1 day is Some _ then 1 else 0.
Definition part2Star (day : completionDayData) : Z := if Part2 day is Some _ then 1 else 0.

Definition skipped (days : list completionDayData) (skip : Z) : Z :=
  match index days skip with
  | Some day => part2Star day
  | None => 0
  end.

(** ** The differ as the specification words it

    For a member that existed before: for each of the 25 day slots in
    increasing order, a Part1 event when Part1 is populated in [current]
    and empty in [previous], then the same for Part2.  The star count of
    an event is the full count of the current table, less the Part2 star
    of the day on the Part1 event when that Part2 is new in the same
    cycle. *)

Definition expectedNotice (cfg : config) (lb : leaderboardData)
    (lastMember member : memberData) (dayIdx partNum : Z)
    (record : completionPartData) : notification :=
  let rank := numEarlier lb member dayIdx partNum (GotStarAt record) + 1 in
  let totalStars :=
    populated (CompletionDayLevel member)
    - (if (partNum =? 1) && newlyCompleted lastMember member dayIdx 2 then 1 else 0) in
  PartCompleted (Name member) (dayIdx + 1) partNum rank (englishSuffix rank)
    (yearArg cfg) (leaderboardID cfg) (GotStarAt record)
    totalStars (if totalStars =? 1 then "" else "s").

Definition expectedPart (cfg : config) (lb : leaderboardData)
    (lastMember member : memberData) (dayIdx partNum : Z) : list notification :=
  match completionAt member dayIdx partNum, completionAt lastMember dayIdx partNum with
  | Some record, None => [expectedNotice cfg lb lastMember member dayIdx partNum record]
  | _, _ => []
  end.

Definition expectedDay (cfg : config) (lb : leaderboardData)
    (lastMember member : memberData) (dayIdx : Z) : list notification :=
  expectedPart cfg lb lastMember member dayIdx 1
  ++ expectedPart cfg lb lastMember member dayIdx 2.

Definition expectedMember (cfg : config) (lb : leaderboardData)
    (lastMember member : memberData) : list notification :=
  concat (map (expectedDay cfg lb lastMember member) (seqZ 0 25)).

(** For every member of [current]: one new-member event when no member of
    [previous] has its id, the events of its days otherwise. *)
Definition expectedDiff (cfg : config) (previous current : leaderboardData)
    : list notification :=
  concat (map (fun member =>
                 match arrayFind (Members previous) (fun m => ID m =? ID member) with
                 | None => [NewChallenger (Name member) (yearArg cfg) (leaderboardID cfg)]
                 | Some lastMember => expectedMember cfg current lastMember member
                 end)
              (Members current)).

(** [Snapshot], decided. *)
Definition checkSnapshot (lb : leaderboardData) : bool :=
  forallb (fun m =>
             (length (CompletionDayLevel m) =? 25)%nat &&
             forallb (fun day => implb (bool_decide (is_Some (Part2 day)))
                                       (bool_decide (is_Some (Part1 day))))
                     (CompletionDayLevel m))
          (Members lb)
  && bool_decide (NoDup (ID <$> Members lb))
  && (Z.of_nat (length (Members lb)) <=? maxInt).

(** ** What a computation posts

    [posts c P]: from any effects so far, [c] only appends, and [P] holds
    of the notifications it posts and of its outcome. *)
Definition posts {A : Type} (c : M A) (P : list notification → option A → Prop) : Prop :=
  ∀ t, ∃ out r, c t = (t ++ out, r) ∧ P (posted out) r.

(** The effects of the cache write of lines 139-148, for the body just
    downloaded. *)
Definition saved (w : world) (currBody : string) : list effect :=
  if marshalFails w then [Log MarshalFailed]
  else WriteFile (nowUnix w) currBody (negb (writeFails w))
       :: (if writeFails w then [Log SaveFailed] else []).

(** ** Vocabulary for the parser *)

(** The day numbers the raw data of a member gives, as the code reads
    them. *)
Definition daysPresent (memberVal : fastjson.Value) : list Z :=
  (fun entry => strconv.Atoi entry.1)
    <$> fastjson.GetObject memberVal "completion_day_level".

(** A top-level entry [json.Unmarshal] rejects: an [event] that is neither
    a string nor null, an [owner_id] that is neither an integer that fits
    nor null. *)
Definition wrongType (entry : string * fastjson.Value) : bool :=
  let '(key, v) := entry in
  if String.eqb (json.lowerKey key) "event" then
    match v with
    | fastjson.Null | fastjson.Str _ => false
    | _ => true
    end
  else if String.eqb (json.lowerKey key) "owner_id" then
    match v with
    | fastjson.Null => false
    | fastjson.Number raw => bool_decide (json.intOfLiteral raw = None)
    | _ => true
    end
  else false.

(** The top-level value [json.Unmarshal] rejects for [leaderboardData]. *)
Definition rejected (v : fastjson.Value) : bool :=
  match v with
  | fastjson.Null => false
  | fastjson.Object kvs => existsb wrongType kvs
  | _ => true
  end.

(** What the parser owes a member built from one entry of [members]: 25
    slots, and an empty slot for every day the raw data does not give. *)
Definition built (entry : string * fastjson.Value) (member : memberData) : Prop :=
  length (CompletionDayLevel member) = 25%nat ∧
  ∀ day, 1 ≤ day ≤ 25 → day ∉ daysPresent entry.2 →
         index (CompletionDayLevel member) (day - 1) = Some emptyDay.

(** ** Sample data *)

Module Sample.

Definition cfg : config :=
  {| yearArg := "2023"; leaderboardID := "1234567"; session := "53616c";
     ChicagoTimeZone := Some America_Chicago |}.

(** The same on a host where the zone could not be loaded. *)
Definition cfgNoZone : config :=
  {| yearArg := "2023"; leaderboardID := "1234567"; session := "53616c";
     ChicagoTimeZone := None |}.

Definition star (ts : Z) : option completionPartData :=
  Some {| GotStarAt := ts; StarIndex := 0 |}.

(** A member with the given days filled, by day index. *)
Definition member (id : Z) (name : string) (days : list (nat * completionDayData))
    : memberData :=
  {| Name := name;
     CompletionDayLevel :=
       foldr (fun '(i, day) table => <[i := day]> table) (replicate 25 emptyDay) days;
     ID := id; LocalScore := 0; GlobalScore := 0; Stars := 0;
     LastStarTimestamp := 0 |}.

Definition board (members : list memberData) : leaderboardData :=
  {| Event := "2023"; Members := members; OwnerID := 1 |}.

(** Day 5 part 1 at 1000 and at 1010, and a third member without it. *)
Definition ann : memberData :=
  member 1 "ann" [(4%nat, {| Part1 := star 1000; Part2 := None |})].
Definition bob : memberData :=
  member 2 "bob" [(4%nat, {| Part1 := star 1010; Part2 := None |})].
Definition cat : memberData :=
  member 3 "cat" [(0%nat, {| Part1 := star 10; Part2 := star 20 |})].
Definition day5 : leaderboardData := board [ann; bob; cat].

(** The scenario of the specification: A had day 1 part 1; now A has
    both parts of day 1, and B is new with day 1 part 1. *)
Definition A0 : memberData :=
  member 7 "A" [(0%nat, {| Part1 := star 100; Part2 := None |})].
Definition A1 : memberData :=
  member 7 "A" [(0%nat, {| Part1 := star 100; Part2 := star 200 |})].
Definition B1 : memberData :=
  member 8 "B" [(0%nat, {| Part1 := star 150; Part2 := None |})].
Definition previous : leaderboardData := board [A0].
Definition current : leaderboardData := board [A1; B1].

(** Both parts of day 2 done by A between two polls. *)
Definition A2 : memberData :=
  member 7 "A" [(0%nat, {| Part1 := star 100; Part2 := None |});
                (1%nat, {| Part1 := star 300; Part2 := star 400 |})].
Definition both : leaderboardData := board [A2].

(** A world in which the download gives [body] and nothing fails. *)
Definition world (body : string) : world :=
  {| clock := 1701450000 * 10 ^ 9; nowUnix := 1701450000;
     downloaded := Some body; marshalFails := false; writeFails := false;
     postFails := fun _ _ => false |}.

(** The captured variables of a process whose cached body is damaged. *)
Definition corrupt : state :=
  {| lastRead := 1701440000; lastBody := "not a leaderboard" |}.

(** JSON text written with apostrophes for its double quotes. *)
Definition jsonText (text : string) : string :=
  string_of_list_ascii
    (map (fun c => if (c =? "'")%char then "034"%char else c)
         (list_ascii_of_string text)).

(** Three members with stars on record. *)
Definition three : string :=
  jsonText
    ("{'event':'2023','owner_id':1,'members':{" ++
     "'1':{'id':1,'name':'ann','stars':1,'completion_day_level':" ++
     "{'1':{'1':{'get_star_ts':1701410000,'star_index':0}}}}," ++
     "'2':{'id':2,'name':'bob','stars':2,'completion_day_level':" ++
     "{'1':{'1':{'get_star_ts':1701410100,'star_index':0}," ++
     "'2':{'get_star_ts':1701410200,'star_index':5}}}}," ++
     "'3':{'id':3,'name':'cat','stars':1,'completion_day_level':" ++
     "{'2':{'1':{'get_star_ts':1701420000,'star_index':9}}}}}}").

(** The scenario above as two documents: A with day 1 part 1, then A with
    both parts of day 1 and the new member B with day 1 part 1. *)
Definition before : string :=
  jsonText
    ("{'event':'2023','owner_id':7,'members':{" ++
     "'7':{'id':7,'name':'A','completion_day_level':" ++
     "{'1':{'1':{'get_star_ts':100,'star_index':0}}}}}}").

Definition after : string :=
  jsonText
    ("{'event':'2023','owner_id':7,'members':{" ++
     "'7':{'id':7,'name':'A','completion_day_level':" ++
     "{'1':{'1':{'get_star_ts':100,'star_index':0}," ++
     "'2':{'get_star_ts':200,'star_index':3}}}}," ++
     "'8':{'id':8,'name':'B','completion_day_level':" ++
     "{'1':{'1':{'get_star_ts':150,'star_index':1}}}}}}").

End Sample.

(** What [buildLeaderboard] makes of [Sample.three]. *)
Definition parsedThree : leaderboardData :=
  match buildLeaderboard Sample.three with
  | Some (lb, _) => lb
  | None => zeroLeaderboard
  end.

(** ** arrayContains (main.go, lines 384-392) *)

Fixpoint arrayContains {T : Type} (array : list T) (pred : T -> bool) : bool :=
  match array with
  | [] => false
  | v :: rest => if pred v then true else arrayContains rest pred
  end.

(** ** The older main (part_000)

    The second source file is an earlier state of main.go: [main] runs one
    cycle itself, ends with [log.Fatalln] where the later [refresh] logs
    and returns, waits 15 minutes instead of 14, and counts the stars with
    a one-argument [getTotalStars], once per day of the loop.
    [getCompletionRank], [getOrdinal], [buildLeaderboard] and [arrayFind]
    are the same functions ([GotStarAt] is there called
    [GetStarTimestamp]).  Its notifications have texts of their own. *)

Module Old.

(** getTotalStars (part_000, lines 206-218). *)
Definition totalStarsStep (day : completionDayData) (total : Z) : Z :=
  let total := if Part1 day is Some _ then wrap (total + 1) else total in
  if Part2 day is Some _ then wrap (total + 1) else total.

Fixpoint totalStarsLoop (days : list completionDayData) (total : Z) : Z :=
  match days with
  | [] => total
  | day :: rest => totalStarsLoop rest (totalStarsStep day total)
  end.

Definition getTotalStars (member : memberData) : Z :=
  totalStarsLoop (CompletionDayLevel member) 0.

(** sendNotification (part_000, lines 331-346): no line is printed. *)
Definition sendNotification (w : world) (content : notification) : M bool :=
  fun t => (t ++ [Post content], Some (postFails w t content)).

Section Main.
Variable cfg : config.
Variable w : world.

(** One of the two [if] blocks of lines 166-201; the part number is
    written in its format string, the name is passed twice, and the error
    of the send is dropped. *)
Definition notify (leaderboard : leaderboardData) (member : memberData) (idx : Z)
    (part : completionPartData) (partNum : Z)
    (totalStars : Z) (totalStarsPlural : string) : M unit :=
  do completionTime <- orPanic (timeIn (GotStarAt part) (ChicagoTimeZone cfg));
  do numAhead <- orPanic (getCompletionRank leaderboard member idx partNum);
  let rank := wrap (numAhead + 1) in
  do ordinal <- orPanic (getOrdinal rank);
  do _ <- sendNotification w
            (OlderPartCompleted (Name member) (wrap (idx + 1)) partNum rank ordinal
               (yearArg cfg) (leaderboardID cfg) completionTime (Name member)
               totalStars totalStarsPlural);
  ret tt.

(** The body of the loop over the days (lines 158-202). *)
Definition diffDay (leaderboard : leaderboardData) (lastMember member : memberData)
    (idx : Z) (day : completionDayData) : M unit :=
  let totalStars := getTotalStars member in
  let totalStarsPlural := if totalStars =? 1 then "" else "s" in
  match Part1 day with
  | Some part1 =>
      do lastDay <- orPanic (index (CompletionDayLevel lastMember) idx);
      if Part1 lastDay is None
      then notify leaderboard member idx part1 1 totalStars totalStarsPlural
      else ret tt
  | None => ret tt
  end ;;
  match Part2 day with
  | Some part2 =>
      do lastDay <- orPanic (index (CompletionDayLevel lastMember) idx);
      if Part2 lastDay is None
      then notify leaderboard member idx part2 2 totalStars totalStarsPlural
      else ret tt
  | None => ret tt
  end.

(** The body of the loop over the members (lines 146-203). *)
Definition diffMember (lastLeaderboard leaderboard : leaderboardData)
    (member : memberData) : M unit :=
  match arrayFind (Members lastLeaderboard) (fun m => ID m =? ID member) with
  | None =>
      do nErr <- sendNotification w
                   (OlderNewChallenger (Name member) (yearArg cfg) (leaderboardID cfg));
      if nErr then emit (Log (NewChallengerError (Name member))) else ret tt
  | Some lastMember =>
      forRange (diffDay leaderboard lastMember member) 0 (CompletionDayLevel member)
  end.

Definition diff (lastLeaderboard leaderboard : leaderboardData) : M unit :=
  forRange (fun _ => diffMember lastLeaderboard leaderboard) 0 (Members leaderboard).

End Main.

(** How the process ends. *)
Inductive exit :=
| Returned      (* [main] returns *)
| Fatal         (* [log.Fatalln] *)
| Panicked.     (* a run-time panic *)

(** [main] from line 115 on, the captured variables being those read from
    the cache. *)
Definition main (cfg : config) (w : world) (st : state) (t : list effect)
    : list effect * exit :=
  if clock w - lastRead st * 10 ^ 9 <? 15 * 60 * 10 ^ 9
  then (t ++ [Log TooSoon], Returned)
  else
    match downloaded w with
    | None => (t ++ [Log DownloadError], Fatal)
    | Some currBody =>
        let t := (saveCache w (nowUnix w) currBody t).1 in
        match buildLeaderboard (lastBody st) with
        | None => (t, Panicked)
        | Some (_, Some lastLeaderboardErr) =>
            (t ++ [Log (CachedBodyError lastLeaderboardErr)], Fatal)
        | Some (lastLeaderboard, None) =>
            match buildLeaderboard currBody with
            | None => (t, Panicked)
            | Some (_, Some leaderboardErr) =>
                (t ++ [Log (DownloadedBodyError leaderboardErr)], Fatal)
            | Some (leaderboard, None) =>
                match diff cfg w lastLeaderboard leaderboard t with
                | (t', Some _) => (t', Returned)
                | (t', None) => (t', Panicked)
                end
            end
        end
    end.

End Old.

(** A notification of the newer code in the wording of the older main,
    which reports on every event the full count of the member's table. *)
Definition olderWording (member : memberData) (content : notification) : notification :=
  match content with
  | PartCompleted name day partNum rank ordinal year leaderboardID completionTime _ _ =>
      let totalStars := populated (CompletionDayLevel member) in
      OlderPartCompleted name day partNum rank ordinal year leaderboardID completionTime
        (Name member) totalStars (if totalStars =? 1 then "" else "s")
  | NewChallenger name year leaderboardID => OlderNewChallenger name year leaderboardID
  | OlderNewChallenger _ _ _ | OlderPartCompleted _ _ _ _ _ _ _ _ _ _ _ => content
  end.

(** ** Vocabulary for the completion table of a parsed member *)

(** What the innermost callback makes of the value under a day key. *)
Definition dayOf (completionDay : fastjson.Value) : completionDayData :=
  default emptyDay (Visit visitPart (fastjson.entries completionDay) emptyDay).

(** The value under the last key that [strconv.Atoi] reads as [day]. *)
Fixpoint lastEntryFor (day : Z) (entries : list (string * fastjson.Value))
    : option fastjson.Value :=
  match entries with
  | [] => None
  | (key, v) :: rest =>
      match lastEntryFor day rest with
      | Some later => Some later
      | None => if strconv.Atoi key =? day then Some v else None
      end
  end.

(** One of the two texts of main.go, not one of the older file. *)
Definition inNewerWording (content : notification) : bool :=
  match content with
  | NewChallenger _ _ _ | PartCompleted _ _ _ _ _ _ _ _ _ _ => true
  | OlderNewChallenger _ _ _ | OlderPartCompleted _ _ _ _ _ _ _ _ _ _ _ => false
  end.

(** A part of a day of the downloaded table at which the closure [s] is
    called and panics: the part is there and the table of the member in
    the cached leaderboard lacks it, and either the zone is nil (line 191)
    or it is a part 2 whose day has no part 1 (line 254). *)
Definition panicsAt (cfg : config) (lastMember : memberData) (dayIdx : Z)
    (day : completionDayData) (partNum : Z) : Prop :=
  (partNum = 1 ∨ partNum = 2) ∧
  is_Some (partOf day partNum) ∧
  completionAt lastMember dayIdx partNum = None ∧
  (ChicagoTimeZone cfg = None ∨ (partNum = 2 ∧ Part1 day = None)).

(** The leaderboard [buildLeaderboard] makes of a body. *)
Definition parsed (body : string) : leaderboardData :=
  match buildLeaderboard body with
  | Some (lb, _) => lb
  | None => zeroLeaderboard
  end.

(** [Sample.before] with part 2 of day 1 reported and part 1 missing. *)
Definition part2Only : string :=
  Sample.jsonText
    ("{'event':'2023','owner_id':7,'members':{" ++
     "'7':{'id':7,'name':'A','completion_day_level':" ++
     "{'1':{'2':{'get_star_ts':200,'star_index':3}}}}}}").

(** ** The cache file in a run of effects *)

(** The writes of [.cache.json] attempted, in order: the [last_read] and
    the [last_body] of each. *)
Fixpoint writes (t : list effect) : list (Z * string) :=
  match t with
  | [] => []
  | WriteFile last_read last_body _ :: rest => (last_read, last_body) :: writes rest
  | _ :: rest => writes rest
  end.

(** A computation that attempts no write of the cache. *)
Definition silent {A : Type} (c : M A) : Prop :=
  ∀ t, writes (c t).1 = writes t.

(** ** The older differ against the newer one *)

(** Two computations that end the same way and whose notifications
    correspond through [f], from whatever effects each starts. *)
Definition agrees (f : notification → notification) (old new : M unit) : Prop :=
  ∀ t1 t2, ∃ out1 out2 r,
    old t1 = (t1 ++ out1, r) ∧ new t2 = (t2 ++ out2, r) ∧
    posted out1 = f <$> posted out2.

(** * Properties *)

(** ** Machine integers and slices *)

Lemma wrap_small z : minInt ≤ z ≤ maxInt → wrap z = z.
Proof.
  unfold wrap, minInt, maxInt. intros Hz.
  rewrite Z.mod_small by lia. lia.
Qed.

Lemma index_Some {A : Type} (l : list A) (i : Z) (x : A) :
  index l i = Some x ↔ 0 ≤ i ∧ l !! Z.to_nat i = Some x.
Proof.
  unfold index. destruct (Z.ltb_spec i 0); split; try intros [? ?]; try done; lia.
Qed.

Lemma index_in_range {A : Type} (l : list A) (i : Z) :
  0 ≤ i < Z.of_nat (length l) → is_Some (index l i).
Proof.
  intros Hi. unfold index. destruct (Z.ltb_spec i 0); [lia|].
  apply lookup_lt_is_Some. lia.
Qed.

Lemma index_elem_of {A : Type} (l : list A) (i : Z) (x : A) :
  index l i = Some x → x ∈ l.
Proof. intros [_ H]%index_Some. by eapply list_elem_of_lookup_2. Qed.

Lemma filter_length_le {A : Type} (f : A → bool) (l : list A) :
  (length (List.filter f l) ≤ length l)%nat.
Proof. induction l as [|x l IH]; simpl; [lia|]. destruct (f x); simpl; lia. Qed.

Lemma filter_length_lt {A : Type} (f : A → bool) (l : list A) (x : A) :
  x ∈ l → f x = false → (length (List.filter f l) < length l)%nat.
Proof.
  induction 1 as [x l|x y l Hin IH]; intros Hf; simpl.
  - rewrite Hf. pose proof (filter_length_le f l). lia.
  - specialize (IH Hf). destruct (f y); simpl; lia.
Qed.

Lemma filter_none {A : Type} (f : A → bool) (l : list A) :
  (∀ x, x ∈ l → f x = false) → List.filter f l = [].
Proof.
  induction l as [|x l IH]; intros H; simpl; [done|].
  rewrite H by left. apply IH. intros y Hy. apply H. by right.
Qed.

(** In a list without duplicates, a predicate true of one element only
    selects one element. *)
Lemma filter_only {A : Type} (f : A → bool) (l : list A) (a : A) :
  NoDup l → a ∈ l → (∀ x, x ∈ l → f x = true ↔ x = a) →
  length (List.filter f l) = 1%nat.
Proof.
  induction 1 as [|x l Hx Hnd IH]; intros Ha Hf; [by apply elem_of_nil in Ha|].
  simpl. destruct (f x) eqn:Hfx.
  - apply Hf in Hfx; [|left]. subst x.
    rewrite filter_none; [done|].
    intros y Hy. destruct (f y) eqn:Hfy; [|done].
    apply Hf in Hfy; [|by right]. by subst y.
  - apply IH.
    + apply elem_of_cons in Ha as [->|Ha]; [|done].
      assert (f x = true) by (apply Hf; [left|done]). congruence.
    + intros y Hy. apply Hf. by right.
Qed.

(** ** getOrdinal *)

Lemma getOrdinal_mod n : 0 ≤ n → getOrdinal n = getOrdinal (n mod 100).
Proof.
  intros Hn. unfold getOrdinal.
  pose proof (Z.mod_pos_bound n 100 ltac:(lia)).
  rewrite (Z.rem_mod_nonneg n 100), (Z.rem_mod_nonneg (n mod 100) 100) by lia.
  by rewrite Z.mod_mod by lia.
Qed.

Lemma englishSuffix_mod n : englishSuffix n = englishSuffix (n mod 100).
Proof.
  unfold englishSuffix.
  rewrite (Z.mod_mod_divide n 100 10) by (by exists 10).
  by rewrite Z.mod_mod by lia.
Qed.

Lemma getOrdinal_two_digits :
  Forall (fun v => getOrdinal v = Some (englishSuffix v)) (seqZ 0 100).
Proof. apply (bool_decide_unpack _). by vm_compute. Qed.

Lemma getOrdinal_english n : 0 ≤ n → getOrdinal n = Some (englishSuffix n).
Proof.
  intros Hn. rewrite getOrdinal_mod, englishSuffix_mod by done.
  pose proof (Z.mod_pos_bound n 100 ltac:(lia)) as Hv.
  apply (proj1 (Forall_forall _ _) getOrdinal_two_digits).
  apply elem_of_seqZ. lia.
Qed.

(** C8. For every positive [n], [getOrdinal n] is the suffix of the English
    ordinal rule: "th" when the last two digits are 11, 12 or 13, otherwise
    "st", "nd", "rd" for a last digit 1, 2, 3 and "th" for any other; so
    1st, 2nd, 3rd, 4th, 11th, 12th, 13th, 21st and 101st. *)
Theorem getOrdinal_follows_english_rule :
  (∀ n, 0 < n → getOrdinal n = Some (englishSuffix n)) ∧
  (∀ n, 0 < n →
     let lastTwo := n mod 100 in
     let last := n mod 10 in
     (11 ≤ lastTwo ≤ 13 → getOrdinal n = Some "th") ∧
     (¬ 11 ≤ lastTwo ≤ 13 →
        (last = 1 → getOrdinal n = Some "st") ∧
        (last = 2 → getOrdinal n = Some "nd") ∧
        (last = 3 → getOrdinal n = Some "rd") ∧
        (last ≠ 1 → last ≠ 2 → last ≠ 3 → getOrdinal n = Some "th"))) ∧
  getOrdinal 1 = Some "st" ∧ getOrdinal 2 = Some "nd" ∧ getOrdinal 3 = Some "rd" ∧
  getOrdinal 4 = Some "th" ∧ getOrdinal 11 = Some "th" ∧ getOrdinal 12 = Some "th" ∧
  getOrdinal 13 = Some "th" ∧ getOrdinal 21 = Some "st" ∧ getOrdinal 101 = Some "st".
Proof.
  split; [intros n Hn; apply getOrdinal_english; lia|].
  split; [|by vm_compute].
  intros n Hn lastTwo last.
  rewrite getOrdinal_english by lia. unfold englishSuffix.
  fold lastTwo. fold last.
  split.
  - intros [H1 H2].
    apply Z.leb_le in H1, H2. by rewrite H1, H2.
  - intros Hno.
    assert ((11 <=? lastTwo) && (lastTwo <=? 13) = false) as ->.
    { apply andb_false_iff.
      destruct (Z.leb_spec 11 lastTwo), (Z.leb_spec lastTwo 13); auto; lia. }
    repeat split.
    + by intros ->.
    + by intros ->.
    + by intros ->.
    + intros H1 H2 H3.
      apply Z.eqb_neq in H1, H2, H3. by rewrite H1, H2, H3.
Qed.

Lemma getOrdinal_follows_english_rule_witness :
  0 < 112 ∧ getOrdinal 112 = Some (englishSuffix 112).
Proof.
  split; [lia|].
  apply (proj1 getOrdinal_follows_english_rule 112). lia.
Defined.

(** ** getCompletionRank *)

Lemma completionAt_lookup m dayIdx partNum day :
  index (CompletionDayLevel m) dayIdx = Some day →
  completionAt m dayIdx partNum = partOf day partNum.
Proof. unfold completionAt. by intros ->. Qed.

Lemma rankStep_counts inMember dayIdx partNum T member numAhead :
  length (CompletionDayLevel member) = 25%nat →
  0 ≤ dayIdx < 25 →
  0 ≤ numAhead < maxInt →
  rankStep inMember dayIdx partNum T member numAhead
  = Some (numAhead + if finishedEarlier inMember dayIdx partNum T member then 1 else 0).
Proof.
  intros Hlen Hday Hn. unfold rankStep, finishedEarlier.
  destruct (ID member =? ID inMember); simpl; [f_equal; lia|].
  destruct (index_in_range (CompletionDayLevel member) dayIdx) as [day Hd]; [lia|].
  rewrite (completionAt_lookup _ _ _ _ Hd), Hd. simpl.
  destruct (partOf day partNum) as [part|]; [|f_equal; lia].
  destruct (GotStarAt part <? T); [|f_equal; lia].
  rewrite wrap_small by (unfold minInt, maxInt in *; lia). done.
Qed.

Lemma rankLoop_counts inMember dayIdx partNum T members numAhead :
  (∀ m, m ∈ members → length (CompletionDayLevel m) = 25%nat) →
  0 ≤ dayIdx < 25 →
  0 ≤ numAhead →
  numAhead + Z.of_nat (length members) ≤ maxInt →
  rankLoop inMember dayIdx partNum T members numAhead
  = Some (numAhead
          + Z.of_nat (length (List.filter (finishedEarlier inMember dayIdx partNum T)
                                          members))).
Proof.
  intros Hslots Hday. revert numAhead.
  induction members as [|m members IH]; intros numAhead H0 Hmax; simpl.
  - f_equal. lia.
  - simpl in Hmax.
    rewrite rankStep_counts by (try apply Hslots; try left; lia). simpl.
    rewrite IH.
    + destruct (finishedEarlier inMember dayIdx partNum T m); simpl; f_equal; lia.
    + intros m' Hm'. apply Hslots. by right.
    + destruct (finishedEarlier inMember dayIdx partNum T m); lia.
    + destruct (finishedEarlier inMember dayIdx partNum T m); lia.
Qed.

Lemma finishedEarlier_self subject dayIdx partNum T :
  finishedEarlier subject dayIdx partNum T subject = false.
Proof. unfold finishedEarlier. by rewrite Z.eqb_refl. Qed.

(** On a snapshot the rank of a completed part is the number of others
    strictly ahead, and adding 1 to it does not overflow. *)
Lemma getCompletionRank_numEarlier lb subject dayIdx partNum record :
  Snapshot lb →
  subject ∈ Members lb →
  0 ≤ dayIdx < 25 →
  partNum = 1 ∨ partNum = 2 →
  completionAt subject dayIdx partNum = Some record →
  getCompletionRank lb subject dayIdx partNum
  = Some (numEarlier lb subject dayIdx partNum (GotStarAt record)) ∧
  0 ≤ numEarlier lb subject dayIdx partNum (GotStarAt record) < maxInt.
Proof.
  intros [Hslots _ Hparts Hsize] Hin Hday Hpart Hrec.
  assert (0 ≤ numEarlier lb subject dayIdx partNum (GotStarAt record) < maxInt) as Hbound.
  { unfold numEarlier.
    pose proof (filter_length_lt
                  (finishedEarlier subject dayIdx partNum (GotStarAt record))
                  (Members lb) subject Hin (finishedEarlier_self _ _ _ _)).
    lia. }
  split; [|done].
  unfold getCompletionRank.
  destruct (index_in_range (CompletionDayLevel subject) dayIdx) as [day Hd];
    [rewrite (Hslots subject Hin); lia|].
  rewrite (completionAt_lookup _ _ _ _ Hd) in Hrec.
  rewrite Hd. simpl.
  assert (is_Some (Part1 day)) as [part1 Hp1].
  { destruct Hpart as [-> | ->]; simpl in Hrec; [by eexists|].
    apply (Hparts subject day Hin); [by eapply index_elem_of|by eexists]. }
  rewrite Hp1. simpl.
  assert ((if partNum =? 1 then Some (GotStarAt part1)
           else Part2 day ≫= λ part2, Some (GotStarAt part2))
          = Some (GotStarAt record)) as ->.
  { destruct Hpart as [-> | ->]; unfold partOf in Hrec; simpl in *.
    - rewrite Hp1 in Hrec. by inversion Hrec.
    - by rewrite Hrec. }
  simpl. rewrite rankLoop_counts by (try done; lia).
  unfold numEarlier. f_equal.
Qed.

(** C1. On every snapshot, for every member of it, every day index 0..24
    and part 1 or 2 whose completion record is present, [getCompletionRank]
    returns the number of other members (different id) whose record for
    the same day and part is present with a strictly smaller timestamp,
    and the rank reported is that number plus 1.  So when two members
    complete day 5 part 1 at [T] and [T+10] and no one else has, they are
    ranked 1 and 2. *)
Theorem getCompletionRank_counts_members_ahead lb :
  Snapshot lb →
  (∀ subject dayIdx partNum record,
     subject ∈ Members lb →
     0 ≤ dayIdx < 25 →
     partNum = 1 ∨ partNum = 2 →
     completionAt subject dayIdx partNum = Some record →
     let ahead := numEarlier lb subject dayIdx partNum (GotStarAt record) in
     getCompletionRank lb subject dayIdx partNum = Some ahead ∧
     rankReported lb subject dayIdx partNum = Some (ahead + 1)) ∧
  (∀ a b ra rb T,
     a ∈ Members lb → b ∈ Members lb →
     completionAt a 4 1 = Some ra → GotStarAt ra = T →
     completionAt b 4 1 = Some rb → GotStarAt rb = T + 10 →
     (∀ m, m ∈ Members lb → m ≠ a → m ≠ b → completionAt m 4 1 = None) →
     rankReported lb a 4 1 = Some 1 ∧ rankReported lb b 4 1 = Some 2).
Proof.
  intros Hsnap.
  assert (∀ subject dayIdx partNum record,
     subject ∈ Members lb → 0 ≤ dayIdx < 25 → partNum = 1 ∨ partNum = 2 →
     completionAt subject dayIdx partNum = Some record →
     getCompletionRank lb subject dayIdx partNum
     = Some (numEarlier lb subject dayIdx partNum (GotStarAt record)) ∧
     wrap (numEarlier lb subject dayIdx partNum (GotStarAt record) + 1)
     = numEarlier lb subject dayIdx partNum (GotStarAt record) + 1) as Hgen.
  { intros subject dayIdx partNum record Hin Hday Hpart Hrec.
    destruct (getCompletionRank_numEarlier lb subject dayIdx partNum record)
      as [Hrank Hbound]; try done.
    split; [done|]. apply wrap_small. unfold minInt, maxInt in *. lia. }
  split.
  { intros subject dayIdx partNum record Hin Hday Hpart Hrec ahead.
    destruct (Hgen subject dayIdx partNum record Hin Hday Hpart Hrec) as [Hrank Hw].
    split; [done|]. unfold rankReported. rewrite Hrank. simpl. by rewrite Hw. }
  intros a b ra rb T Ha Hb Hra HT Hrb HT' Hothers.
  assert (a ≠ b) as Hab by (intros ->; rewrite Hra in Hrb; inversion Hrb; subst; lia).
  assert (ID a ≠ ID b) as Hid.
  { intros Heq. apply Hab.
    destruct Hsnap as [_ Hnd _ _].
    apply list_elem_of_lookup_1 in Ha as [i Hi], Hb as [j Hj].
    assert (i = j) as ->; [|congruence].
    eapply NoDup_lookup; [exact Hnd| |]; rewrite list_lookup_fmap.
    - by rewrite Hi.
    - rewrite Hj. simpl. by rewrite Heq. }
  destruct (Hgen a 4 1 ra Ha ltac:(lia) ltac:(by left) Hra) as [Hranka _].
  destruct (Hgen b 4 1 rb Hb ltac:(lia) ltac:(by left) Hrb) as [Hrankb _].
  unfold rankReported. rewrite Hranka, Hrankb. simpl. unfold numEarlier.
  rewrite filter_none.
  2:{ intros m Hm. unfold finishedEarlier.
      destruct (decide (m = a)) as [->|Hma]; [by rewrite Z.eqb_refl|].
      destruct (decide (m = b)) as [->|Hmb].
      - rewrite Hrb, HT', HT.
        destruct (Z.ltb_spec (T + 10) T); [lia|]. by rewrite andb_false_r.
      - rewrite Hothers by done. by rewrite andb_false_r. }
  rewrite (filter_only _ _ a); try done.
  - destruct Hsnap as [_ Hnd _ _]. by eapply NoDup_fmap_1.
  - intros m Hm. unfold finishedEarlier. split.
    + intros Hf. destruct (decide (m = a)) as [->|Hma]; [done|].
      destruct (decide (m = b)) as [->|Hmb].
      * by rewrite Z.eqb_refl in Hf.
      * rewrite Hothers in Hf by done. by rewrite andb_false_r in Hf.
    + intros ->. rewrite Hra, HT, HT'.
      apply andb_true_iff. split.
      * apply negb_true_iff, Z.eqb_neq. done.
      * apply Z.ltb_lt. lia.
Qed.

Lemma checkSnapshot_sound lb : checkSnapshot lb = true → Snapshot lb.
Proof.
  unfold checkSnapshot. intros H.
  apply andb_true_iff in H as [H Hsize].
  apply andb_true_iff in H as [Hmembers Hnd].
  rewrite forallb_forall in Hmembers.
  split.
  - intros m Hm%list_elem_of_In. apply Hmembers in Hm.
    apply andb_true_iff in Hm as [Hlen _]. by apply Nat.eqb_eq in Hlen.
  - by apply bool_decide_eq_true in Hnd.
  - intros m day Hm%list_elem_of_In Hday%list_elem_of_In H2.
    apply Hmembers in Hm. apply andb_true_iff in Hm as [_ Hdays].
    rewrite forallb_forall in Hdays. apply Hdays in Hday.
    rewrite bool_decide_true in Hday by done. simpl in Hday.
    by apply bool_decide_eq_true in Hday.
  - by apply Z.leb_le.
Qed.

Lemma getCompletionRank_counts_members_ahead_witness :
  Snapshot Sample.day5 ∧
  rankReported Sample.day5 Sample.bob 4 1 = Some 2 ∧
  rankReported Sample.day5 Sample.ann 4 1 = Some 1.
Proof.
  assert (Snapshot Sample.day5) as Hsnap by (by apply checkSnapshot_sound).
  split; [exact Hsnap|].
  destruct (getCompletionRank_counts_members_ahead Sample.day5 Hsnap) as [Hrank Hscenario].
  split.
  - apply (Hrank Sample.bob 4 1 {| GotStarAt := 1010; StarIndex := 0 |}).
    + right; left.
    + lia.
    + by left.
    + reflexivity.
  - apply (Hscenario Sample.ann Sample.bob {| GotStarAt := 1000; StarIndex := 0 |}
             {| GotStarAt := 1010; StarIndex := 0 |} 1000).
    + left.
    + right; left.
    + reflexivity.
    + reflexivity.
    + reflexivity.
    + reflexivity.
    + intros m Hm Ha Hb.
      apply elem_of_cons in Hm as [->|Hm]; [done|].
      apply elem_of_cons in Hm as [->|Hm]; [done|].
      apply elem_of_cons in Hm as [->|Hm]; [reflexivity|].
      by apply elem_of_nil in Hm.
Defined.

(** ** arrayFind *)

Lemma arrayFind_Some {T : Type} (array : list T) (pred : T → bool) (x : T) :
  arrayFind array pred = Some x → x ∈ array ∧ pred x = true.
Proof.
  induction array as [|v rest IH]; simpl; [done|].
  destruct (pred v) eqn:Hv.
  - intros [= ->]. split; [left|done].
  - intros [Hin Hp]%IH. split; [by right|done].
Qed.

Lemma arrayFind_None {T : Type} (array : list T) (pred : T → bool) :
  arrayFind array pred = None ↔ ∀ x, x ∈ array → pred x = false.
Proof.
  induction array as [|v rest IH]; simpl.
  - split; [|done]. intros _ x Hx. by apply elem_of_nil in Hx.
  - destruct (pred v) eqn:Hv.
    + split; [done|]. intros H. rewrite H in Hv by left. done.
    + rewrite IH. split.
      * intros H x [->|Hx]%elem_of_cons; [done|by apply H].
      * intros H x Hx. apply H. by right.
Qed.

(** With unique ids, looking a member of the list up by its id finds it. *)
Lemma arrayFind_self (members : list memberData) (m : memberData) :
  NoDup (ID <$> members) → m ∈ members →
  arrayFind members (fun x => ID x =? ID m) = Some m.
Proof.
  induction members as [|v rest IH]; intros Hnd Hm; [by apply elem_of_nil in Hm|].
  simpl in *. apply NoDup_cons in Hnd as [Hv Hnd].
  apply elem_of_cons in Hm as [->|Hm]; [by rewrite Z.eqb_refl|].
  destruct (Z.eqb_spec (ID v) (ID m)) as [Heq|_]; [|by apply IH].
  exfalso. apply Hv. rewrite Heq. by apply list_elem_of_fmap_2.
Qed.

(** ** getTotalStars *)


Lemma populated_cons day days :
  populated (day :: days) = part1Star day + part2Star day + populated days.
Proof.
  unfold populated, part1Star, part2Star. simpl.
  destruct (Part1 day), (Part2 day); simpl;
    repeat (rewrite bool_decide_true by (by eexists));
    repeat (rewrite bool_decide_false by (by intros [? ?]));
    simpl; lia.
Qed.



Lemma skipped_cons day days skip :
  skipped (day :: days) skip
  = if skip =? 0 then part2Star day else skipped days (skip - 1).
Proof.
  unfold skipped, index.
  destruct (Z.eqb_spec skip 0) as [->|Hne]; [done|].
  destruct (Z.ltb_spec skip 0), (Z.ltb_spec (skip - 1) 0); try lia; try done.
  replace (Z.to_nat skip) with (S (Z.to_nat (skip - 1))) by lia. done.
Qed.

Lemma totalStarsLoop_counts skip days dayIdx total :
  0 ≤ total → total + 2 * Z.of_nat (length days) ≤ maxInt →
  totalStarsLoop skip dayIdx days total
  = total + populated days - skipped days (skip - dayIdx).
Proof.
  revert dayIdx total.
  induction days as [|day days IH]; intros dayIdx total H0 Hmax; simpl.
  - unfold skipped, index. destruct (skip - dayIdx <? 0); simpl; vm_compute populated; lia.
  - simpl length in Hmax.
    assert (totalStarsStep skip dayIdx day total
            = total + part1Star day
              + (if skip =? dayIdx then 0 else part2Star day)) as Hstep.
    { unfold totalStarsStep, part1Star, part2Star.
      assert (wrap (total + 1) = total + 1) as Hw1
        by (apply wrap_small; unfold minInt, maxInt in *; lia).
      assert (wrap (total + 1 + 1) = total + 1 + 1) as Hw2
        by (apply wrap_small; unfold minInt, maxInt in *; lia).
      destruct (Part1 day), (Part2 day), (skip =? dayIdx);
        rewrite ?Hw1, ?Hw2, ?Hw1; lia. }
    rewrite Hstep, IH, populated_cons, skipped_cons.
    + replace (skip - (dayIdx + 1)) with (skip - dayIdx - 1) by lia.
      destruct (Z.eqb_spec skip dayIdx) as [->|Hne].
      * rewrite Z.sub_diag. simpl.
        assert (skipped days (0 - 1) = 0) as -> by done. lia.
      * destruct (Z.eqb_spec (skip - dayIdx) 0); [lia|]. lia.
    + unfold part1Star, part2Star.
      destruct (Part1 day), (Part2 day), (skip =? dayIdx); lia.
    + unfold part1Star, part2Star.
      destruct (Part1 day), (Part2 day), (skip =? dayIdx); lia.
Qed.

(** On a 25-slot table: the full count, less the Part2 star of the day at
    [skip] when there is one. *)
Lemma getTotalStars_counts member skip :
  length (CompletionDayLevel member) = 25%nat →
  getTotalStars member skip
  = populated (CompletionDayLevel member)
    - (if bool_decide (is_Some (completionAt member skip 2)) then 1 else 0).
Proof.
  intros Hlen. unfold getTotalStars.
  rewrite totalStarsLoop_counts by (rewrite ?Hlen; unfold maxInt; lia).
  rewrite Z.sub_0_r, Z.add_0_l. f_equal.
  unfold skipped, completionAt.
  destruct (index (CompletionDayLevel member) skip) as [day|]; simpl.
  - unfold partOf, part2Star. simpl. by destruct (Part2 day).
  - done.
Qed.


(** ** Computations and what they post *)

Lemma posted_app t1 t2 : posted (t1 ++ t2) = posted t1 ++ posted t2.
Proof.
  induction t1 as [|e t1 IH]; simpl; [done|].
  destruct e; simpl; by rewrite IH.
Qed.

Lemma posts_weaken {A : Type} (c : M A) (P Q : list notification → option A → Prop) :
  posts c P → (∀ l r, P l r → Q l r) → posts c Q.
Proof.
  intros Hc HPQ t. destruct (Hc t) as (out & r & Heq & HP).
  exists out, r. auto.
Qed.

Lemma posts_ret {A : Type} (a : A) :
  posts (ret a) (fun l r => l = [] ∧ r = Some a).
Proof. intros t. exists [], (Some a). by rewrite app_nil_r. Qed.

Lemma posts_orPanic {A : Type} (o : option A) :
  posts (orPanic o) (fun l r => l = [] ∧ r = o).
Proof. intros t. exists [], o. by rewrite app_nil_r. Qed.

Lemma posts_log (l : logLine) :
  posts (emit (Log l)) (fun l r => l = [] ∧ r = Some tt).
Proof. intros t. by exists [Log l], (Some tt). Qed.

Lemma posts_bind {A B : Type} (c : M A) (k : A → M B)
    (P1 : list notification → option A → Prop)
    (P : list notification → option B → Prop) :
  posts c P1 →
  (∀ l1 a, P1 l1 (Some a) → posts (k a) (fun l2 r => P (l1 ++ l2) r)) →
  (∀ l1, P1 l1 None → P l1 None) →
  posts (bind c k) P.
Proof.
  intros Hc Hk Hpanic t. unfold bind.
  destruct (Hc t) as (out1 & r1 & -> & HP1).
  destruct r1 as [a|].
  - destruct (Hk _ _ HP1 (t ++ out1)) as (out2 & r2 & -> & HP).
    exists (out1 ++ out2), r2. by rewrite posted_app, app_assoc.
  - exists out1, None. auto.
Qed.

Lemma posts_sendNotification w content :
  posts (sendNotification w content) (fun l r => l = [content] ∧ is_Some r).
Proof.
  intros t. unfold sendNotification, bind, emit.
  exists [Log (Sending content); Post content], (Some (postFails w (t ++ [Log (Sending content)]) content)).
  split; [|by split; [|eexists]].
  by rewrite <- app_assoc.
Qed.

(** A loop whose every round posts what is expected of it and returns. *)
Lemma posts_forRange_exact {A : Type} (body : Z → A → M unit)
    (expected : Z → A → list notification) (xs : list A) (i : Z) :
  (∀ j x, xs !! j = Some x →
          posts (body (i + Z.of_nat j) x)
                (fun l r => l = expected (i + Z.of_nat j) x ∧ r = Some tt)) →
  posts (forRange body i xs)
        (fun l r => l = concat (zip_with expected (seqZ i (Z.of_nat (length xs))) xs)
                    ∧ r = Some tt).
Proof.
  revert i. induction xs as [|x xs IH]; intros i Hbody; simpl forRange.
  - eapply posts_weaken; [apply posts_ret|]. by intros l r [-> ->].
  - eapply posts_bind.
    + specialize (Hbody 0%nat x eq_refl). rewrite Z.add_0_r in Hbody. exact Hbody.
    + intros l1 [] [-> _]. eapply posts_weaken.
      * apply IH. intros j y Hy.
        replace (i + 1 + Z.of_nat j) with (i + Z.of_nat (S j)) by lia.
        by apply Hbody.
      * intros l r [-> ->]. split; [|done].
        replace (Z.of_nat (length (x :: xs))) with (Z.succ (Z.of_nat (length xs)))
          by (simpl length; lia).
        rewrite (seqZ_cons i) by lia. simpl.
        by rewrite Z.pred_succ.
    + by intros l1 [_ ?].
Qed.

(** A loop whose every round, however it ends, posts only notifications
    with the property [Q]. *)
Lemma posts_forRange_only {A : Type} (body : Z → A → M unit)
    (Q : notification → Prop) (xs : list A) (i : Z) :
  (∀ j x, xs !! j = Some x →
          posts (body (i + Z.of_nat j) x) (fun l _ => Forall Q l)) →
  posts (forRange body i xs) (fun l _ => Forall Q l).
Proof.
  revert i. induction xs as [|x xs IH]; intros i Hbody; simpl forRange.
  - eapply posts_weaken; [apply posts_ret|]. by intros l r [-> _].
  - eapply posts_bind.
    + specialize (Hbody 0%nat x eq_refl). rewrite Z.add_0_r in Hbody. exact Hbody.
    + intros l1 [] Hl1. eapply posts_weaken.
      * apply IH. intros j y Hy.
        replace (i + 1 + Z.of_nat j) with (i + Z.of_nat (S j)) by lia.
        by apply Hbody.
      * intros l r Hl. by apply Forall_app.
    + by intros l1 Hl1.
Qed.

(** With the zone loaded, the closure [s] sends the notification the
    specification expects and returns. *)
Lemma posts_s cfg w lb lastMember member dayIdx partNum record :
  is_Some (ChicagoTimeZone cfg) →
  Snapshot lb → member ∈ Members lb →
  0 ≤ dayIdx < 25 → partNum = 1 ∨ partNum = 2 →
  completionAt member dayIdx partNum = Some record →
  (partNum = 1 →
   newlyCompleted lastMember member dayIdx 2
   = bool_decide (is_Some (completionAt member dayIdx 2))) →
  posts (s cfg w lb member dayIdx record partNum)
        (fun l r => l = [expectedNotice cfg lb lastMember member dayIdx partNum record]
                    ∧ r = Some tt).
Proof.
  intros [loc Hzone] Hsnap Hin Hday Hpart Hrec Hnew.
  destruct (getCompletionRank_numEarlier lb member dayIdx partNum record)
    as [Hrank Hbound]; try done.
  unfold s, expectedNotice. rewrite Hzone.
  set (ahead := numEarlier lb member dayIdx partNum (GotStarAt record)) in *.
  assert (wrap (ahead + 1) = ahead + 1) as Hw
    by (apply wrap_small; unfold minInt, maxInt in *; lia).
  assert (wrap (dayIdx + 1) = dayIdx + 1) as ->
    by (apply wrap_small; unfold minInt, maxInt in *; lia).
  assert (getTotalStars member (if partNum =? 1 then dayIdx else -1)
          = populated (CompletionDayLevel member)
            - (if (partNum =? 1) && newlyCompleted lastMember member dayIdx 2
               then 1 else 0)) as ->.
  { rewrite getTotalStars_counts by (by apply (snapshot_slots lb Hsnap)).
    destruct Hpart as [-> | ->]; simpl.
    - by rewrite Hnew.
    - done. }
  eapply posts_bind; [apply posts_orPanic| |by intros l1 [_ ?]].
  intros l0 completionTime [-> [= <-]].
  rewrite Hrank.
  eapply posts_bind; [apply posts_orPanic| |by intros l1 [_ ?]].
  intros l1 a [-> [= <-]].
  rewrite Hw, getOrdinal_english by lia.
  eapply posts_bind; [apply posts_orPanic| |by intros l1 [_ ?]].
  intros l1 o [-> [= <-]].
  eapply posts_bind; [apply posts_sendNotification| |by intros l1 [_ [? ?]]].
  intros l1 err [-> _]. simpl.
  destruct err.
  - eapply posts_weaken; [apply posts_log|]. by intros l r [-> ->].
  - eapply posts_weaken; [apply posts_ret|]. by intros l r [-> ->].
Qed.

Lemma prev_part2_empty prev lastMember dayIdx :
  Snapshot prev → lastMember ∈ Members prev →
  completionAt lastMember dayIdx 1 = None →
  0 ≤ dayIdx < 25 →
  completionAt lastMember dayIdx 2 = None.
Proof.
  intros Hsnap Hin H1 Hday.
  destruct (index_in_range (CompletionDayLevel lastMember) dayIdx) as [lastDay Hd];
    [rewrite (snapshot_slots prev Hsnap lastMember Hin); lia|].
  rewrite (completionAt_lookup _ _ 1 _ Hd) in H1.
  rewrite (completionAt_lookup _ _ 2 _ Hd).
  unfold partOf in *. simpl in *.
  destruct (Part2 lastDay) as [p2|] eqn:H2; [|done].
  destruct (snapshot_parts prev Hsnap lastMember lastDay Hin) as [p1 Hp1];
    [by eapply index_elem_of|by eexists|]. congruence.
Qed.

(** One of the two [if] statements of lines 214-219, for part [partNum]. *)
Lemma posts_diffPart cfg w prev lb lastMember member dayIdx day partNum :
  is_Some (ChicagoTimeZone cfg) →
  Snapshot prev → Snapshot lb →
  lastMember ∈ Members prev → member ∈ Members lb →
  0 ≤ dayIdx < 25 → partNum = 1 ∨ partNum = 2 →
  index (CompletionDayLevel member) dayIdx = Some day →
  posts (match partOf day partNum with
         | Some part =>
             do lastDay <- orPanic (index (CompletionDayLevel lastMember) dayIdx);
             if partOf lastDay partNum is None
             then s cfg w lb member dayIdx part partNum else ret tt
         | None => ret tt
         end)
        (fun l r => l = expectedPart cfg lb lastMember member dayIdx partNum
                    ∧ r = Some tt).
Proof.
  intros Hzone Hprev Hsnap Hlast Hin Hday Hpart Hd.
  destruct (index_in_range (CompletionDayLevel lastMember) dayIdx) as [lastDay Hld];
    [rewrite (snapshot_slots prev Hprev lastMember Hlast); lia|].
  unfold expectedPart.
  rewrite (completionAt_lookup _ _ _ _ Hd), (completionAt_lookup _ _ _ _ Hld).
  destruct (partOf day partNum) as [part|] eqn:Hp; [|apply posts_ret].
  rewrite Hld.
  eapply posts_bind; [apply posts_orPanic| |by intros l1 [_ ?]].
  intros l1 lastDay' [-> [= ->]]. simpl.
  destruct (partOf lastDay partNum) as [lastPart|] eqn:Hlp; [apply posts_ret|].
  apply posts_s; try done.
  - by rewrite (completionAt_lookup _ _ _ _ Hd).
  - intros ->. unfold newlyCompleted.
    rewrite (prev_part2_empty prev lastMember dayIdx); try done.
    + rewrite (bool_decide_true (None = None)) by done. apply andb_true_r.
    + by rewrite (completionAt_lookup _ _ _ _ Hld).
Qed.

Lemma posts_diffDay cfg w prev lb lastMember member dayIdx day :
  is_Some (ChicagoTimeZone cfg) →
  Snapshot prev → Snapshot lb →
  lastMember ∈ Members prev → member ∈ Members lb →
  0 ≤ dayIdx < 25 →
  index (CompletionDayLevel member) dayIdx = Some day →
  posts (diffDay cfg w lb lastMember member dayIdx day)
        (fun l r => l = expectedDay cfg lb lastMember member dayIdx ∧ r = Some tt).
Proof.
  intros Hzone Hprev Hsnap Hlast Hin Hday Hd. unfold diffDay, expectedDay.
  eapply posts_bind.
  - apply (posts_diffPart cfg w prev lb lastMember member dayIdx day 1); auto.
  - intros l1 [] [-> _].
    eapply posts_weaken.
    + apply (posts_diffPart cfg w prev lb lastMember member dayIdx day 2); auto.
    + by intros l r [-> ->].
  - by intros l1 [_ ?].
Qed.

Lemma zip_with_left {A B C : Type} (f : A → C) (l : list A) (k : list B) :
  length l = length k → zip_with (fun a _ => f a) l k = map f l.
Proof.
  revert k. induction l as [|a l IH]; intros [|b k] Hlen; simpl in *; try done.
  f_equal. apply IH. lia.
Qed.

Lemma zip_with_right {A B C : Type} (f : B → C) (l : list A) (k : list B) :
  length l = length k → zip_with (fun _ b => f b) l k = map f k.
Proof.
  revert k. induction l as [|a l IH]; intros [|b k] Hlen; simpl in *; try done.
  f_equal. apply IH. lia.
Qed.

(** What the specification expects of one member of [current]. *)
Lemma posts_diffMember cfg w prev lb member :
  is_Some (ChicagoTimeZone cfg) →
  Snapshot prev → Snapshot lb → member ∈ Members lb →
  posts (diffMember cfg w prev lb member)
        (fun l r =>
           l = match arrayFind (Members prev) (fun m => ID m =? ID member) with
               | None => [NewChallenger (Name member) (yearArg cfg) (leaderboardID cfg)]
               | Some lastMember => expectedMember cfg lb lastMember member
               end
           ∧ r = Some tt).
Proof.
  intros Hzone Hprev Hsnap Hin. unfold diffMember.
  destruct (arrayFind (Members prev) (fun m => ID m =? ID member))
    as [lastMember|] eqn:Hfind.
  - apply arrayFind_Some in Hfind as [Hlast _].
    pose proof (snapshot_slots lb Hsnap member Hin) as Hlen.
    eapply posts_weaken.
    + apply (posts_forRange_exact _ (fun i _ => expectedDay cfg lb lastMember member i)).
      intros j day Hj. pose proof (lookup_lt_Some _ _ _ Hj).
      apply (posts_diffDay cfg w prev); try done; [lia|].
      apply index_Some. split; [lia|]. by rewrite Z.add_0_l, Nat2Z.id.
    + intros l r [-> ->]. split; [|done]. unfold expectedMember.
      rewrite zip_with_left, Hlen; [done|].
      rewrite length_seqZ. lia.
  - eapply posts_bind; [apply posts_sendNotification| |by intros l1 [_ [? ?]]].
    intros l1 err [-> _]. destruct err.
    + eapply posts_weaken; [apply posts_log|]. by intros l r [-> ->].
    + eapply posts_weaken; [apply posts_ret|]. by intros l r [-> ->].
Qed.

(** The differ posts what the specification expects of it, and returns. *)
Lemma posts_diff cfg w prev lb :
  is_Some (ChicagoTimeZone cfg) →
  Snapshot prev → Snapshot lb →
  posts (diff cfg w prev lb) (fun l r => l = expectedDiff cfg prev lb ∧ r = Some tt).
Proof.
  intros Hzone Hprev Hsnap. unfold diff, expectedDiff.
  eapply posts_weaken.
  - apply (posts_forRange_exact _
             (fun _ member =>
                match arrayFind (Members prev) (fun m => ID m =? ID member) with
                | None => [NewChallenger (Name member) (yearArg cfg) (leaderboardID cfg)]
                | Some lastMember => expectedMember cfg lb lastMember member
                end)).
    intros j member Hj. apply posts_diffMember; try done.
    by eapply list_elem_of_lookup_2.
  - intros l r [-> ->]. split; [|done].
    rewrite zip_with_right; [done|]. rewrite length_seqZ. lia.
Qed.

(** ** The events expected of a member *)

Lemma count_app P l1 l2 : count P (l1 ++ l2) = (count P l1 + count P l2)%nat.
Proof. unfold count. by rewrite List.filter_app, length_app. Qed.

(** In a concatenation of blocks indexed without repetition, a property
    found in the block of [d] only is counted there. *)
Lemma count_concat_at {A : Type} P (g : A → list notification) (l : list A) (d : A) :
  NoDup l → d ∈ l → (∀ i, i ∈ l → i ≠ d → count P (g i) = 0%nat) →
  count P (concat (map g l)) = count P (g d).
Proof.
  induction 1 as [|x l Hx Hnd IH]; intros Hd Hothers; [by apply elem_of_nil in Hd|].
  simpl. rewrite count_app.
  assert (∀ k, (∀ i, i ∈ k → i ≠ d → count P (g i) = 0%nat) → d ∉ k →
               count P (concat (map g k)) = 0%nat) as Hzero.
  { clear. induction k as [|y k IHk]; intros Hk Hdk; [done|].
    simpl. rewrite count_app, Hk, IHk; try done.
    - intros i Hi. apply Hk. by right.
    - intros Hin. apply Hdk. by right.
    - left.
    - intros ->. apply Hdk. left. }
  apply elem_of_cons in Hd as [->|Hd].
  - rewrite Hzero; [lia| |done]. intros i Hi. apply Hothers. by right.
  - rewrite Hothers, IH; try done.
    + intros i Hi. apply Hothers. by right.
    + left.
    + intros ->. done.
Qed.

Lemma elem_of_concat_map {A B : Type} (g : A → list B) (l : list A) (x : B) :
  x ∈ concat (map g l) ↔ ∃ i, i ∈ l ∧ x ∈ g i.
Proof.
  induction l as [|a l IH]; simpl.
  - split; [by intros ?%elem_of_nil|by intros (? & ?%elem_of_nil & _)].
  - rewrite elem_of_app, IH. split.
    + intros [Hx|(i & Hi & Hx)]; [exists a; split; [left|done]|].
      exists i. split; [by right|done].
    + intros (i & [->|Hi]%elem_of_cons & Hx); [by left|right; eauto].
Qed.

Lemma elem_of_expectedPart cfg lb lastMember member dayIdx partNum content :
  content ∈ expectedPart cfg lb lastMember member dayIdx partNum ↔
  ∃ record, completionAt member dayIdx partNum = Some record ∧
            completionAt lastMember dayIdx partNum = None ∧
            content = expectedNotice cfg lb lastMember member dayIdx partNum record.
Proof.
  unfold expectedPart.
  destruct (completionAt member dayIdx partNum) as [record|],
           (completionAt lastMember dayIdx partNum) as [lastRecord|];
    rewrite ?elem_of_nil, ?list_elem_of_singleton; split;
    try done; try (by intros (? & ? & ? & ?)).
  - intros ->. by exists record.
  - by intros (? & [= ->] & _ & ->).
Qed.

Lemma elem_of_expectedMember cfg lb lastMember member content :
  content ∈ expectedMember cfg lb lastMember member ↔
  ∃ dayIdx partNum record,
    0 ≤ dayIdx < 25 ∧ (partNum = 1 ∨ partNum = 2) ∧
    completionAt member dayIdx partNum = Some record ∧
    completionAt lastMember dayIdx partNum = None ∧
    content = expectedNotice cfg lb lastMember member dayIdx partNum record.
Proof.
  unfold expectedMember, expectedDay. rewrite elem_of_concat_map. split.
  - intros (dayIdx & Hd & Hc).
    apply elem_of_seqZ in Hd.
    apply elem_of_app in Hc as [Hc|Hc];
      apply elem_of_expectedPart in Hc as (record & ? & ? & ?).
    + exists dayIdx, 1, record. repeat split; try done; try lia; by left.
    + exists dayIdx, 2, record. repeat split; try done; try lia; by right.
  - intros (dayIdx & partNum & record & Hd & Hp & Hcur & Hprev & ->).
    exists dayIdx. split; [apply elem_of_seqZ; lia|].
    apply elem_of_app.
    destruct Hp as [-> | ->]; [left|right]; apply elem_of_expectedPart; eauto.
Qed.

Lemma newlyCompleted_true lastMember member dayIdx partNum :
  newlyCompleted lastMember member dayIdx partNum = true ↔
  is_Some (completionAt member dayIdx partNum) ∧
  completionAt lastMember dayIdx partNum = None.
Proof.
  unfold newlyCompleted.
  by rewrite andb_true_iff, !bool_decide_eq_true.
Qed.

Lemma count_expectedPart cfg lb lastMember member i q d p :
  count (isCompletion (d + 1) p) (expectedPart cfg lb lastMember member i q)
  = if (i =? d) && (q =? p) && newlyCompleted lastMember member i q then 1%nat else 0%nat.
Proof.
  unfold expectedPart, newlyCompleted.
  destruct (completionAt member i q) as [record|].
  2:{ rewrite bool_decide_false by (by intros [? ?]).
      by rewrite andb_false_r. }
  rewrite bool_decide_true by (by eexists).
  destruct (completionAt lastMember i q) as [lastRecord|].
  { rewrite (bool_decide_false (Some _ = None)) by done.
    by rewrite !andb_false_r. }
  rewrite (bool_decide_true (None = None)) by done.
  rewrite !andb_true_r. unfold count. simpl.
  replace (i + 1 =? d + 1) with (i =? d)
    by (destruct (Z.eqb_spec i d), (Z.eqb_spec (i + 1) (d + 1)); done || lia).
  by destruct ((i =? d) && (q =? p)).
Qed.

(** Among the events expected of a member, a day and part has one event
    when it is newly completed and none otherwise. *)
Lemma count_expectedMember cfg lb lastMember member dayIdx partNum :
  0 ≤ dayIdx < 25 → partNum = 1 ∨ partNum = 2 →
  count (isCompletion (dayIdx + 1) partNum) (expectedMember cfg lb lastMember member)
  = if newlyCompleted lastMember member dayIdx partNum then 1%nat else 0%nat.
Proof.
  intros Hd Hp. unfold expectedMember.
  rewrite (count_concat_at _ _ _ dayIdx).
  - unfold expectedDay. rewrite count_app, !count_expectedPart, Z.eqb_refl. simpl.
    destruct Hp as [-> | ->]; simpl;
      by destruct (newlyCompleted lastMember member dayIdx _).
  - apply NoDup_seqZ.
  - apply elem_of_seqZ. lia.
  - intros i _ Hi. unfold expectedDay. rewrite count_app, !count_expectedPart.
    by destruct (Z.eqb_spec i dayIdx).
Qed.

(** C2. For every pair of snapshots and every member present in both, a
    PartCompleted event for day D and part P is emitted exactly when that
    part is populated in the current slot of day D and empty in the
    previous one, once; nothing else is emitted for the member, and
    diffing a snapshot against itself emits nothing.  The zone in which
    the event renders its time has been loaded (line 36): without it the
    closure panics at line 191 before it sends anything. *)
Theorem diff_emits_exactly_the_new_parts cfg w prev cur :
  is_Some (ChicagoTimeZone cfg) →
  Snapshot prev → Snapshot cur →
  (∀ member lastMember,
     member ∈ Members cur →
     arrayFind (Members prev) (fun m => ID m =? ID member) = Some lastMember →
     posts (diffMember cfg w prev cur member)
       (fun l r =>
          r = Some tt ∧
          (∀ dayIdx partNum,
             0 ≤ dayIdx < 25 → partNum = 1 ∨ partNum = 2 →
             count (isCompletion (dayIdx + 1) partNum) l
             = if newlyCompleted lastMember member dayIdx partNum then 1%nat else 0%nat) ∧
          (∀ content, content ∈ l →
             ∃ dayIdx partNum,
               0 ≤ dayIdx < 25 ∧ (partNum = 1 ∨ partNum = 2) ∧
               isCompletion (dayIdx + 1) partNum content = true ∧
               newlyCompleted lastMember member dayIdx partNum = true))) ∧
  (prev = cur → posts (diff cfg w prev cur) (fun l r => l = [] ∧ r = Some tt)).
Proof.
  intros Hzone Hprev Hcur. split.
  - intros member lastMember Hin Hfind.
    eapply posts_weaken; [by apply posts_diffMember|].
    intros l r [-> ->]. rewrite Hfind. split; [done|]. split.
    + intros dayIdx partNum Hd Hp. by apply count_expectedMember.
    + intros content (dayIdx & partNum & record & Hd & Hp & Hc & Hl & ->)%elem_of_expectedMember.
      exists dayIdx, partNum. repeat split; try done; try lia.
      * simpl. by rewrite !Z.eqb_refl.
      * apply newlyCompleted_true. split; [by eexists|done].
  - intros ->.
    eapply posts_weaken; [by apply posts_diff|].
    intros l r [-> ->]. split; [|done].
    unfold expectedDiff.
    assert (∀ member, member ∈ Members cur →
              match arrayFind (Members cur) (fun m => ID m =? ID member) with
              | Some lastMember => expectedMember cfg cur lastMember member
              | None => [NewChallenger (Name member) (yearArg cfg) (leaderboardID cfg)]
              end = []) as Hnone.
    { intros member Hin.
      rewrite arrayFind_self by (done || apply (snapshot_ids cur Hcur)).
      destruct (expectedMember cfg cur member member) as [|content rest] eqn:He; [done|].
      assert (content ∈ expectedMember cfg cur member member) as Hc by (rewrite He; left).
      apply elem_of_expectedMember in Hc as (? & ? & ? & _ & _ & Hsome & Hnone & _).
      congruence. }
    destruct (concat _) as [|content rest] eqn:He; [done|].
    assert (content ∈ content :: rest) as Hc by left.
    rewrite <- He in Hc. apply elem_of_concat_map in Hc as (member & Hin & Hc).
    rewrite Hnone in Hc by done. by apply elem_of_nil in Hc.
Qed.

Lemma diff_emits_exactly_the_new_parts_witness :
  is_Some (ChicagoTimeZone Sample.cfg) ∧
  Snapshot Sample.previous ∧ Snapshot Sample.current ∧
  Sample.A1 ∈ Members Sample.current ∧
  count (isCompletion 1 2)
        (posted (diffMember Sample.cfg (Sample.world "") Sample.previous Sample.current
                            Sample.A1 []).1) = 1%nat ∧
  count (isCompletion 1 1)
        (posted (diffMember Sample.cfg (Sample.world "") Sample.previous Sample.current
                            Sample.A1 []).1) = 0%nat.
Proof.
  assert (Snapshot Sample.previous) as Hprev by (by apply checkSnapshot_sound).
  assert (Snapshot Sample.current) as Hcur by (by apply checkSnapshot_sound).
  assert (Sample.A1 ∈ Members Sample.current) as Hin by left.
  assert (is_Some (ChicagoTimeZone Sample.cfg)) as Hzone by (by eexists).
  split; [exact Hzone|].
  split; [exact Hprev|]. split; [exact Hcur|]. split; [exact Hin|]. split.
  - destruct (proj1 (diff_emits_exactly_the_new_parts Sample.cfg (Sample.world "")
                       Sample.previous Sample.current Hzone Hprev Hcur)
                    Sample.A1 Sample.A0 Hin eq_refl [])
      as (out & r & -> & _ & Hcount & _).
    apply (Hcount 0 2); [lia|by right].
  - destruct (proj1 (diff_emits_exactly_the_new_parts Sample.cfg (Sample.world "")
                       Sample.previous Sample.current Hzone Hprev Hcur)
                    Sample.A1 Sample.A0 Hin eq_refl [])
      as (out & r & -> & _ & Hcount & _).
    apply (Hcount 0 1); [lia|by left].
Defined.

(** The star count on the event expected for a day and a part. *)
Lemma totalStarsOf_expected cfg lb lastMember member content dayIdx partNum :
  content ∈ expectedMember cfg lb lastMember member →
  0 ≤ dayIdx < 25 →
  isCompletion (dayIdx + 1) partNum content = true →
  totalStarsOf content
  = Some (populated (CompletionDayLevel member)
          - (if (partNum =? 1) && newlyCompleted lastMember member dayIdx 2
             then 1 else 0)).
Proof.
  intros Hc Hd Hev.
  apply elem_of_expectedMember in Hc as (i & q & record & Hi & Hq & _ & _ & ->).
  simpl in Hev. apply andb_true_iff in Hev as [Hday Hpart].
  apply Z.eqb_eq in Hday, Hpart. assert (i = dayIdx) as -> by lia. by subst q.
Qed.

(** C3. For every pair of snapshots and every member present in both, the
    star count attached to a PartCompleted event is the number of
    populated Part1 and Part2 records of the member's current table; but
    on the Part1 event of a day whose Part2 is also newly completed in the
    same cycle it is that number minus 1, while the Part2 event of the day
    carries the full number.  Every part newly completed has its event,
    one, and it carries that count; the zone in which the event renders
    its time has been loaded. *)
Theorem star_count_of_completion_events cfg w prev cur :
  is_Some (ChicagoTimeZone cfg) →
  Snapshot prev → Snapshot cur →
  ∀ member lastMember,
    member ∈ Members cur →
    arrayFind (Members prev) (fun m => ID m =? ID member) = Some lastMember →
    posts (diffMember cfg w prev cur member)
      (fun l r =>
         r = Some tt ∧
         (∀ dayIdx partNum,
            0 ≤ dayIdx < 25 → partNum = 1 ∨ partNum = 2 →
            newlyCompleted lastMember member dayIdx partNum = true →
            ∃ content,
              List.filter (isCompletion (dayIdx + 1) partNum) l = [content] ∧
              totalStarsOf content
              = Some (populated (CompletionDayLevel member)
                      - (if (partNum =? 1) && newlyCompleted lastMember member dayIdx 2
                         then 1 else 0))) ∧
         ∀ content dayIdx partNum,
           content ∈ l → 0 ≤ dayIdx < 25 →
           isCompletion (dayIdx + 1) partNum content = true →
           let full := populated (CompletionDayLevel member) in
           (partNum = 2 → totalStarsOf content = Some full) ∧
           (partNum = 1 → newlyCompleted lastMember member dayIdx 2 = true →
            totalStarsOf content = Some (full - 1)) ∧
           (partNum = 1 → newlyCompleted lastMember member dayIdx 2 = false →
            totalStarsOf content = Some full)).
Proof.
  intros Hzone Hprev Hcur member lastMember Hin Hfind.
  eapply posts_weaken; [by apply posts_diffMember|].
  intros l r [-> ->]. rewrite Hfind. split; [done|]. split.
  - intros dayIdx partNum Hd Hp Hnew.
    pose proof (count_expectedMember cfg cur lastMember member dayIdx partNum Hd Hp)
      as Hcount.
    rewrite Hnew in Hcount. unfold count in Hcount.
    destruct (List.filter (isCompletion (dayIdx + 1) partNum)
                (expectedMember cfg cur lastMember member))
      as [|content [|other rest]] eqn:Hfilter; try discriminate Hcount.
    exists content. split; [done|].
    assert (List.In content
              (List.filter (isCompletion (dayIdx + 1) partNum)
                 (expectedMember cfg cur lastMember member))) as Hc
      by (rewrite Hfilter; left; done).
    apply List.filter_In in Hc as [Hc Hev]. apply list_elem_of_In in Hc.
    by apply (totalStarsOf_expected cfg cur lastMember member).
  - intros content dayIdx partNum Hc Hd Hev full.
    rewrite (totalStarsOf_expected cfg cur lastMember member content dayIdx partNum)
      by done.
    fold full. repeat split.
    + intros ->. simpl. f_equal. lia.
    + by intros -> ->.
    + intros -> ->. simpl. f_equal. lia.
Qed.

Lemma star_count_of_completion_events_witness :
  is_Some (ChicagoTimeZone Sample.cfg) ∧
  Snapshot Sample.previous ∧ Snapshot Sample.both ∧
  Sample.A2 ∈ Members Sample.both ∧
  let l := posted (diffMember Sample.cfg (Sample.world "") Sample.previous
                              Sample.both Sample.A2 []).1 in
  (∃ content, List.filter (isCompletion 2 1) l = [content] ∧
              totalStarsOf content = Some 2) ∧
  (∃ content, List.filter (isCompletion 2 2) l = [content] ∧
              totalStarsOf content = Some 3).
Proof.
  assert (is_Some (ChicagoTimeZone Sample.cfg)) as Hzone by (by eexists).
  assert (Snapshot Sample.previous) as Hprev by (by apply checkSnapshot_sound).
  assert (Snapshot Sample.both) as Hcur by (by apply checkSnapshot_sound).
  assert (Sample.A2 ∈ Members Sample.both) as Hin by left.
  split; [exact Hzone|].
  split; [exact Hprev|]. split; [exact Hcur|]. split; [exact Hin|].
  destruct (star_count_of_completion_events Sample.cfg (Sample.world "")
              Sample.previous Sample.both Hzone Hprev Hcur Sample.A2 Sample.A0 Hin
              eq_refl [])
    as (out & r & Heq & _ & Hevents & _).
  rewrite Heq. cbn [fst]. cbn zeta. split.
  - destruct (Hevents 1 1 ltac:(lia) ltac:(by left) eq_refl) as (content & Hf & Hstars).
    exists content. split; [exact Hf|]. rewrite Hstars. by vm_compute.
  - destruct (Hevents 1 2 ltac:(lia) ltac:(by right) eq_refl) as (content & Hf & Hstars).
    exists content. split; [exact Hf|]. rewrite Hstars. by vm_compute.
Defined.

(** C5. For every pair of snapshots, a member of the current one whose id
    is not in the previous one yields exactly one NewMember event and no
    PartCompleted event, whatever its completion table holds: its days
    are not looked at. *)
Theorem new_member_yields_one_event cfg w prev cur member :
  member ∈ Members cur →
  ID member ∉ (ID <$> Members prev) →
  posts (diffMember cfg w prev cur member)
    (fun l r =>
       r = Some tt ∧
       l = [NewChallenger (Name member) (yearArg cfg) (leaderboardID cfg)] ∧
       count isNewChallenger l = 1%nat ∧
       ∀ day partNum, count (isCompletion day partNum) l = 0%nat).
Proof.
  intros _ Habsent. unfold diffMember.
  assert (arrayFind (Members prev) (fun m => ID m =? ID member) = None) as ->.
  { apply arrayFind_None. intros m Hm. apply Z.eqb_neq. intros Heq.
    apply Habsent. rewrite <- Heq. by apply list_elem_of_fmap_2. }
  eapply posts_bind; [apply posts_sendNotification| |by intros l1 [_ [? ?]]].
  intros l1 err [-> _]. destruct err.
  - eapply posts_weaken; [apply posts_log|]. by intros l r [-> ->].
  - eapply posts_weaken; [apply posts_ret|]. by intros l r [-> ->].
Qed.

Lemma new_member_yields_one_event_witness :
  Sample.B1 ∈ Members Sample.current ∧
  (ID Sample.B1 ∉ (ID <$> Members Sample.previous)) ∧
  posted (diffMember Sample.cfg (Sample.world "") Sample.previous Sample.current
                     Sample.B1 []).1
  = [NewChallenger "B" "2023" "1234567"].
Proof.
  assert (Sample.B1 ∈ Members Sample.current) as Hin by (right; left).
  assert (ID Sample.B1 ∉ (ID <$> Members Sample.previous)) as Habsent.
  { intros [Heq|Hno%elem_of_nil]%elem_of_cons; [discriminate Heq|done]. }
  split; [exact Hin|]. split; [exact Habsent|].
  destruct (new_member_yields_one_event Sample.cfg (Sample.world "")
              Sample.previous Sample.current Sample.B1 Hin Habsent [])
    as (out & r & Heq & _ & Hl & _).
  rewrite Heq. exact Hl.
Defined.

(** ** buildLeaderboard *)

Lemma setIndex_Some {A : Type} (s s' : list A) (i : Z) (x : A) :
  setIndex s i x = Some s' →
  0 ≤ i < Z.of_nat (length s) ∧ s' = <[Z.to_nat i := x]> s.
Proof.
  unfold setIndex. destruct (Z.ltb_spec i 0); [done|].
  destruct (Nat.ltb_spec (Z.to_nat i) (length s)); [|done].
  intros [= <-]. split; [lia|done].
Qed.

Lemma Atoi_range key : minInt ≤ strconv.Atoi key ≤ maxInt.
Proof.
  unfold strconv.Atoi.
  match goal with |- context [match ?n with Some _ => _ | None => _ end] => destruct n end;
    unfold minInt, maxInt; lia.
Qed.

(** The slot a day key fills is the one of its day number. *)
Lemma slot_of_day key day :
  1 ≤ day ≤ 25 → wrap (strconv.Atoi key - 1) = day - 1 → strconv.Atoi key = day.
Proof.
  intros Hday. pose proof (Atoi_range key) as Hr.
  destruct (decide (strconv.Atoi key = minInt)) as [->|Hne].
  - assert (wrap (minInt - 1) = maxInt) as -> by (by vm_compute).
    unfold minInt, maxInt. lia.
  - rewrite wrap_small by (unfold minInt, maxInt in *; lia). lia.
Qed.

Lemma visitDay_slots member completionKey completionDay member' :
  visitDay member completionKey completionDay = Some member' →
  length (CompletionDayLevel member') = length (CompletionDayLevel member) ∧
  ∀ day, 1 ≤ day ≤ 25 → strconv.Atoi completionKey ≠ day →
         index (CompletionDayLevel member') (day - 1)
         = index (CompletionDayLevel member) (day - 1).
Proof.
  unfold visitDay. intros H.
  destruct (Visit visitPart _ emptyDay) as [memberCompletionObj|]; [|done].
  simpl in H.
  destruct (setIndex _ _ _) as [days|] eqn:Hset; [|done].
  injection H as <-. simpl.
  apply setIndex_Some in Hset as [Hi ->].
  split; [apply length_insert|].
  intros day Hday Hne. unfold index.
  destruct (day - 1 <? 0); [done|].
  apply list_lookup_insert_ne.
  intros Heq. apply Hne, slot_of_day; [done|]. lia.
Qed.

Lemma Visit_visitDay_slots entries member member' :
  Visit visitDay entries member = Some member' →
  length (CompletionDayLevel member') = length (CompletionDayLevel member) ∧
  ∀ day, 1 ≤ day ≤ 25 →
         day ∉ ((fun entry : string * fastjson.Value => strconv.Atoi entry.1) <$> entries) →
         index (CompletionDayLevel member') (day - 1)
         = index (CompletionDayLevel member) (day - 1).
Proof.
  revert member. induction entries as [|[key v] entries IH]; intros member; simpl.
  - by intros [= ->].
  - destruct (visitDay member key v) as [member1|] eqn:Hv; [|done]. simpl.
    intros Hrest. apply visitDay_slots in Hv as [Hlen1 Hidx1].
    apply IH in Hrest as [Hlen Hidx]. split; [congruence|].
    intros day Hday Hnot.
    rewrite Hidx, Hidx1; try done.
    + intros Heq. apply Hnot. rewrite <- Heq. left.
    + intros Hin. apply Hnot. by right.
Qed.


Lemma visitMember_built leaderboard key memberVal leaderboard' :
  visitMember leaderboard key memberVal = Some leaderboard' →
  Event leaderboard' = Event leaderboard ∧ OwnerID leaderboard' = OwnerID leaderboard ∧
  ∃ member, Members leaderboard' = Members leaderboard ++ [member] ∧
            built (key, memberVal) member.
Proof.
  unfold visitMember. intros H.
  destruct (Visit visitDay _ _) as [member|] eqn:Hv; [|done].
  injection H as <-. simpl. do 2 (split; [done|]).
  exists member. split; [done|].
  apply Visit_visitDay_slots in Hv as [Hlen Hidx]. simpl in *.
  rewrite ?length_replicate in Hlen. split; [done|].
  intros day Hday Hnot. rewrite Hidx by done.
  unfold index. destruct (Z.ltb_spec (day - 1) 0); [lia|].
  exact (lookup_replicate_2 25 emptyDay (Z.to_nat (day - 1)) ltac:(lia)).
Qed.

Lemma Visit_visitMember_built entries leaderboard leaderboard' :
  Visit visitMember entries leaderboard = Some leaderboard' →
  Event leaderboard' = Event leaderboard ∧ OwnerID leaderboard' = OwnerID leaderboard ∧
  ∃ members, Members leaderboard' = Members leaderboard ++ members ∧
             Forall2 built entries members.
Proof.
  revert leaderboard. induction entries as [|[key v] entries IH]; intros leaderboard; simpl.
  - intros [= ->]. do 2 (split; [done|]). exists []. by rewrite app_nil_r.
  - destruct (visitMember leaderboard key v) as [leaderboard1|] eqn:Hv; [|done]. simpl.
    intros Hrest.
    apply visitMember_built in Hv as (He1 & Ho1 & member & Hm1 & Hbuilt).
    apply IH in Hrest as (He & Ho & members & Hm & Hall).
    split; [congruence|]. split; [congruence|].
    exists (member :: members). split; [|by constructor].
    by rewrite Hm, Hm1, <- app_assoc.
Qed.

(** [json.Unmarshal] cannot reach [Members]: the tag hides it. *)
Lemma decodeFields_leaderboard kvs l :
  Members (json.decodeFields json.leaderboardField kvs l).1 = Members l ∧
  (json.decodeFields json.leaderboardField kvs l).2 = existsb wrongType kvs.
Proof.
  revert l. induction kvs as [|[key v] kvs IH]; intros l; simpl; [done|].
  unfold json.leaderboardField.
  assert (∀ l', Members l' = Members l →
            Members (json.decodeFields json.leaderboardField kvs l').1 = Members l ∧
            (json.decodeFields json.leaderboardField kvs l').2 = existsb wrongType kvs)
    as Hrest by (intros l' <-; apply IH).
  destruct (String.eqb (json.lowerKey key) "event").
  { destruct v; simpl; try done; by apply Hrest. }
  destruct (String.eqb (json.lowerKey key) "owner_id"); [|by apply Hrest].
  destruct v; simpl; try done; try (by apply Hrest).
  destruct (json.intOfLiteral raw); simpl; [by apply Hrest|done].
Qed.

Lemma Unmarshal_leaderboard body :
  Members (json.Unmarshal json.leaderboardField body zeroLeaderboard).1 = [] ∧
  (json.Unmarshal json.leaderboardField body zeroLeaderboard).2
  = match fastjson.ParseBytes body with
    | None => true
    | Some v => rejected v
    end.
Proof.
  unfold json.Unmarshal. destruct (fastjson.ParseBytes body) as [v|]; [|done].
  destruct v; try done. apply decodeFields_leaderboard.
Qed.

(** The three ways [buildLeaderboard] ends, by what the body is. *)
Lemma buildLeaderboard_cases body :
  match fastjson.ParseBytes body with
  | None => ∃ lb, buildLeaderboard body = Some (lb, Some UnmarshalError) ∧ Members lb = []
  | Some jsonObj =>
      if rejected jsonObj
      then ∃ lb, buildLeaderboard body = Some (lb, Some UnmarshalError) ∧ Members lb = []
      else buildLeaderboard body = None ∨
           ∃ lb, buildLeaderboard body = Some (lb, None) ∧
                 Forall2 built (fastjson.GetObject jsonObj "members") (Members lb)
  end.
Proof.
  unfold buildLeaderboard, buildLeaderboardWith.
  destruct (Unmarshal_leaderboard body) as [Hm Herr].
  destruct (json.Unmarshal json.leaderboardField body zeroLeaderboard)
    as [leaderboard marshalErr]. simpl in *. subst marshalErr.
  destruct (fastjson.ParseBytes body) as [jsonObj|]; [|by exists leaderboard].
  destruct (rejected jsonObj); [by exists leaderboard|].
  destruct (Visit visitMember _ leaderboard) as [lb|] eqn:Hv; [|by left].
  right. exists lb. split; [done|].
  apply Visit_visitMember_built in Hv as (_ & _ & members & -> & Hall).
  by rewrite Hm.
Qed.

(** C7. Every member of a snapshot the parser returns has a completion
    table of exactly 25 slots, whatever days the raw data gives; a day the
    raw data does not give is a both-empty slot, never left out, so every
    day index 0..24 is in bounds. *)
Theorem parsed_members_have_25_slots body lb :
  buildLeaderboard body = Some (lb, None) →
  (∀ member, member ∈ Members lb →
     length (CompletionDayLevel member) = 25%nat ∧
     ∀ dayIdx, 0 ≤ dayIdx < 25 → is_Some (index (CompletionDayLevel member) dayIdx)) ∧
  (∃ jsonObj,
     fastjson.ParseBytes body = Some jsonObj ∧
     Forall2 (fun entry member =>
                ∀ day, 1 ≤ day ≤ 25 → day ∉ daysPresent entry.2 →
                       index (CompletionDayLevel member) (day - 1) = Some emptyDay)
             (fastjson.GetObject jsonObj "members") (Members lb)).
Proof.
  intros Hbuild. pose proof (buildLeaderboard_cases body) as Hcases.
  destruct (fastjson.ParseBytes body) as [jsonObj|].
  2:{ destruct Hcases as (lb' & Heq & _). congruence. }
  destruct (rejected jsonObj).
  { destruct Hcases as (lb' & Heq & _). congruence. }
  destruct Hcases as [Hpanic|(lb' & Heq & Hall)]; [congruence|].
  assert (lb' = lb) as -> by congruence.
  split.
  - intros member Hin.
    apply list_elem_of_lookup_1 in Hin as [i Hi].
    destruct (Forall2_lookup_r _ _ _ _ _ Hall Hi) as (entry & _ & Hlen & _).
    split; [done|]. intros dayIdx Hd. apply index_in_range. lia.
  - exists jsonObj. split; [done|].
    eapply Forall2_impl; [exact Hall|]. by intros entry member [_ Hempty].
Qed.

Lemma parsed_members_have_25_slots_witness :
  buildLeaderboard Sample.three = Some (parsedThree, None) ∧
  length (Members parsedThree) = 3%nat ∧
  ∀ member, member ∈ Members parsedThree →
            length (CompletionDayLevel member) = 25%nat.
Proof.
  assert (buildLeaderboard Sample.three = Some (parsedThree, None)) as Hbuild
    by (by vm_compute).
  split; [exact Hbuild|]. split; [by vm_compute|].
  intros member Hin.
  by destruct (proj1 (parsed_members_have_25_slots Sample.three parsedThree Hbuild)
                     member Hin).
Defined.

(** ** The cycle and a body that does not parse *)

Lemma posts_compare_cached_fails cfg w lastBody currBody lb e :
  buildLeaderboard lastBody = Some (lb, Some e) →
  posts (compare cfg w lastBody currBody) (fun l r => l = [] ∧ r = Some tt).
Proof.
  intros Hfail. unfold compare.
  destruct (String.length lastBody =? 0)%nat; [apply posts_ret|].
  rewrite Hfail.
  eapply posts_bind; [apply posts_orPanic| |by intros l1 [_ ?]].
  intros l1 last [-> [= ->]]. apply posts_log.
Qed.

Lemma posts_compare_downloaded_fails cfg w lastBody currBody lb e :
  buildLeaderboard lastBody ≠ None →
  buildLeaderboard currBody = Some (lb, Some e) →
  posts (compare cfg w lastBody currBody) (fun l r => l = [] ∧ r = Some tt).
Proof.
  intros Hlast Hfail. unfold compare.
  destruct (String.length lastBody =? 0)%nat; [apply posts_ret|].
  destruct (buildLeaderboard lastBody) as [[lastLeaderboard lastErr]|]; [|done].
  eapply posts_bind; [apply posts_orPanic| |by intros l1 [_ ?]].
  intros l1 last [-> [= ->]].
  destruct lastErr; [apply posts_log|].
  rewrite Hfail.
  eapply posts_bind; [apply posts_orPanic| |by intros l1 [_ ?]].
  intros l1 curr [-> [= ->]]. apply posts_log.
Qed.

(** C6, as the code has it.  Whatever the two JSON libraries accept, the
    parser fails exactly when one of them returns an error for the body:
    [json.Unmarshal] at line 323, or else [fastjson.ParseBytes] at line
    328.  It checks nothing about the shape itself: a body both accept
    and that holds no [members] object gives a snapshot without members
    and no error, whatever other fields are there or missing.  When the
    parser fails, the value returned with the error is the struct as
    [json.Unmarshal] left it: it holds no member (the library does not
    touch the field tagged [json:"-"]), but what was decoded before the
    error stays in it; the cycle logs the error and ends without posting
    anything. *)
Theorem parser_fails_exactly_when_a_library_rejects
    (Unmarshal : string → leaderboardData → leaderboardData * bool)
    (ParseBytes : string → option fastjson.Value) (body : string) :
  (∀ b, Members (Unmarshal b zeroLeaderboard).1 = []) →
  ((∃ lb e, buildLeaderboardWith Unmarshal ParseBytes body = Some (lb, Some e)) ↔
   (Unmarshal body zeroLeaderboard).2 = true ∨ ParseBytes body = None) ∧
  (∀ lb e, buildLeaderboardWith Unmarshal ParseBytes body = Some (lb, Some e) →
     lb = (Unmarshal body zeroLeaderboard).1 ∧ Members lb = [] ∧
     (e = UnmarshalError ↔ (Unmarshal body zeroLeaderboard).2 = true)) ∧
  (∀ jsonObj,
     (Unmarshal body zeroLeaderboard).2 = false →
     ParseBytes body = Some jsonObj →
     fastjson.GetObject jsonObj "members" = [] →
     buildLeaderboardWith Unmarshal ParseBytes body
     = Some ((Unmarshal body zeroLeaderboard).1, None)) ∧
  (∀ lb e, buildLeaderboard body = Some (lb, Some e) →
     ∀ cfg w other,
       posts (compare cfg w body other) (fun l r => l = [] ∧ r = Some tt) ∧
       (buildLeaderboard other ≠ None →
        posts (compare cfg w other body) (fun l r => l = [] ∧ r = Some tt))).
Proof.
  intros Hmembers. specialize (Hmembers body).
  unfold buildLeaderboardWith.
  destruct (Unmarshal body zeroLeaderboard) as [leaderboard marshalErr].
  cbn [fst snd] in *.
  split; [|split; [|split]].
  - destruct marshalErr; [split; [by left|eauto]|].
    destruct (ParseBytes body) as [jsonObj|]; [|split; [by right|eauto]].
    split.
    + intros (lb & e & Hfail).
      destruct (Visit visitMember _ leaderboard); simpl in Hfail; congruence.
    + by intros [?|?].
  - intros lb e Hfail. destruct marshalErr.
    + injection Hfail as <- <-. by repeat split.
    + destruct (ParseBytes body) as [jsonObj|].
      * destruct (Visit visitMember _ leaderboard); simpl in Hfail; congruence.
      * injection Hfail as <- <-. by repeat split.
  - intros jsonObj -> -> ->. done.
  - intros lb e Hfail cfg w other. split.
    + by eapply posts_compare_cached_fails.
    + intros Hother. by eapply posts_compare_downloaded_fails.
Qed.

Lemma parser_fails_exactly_when_a_library_rejects_witness :
  (∀ b, Members (json.Unmarshal json.leaderboardField b zeroLeaderboard).1 = []) ∧
  fastjson.ParseBytes "not a leaderboard" = None ∧
  ∃ lb e, buildLeaderboard "not a leaderboard" = Some (lb, Some e) ∧ Members lb = [].
Proof.
  assert (∀ b, Members (json.Unmarshal json.leaderboardField b zeroLeaderboard).1 = [])
    as Hmembers by (intros b; apply Unmarshal_leaderboard).
  assert (fastjson.ParseBytes "not a leaderboard" = None) as Hnone by (by vm_compute).
  split; [exact Hmembers|]. split; [exact Hnone|].
  destruct (parser_fails_exactly_when_a_library_rejects
              (json.Unmarshal json.leaderboardField) fastjson.ParseBytes
              "not a leaderboard" Hmembers) as (Hiff & Hvalue & _).
  destruct (proj2 Hiff (or_intror Hnone)) as (lb & e & Hfail).
  exists lb, e. split; [exact Hfail|]. by destruct (Hvalue lb e Hfail) as (_ & ? & _).
Defined.

(** C6, as stated, fails twice.  The document [{}] is well-formed and
    holds none of the expected fields, and the parser returns a snapshot
    and no error.  And a document whose [owner_id] is a string is
    refused, but the value returned with the error is not empty: it
    holds the [event] decoded before the error. *)
Lemma parser_accepts_missing_fields_and_returns_partial_value :
  (fastjson.ParseBytes "{}" = Some (fastjson.Object []) ∧
   buildLeaderboard "{}" = Some (zeroLeaderboard, None) ∧
   ¬ ∃ lb e, buildLeaderboard "{}" = Some (lb, Some e)) ∧
  (buildLeaderboard (Sample.jsonText "{'event':'2023','owner_id':'seven'}")
   = Some ({| Event := "2023"; Members := []; OwnerID := 0 |}, Some UnmarshalError) ∧
   {| Event := "2023"; Members := []; OwnerID := 0 |} ≠ zeroLeaderboard).
Proof.
  split; [split; [by vm_compute|split; [by vm_compute|]]|split; [by vm_compute|done]].
  intros (lb & e & Hfail). vm_compute in Hfail. discriminate Hfail.
Qed.

(** ** The poll cycle *)

Lemma saveCache_run w currBody t :
  saveCache w (nowUnix w) currBody t = (t ++ saved w currBody, Some tt).
Proof.
  unfold saveCache, saved, bind, emit, ret.
  destruct (marshalFails w); [done|].
  destruct (writeFails w); simpl; [by rewrite <- app_assoc|done].
Qed.

Lemma posted_saved w currBody : posted (saved w currBody) = [].
Proof. unfold saved. by destruct (marshalFails w), (writeFails w). Qed.

(** A cycle that is due and whose download succeeds: the cache write, then
    the comparison, and the deferred assignment whatever the outcome. *)
Lemma refresh_due cfg w st t body :
  due w st → downloaded w = Some body →
  refresh cfg w st t
  = (compare cfg w (lastBody st) body (t ++ [Log Scanning] ++ saved w body),
     {| lastRead := nowUnix w; lastBody := body |}).
Proof.
  unfold due, refresh. intros Hdue ->.
  destruct (Z.ltb_spec (clock w - lastRead st * 10 ^ 9) (14 * 60 * 10 ^ 9)); [lia|].
  unfold bind. by rewrite saveCache_run, app_assoc.
Qed.

(** A cycle either keeps the previous body or replaces it by the body it
    downloaded. *)
Lemma refresh_lastBody cfg w st t :
  lastBody (refresh cfg w st t).2 = lastBody st ∨
  downloaded w = Some (lastBody (refresh cfg w st t).2).
Proof.
  unfold refresh.
  destruct (_ <? _); [by left|].
  destruct (downloaded w); [by right|by left].
Qed.


(** C4, as the code has it. On a first run, when no cached snapshot
    exists, a cycle emits no event at all, neither NewMember nor
    PartCompleted, whatever the current snapshot holds; when it is due and
    the download succeeds it writes the cache and keeps the downloaded
    body as the previous one for the next cycle. *)
Theorem first_run_emits_no_event cfg w t :
  posted (refresh cfg w (loadCache None) t).1.1 = posted t ∧
  (refresh cfg w (loadCache None) t).1.2 = Some tt ∧
  ∀ body,
    due w (loadCache None) → downloaded w = Some body →
    (refresh cfg w (loadCache None) t).1.1 = t ++ [Log Scanning] ++ saved w body ∧
    (refresh cfg w (loadCache None) t).2 = {| lastRead := nowUnix w; lastBody := body |}.
Proof.
  assert (∀ body, due w (loadCache None) → downloaded w = Some body →
            refresh cfg w (loadCache None) t
            = (t ++ [Log Scanning] ++ saved w body, Some tt,
               {| lastRead := nowUnix w; lastBody := body |})) as Hdue.
  { intros body Hd Hbody. rewrite (refresh_due _ _ _ _ body) by done. done. }
  destruct (Z.ltb_spec (clock w - lastRead (loadCache None) * 10 ^ 9)
                       (14 * 60 * 10 ^ 9)) as [Hsoon|Hd].
  { unfold refresh.
    destruct (Z.ltb_spec (clock w - lastRead (loadCache None) * 10 ^ 9)
                         (14 * 60 * 10 ^ 9)); [|lia].
    simpl. rewrite !posted_app, !app_nil_r. split; [done|]. split; [done|].
    intros body Hdue'. unfold due, loadCache in *. simpl in *. lia. }
  destruct (downloaded w) as [body|] eqn:Hbody.
  - rewrite (Hdue body Hd eq_refl). simpl.
    rewrite posted_app. simpl. rewrite posted_saved, app_nil_r.
    split; [done|]. split; [done|].
    by intros body' _ [= <-].
  - unfold refresh.
    destruct (Z.ltb_spec (clock w - lastRead (loadCache None) * 10 ^ 9)
                         (14 * 60 * 10 ^ 9)); [lia|].
    rewrite Hbody. simpl. rewrite !posted_app, !app_nil_r.
    split; [done|]. split; [done|]. by intros body _ [=].
Qed.

Lemma first_run_emits_no_event_witness :
  due (Sample.world Sample.three) (loadCache None) ∧
  (refresh Sample.cfg (Sample.world Sample.three) (loadCache None) []).1.1
  = [Log Scanning; WriteFile 1701450000 Sample.three true] ∧
  (refresh Sample.cfg (Sample.world Sample.three) (loadCache None) []).2
  = {| lastRead := 1701450000; lastBody := Sample.three |}.
Proof.
  assert (due (Sample.world Sample.three) (loadCache None)) as Hdue
    by (unfold due; simpl; lia).
  split; [exact Hdue|].
  destruct (first_run_emits_no_event Sample.cfg (Sample.world Sample.three) [])
    as (_ & _ & Hrun).
  exact (Hrun Sample.three Hdue eq_refl).
Defined.

(** C4, as stated, fails: on a first run with a current snapshot of three
    members that already have stars, the cycle posts nothing, not three
    NewMember events. *)
Lemma first_run_with_three_members_posts_nothing :
  buildLeaderboard Sample.three = Some (parsedThree, None) ∧
  length (Members parsedThree) = 3%nat ∧
  posted (refresh Sample.cfg (Sample.world Sample.three) (loadCache None) []).1.1 = [] ∧
  count isNewChallenger
        (posted (refresh Sample.cfg (Sample.world Sample.three) (loadCache None) []).1.1)
  ≠ 3%nat.
Proof.
  split; [by vm_compute|]. split; [by vm_compute|].
  assert (posted (refresh Sample.cfg (Sample.world Sample.three) (loadCache None) []).1.1
          = []) as Hnone by (by vm_compute).
  split; [exact Hnone|]. by rewrite Hnone.
Qed.

(** ** What the differ can post, whatever the snapshots *)

Lemma posts_s_only cfg w lb member dayIdx part partNum :
  posts (s cfg w lb member dayIdx part partNum)
        (fun l _ => Forall (fun c => isCompletion (wrap (dayIdx + 1)) partNum c = true) l).
Proof.
  unfold s.
  eapply posts_bind; [apply posts_orPanic| |by intros l1 [-> _]].
  intros l0 completionTime [-> _].
  eapply posts_bind; [apply posts_orPanic| |by intros l1 [-> _]].
  intros l1 numAhead [-> _].
  eapply posts_bind; [apply posts_orPanic| |by intros l1 [-> _]].
  intros l1 ordinal [-> _].
  eapply posts_bind; [apply posts_sendNotification| |by intros l1 [_ [? ?]]].
  intros l1 err [-> _].
  assert (Forall (fun c => isCompletion (wrap (dayIdx + 1)) partNum c = true)
            [PartCompleted (Name member) (wrap (dayIdx + 1)) partNum
               (wrap (numAhead + 1)) ordinal (yearArg cfg) (leaderboardID cfg)
               completionTime
               (getTotalStars member (if partNum =? 1 then dayIdx else -1))
               (if getTotalStars member (if partNum =? 1 then dayIdx else -1) =? 1
                then "" else "s")]) as Hone.
  { constructor; [|done]. simpl. by rewrite !Z.eqb_refl. }
  destruct err.
  - eapply posts_weaken; [apply posts_log|]. by intros l r [-> _].
  - eapply posts_weaken; [apply posts_ret|]. by intros l r [-> _].
Qed.

(** An event of a day of a member found in [previous] is for a part whose
    record [previous] does not have. *)
Lemma posts_diffPart_only cfg w lb lastMember member dayIdx day partNum :
  0 ≤ dayIdx →
  posts (match partOf day partNum with
         | Some part =>
             do lastDay <- orPanic (index (CompletionDayLevel lastMember) dayIdx);
             if partOf lastDay partNum is None
             then s cfg w lb member dayIdx part partNum else ret tt
         | None => ret tt
         end)
        (fun l _ => Forall (fun c => isCompletion (wrap (dayIdx + 1)) partNum c = true ∧
                                     completionAt lastMember dayIdx partNum = None) l).
Proof.
  intros Hd.
  destruct (partOf day partNum) as [part|];
    [|eapply posts_weaken; [apply posts_ret|]; by intros l r [-> _]].
  eapply posts_bind; [apply posts_orPanic| |by intros l1 [-> _]].
  intros l1 lastDay [-> Hld]. simpl.
  destruct (partOf lastDay partNum) as [lastPart|] eqn:Hlp;
    [eapply posts_weaken; [apply posts_ret|]; by intros l r [-> _]|].
  eapply posts_weaken; [apply posts_s_only|].
  intros l r Hl. eapply Forall_impl; [exact Hl|].
  intros c Hc. split; [done|].
  by rewrite (completionAt_lookup _ _ _ _ (eq_sym Hld)).
Qed.

Lemma posts_diffDay_only cfg w lb lastMember member dayIdx day :
  0 ≤ dayIdx →
  posts (diffDay cfg w lb lastMember member dayIdx day)
        (fun l _ => Forall (fun c => ∃ partNum,
                              (partNum = 1 ∨ partNum = 2) ∧
                              isCompletion (wrap (dayIdx + 1)) partNum c = true ∧
                              completionAt lastMember dayIdx partNum = None) l).
Proof.
  intros Hd. unfold diffDay.
  eapply posts_bind.
  - apply (posts_diffPart_only cfg w lb lastMember member dayIdx day 1 Hd).
  - intros l1 [] Hl1. eapply posts_weaken.
    + apply (posts_diffPart_only cfg w lb lastMember member dayIdx day 2 Hd).
    + intros l2 r Hl2. apply Forall_app. split.
      * eapply Forall_impl; [exact Hl1|]. intros c [? ?]. exists 1. auto.
      * eapply Forall_impl; [exact Hl2|]. intros c [? ?]. exists 2. auto.
  - intros l1 Hl1. eapply Forall_impl; [exact Hl1|]. intros c [? ?]. exists 1. auto.
Qed.

(** Whatever the two leaderboards are, and however the loop ends: a member
    posts a new-challenger notification when [previous] does not list its
    id, and otherwise only completions of parts [previous] does not have. *)
Lemma posts_diffMember_only cfg w lastLeaderboard lb member :
  posts (diffMember cfg w lastLeaderboard lb member)
    (fun l _ =>
       match arrayFind (Members lastLeaderboard) (fun m => ID m =? ID member) with
       | None => l = [NewChallenger (Name member) (yearArg cfg) (leaderboardID cfg)]
       | Some lastMember =>
           Forall (fun c => ∃ dayIdx partNum,
                      0 ≤ dayIdx < Z.of_nat (length (CompletionDayLevel member)) ∧
                      (partNum = 1 ∨ partNum = 2) ∧
                      isCompletion (wrap (dayIdx + 1)) partNum c = true ∧
                      completionAt lastMember dayIdx partNum = None) l
       end).
Proof.
  unfold diffMember.
  destruct (arrayFind _ _) as [lastMember|].
  - apply posts_forRange_only. intros j day Hj.
    pose proof (lookup_lt_Some _ _ _ Hj).
    eapply posts_weaken; [apply posts_diffDay_only; lia|].
    intros l r Hl. eapply Forall_impl; [exact Hl|].
    intros c (partNum & ? & ? & ?). exists (0 + Z.of_nat j), partNum.
    repeat split; try done; lia.
  - eapply posts_bind; [apply posts_sendNotification| |by intros l1 [_ [? ?]]].
    intros l1 err [-> _]. destruct err.
    + eapply posts_weaken; [apply posts_log|]. by intros l r [-> _].
    + eapply posts_weaken; [apply posts_ret|]. by intros l r [-> _].
Qed.

(** Every step of a cycle only appends to the effects. *)
Lemma posts_compare_any cfg w lastBody currBody :
  posts (compare cfg w lastBody currBody) (fun _ _ => True).
Proof.
  unfold compare.
  destruct (String.length lastBody =? 0)%nat;
    [eapply posts_weaken; [apply posts_ret|done]|].
  eapply posts_bind; [apply posts_orPanic| |done].
  intros l1 [lastLeaderboard [lastErr|]] _;
    [eapply posts_weaken; [apply posts_log|done]|].
  eapply posts_bind; [apply posts_orPanic| |done].
  intros l2 [leaderboard [err|]] _;
    [eapply posts_weaken; [apply posts_log|done]|].
  unfold diff.
  eapply posts_weaken;
    [apply (posts_forRange_only _ (fun _ => True))|done].
  intros j member Hj.
  eapply posts_weaken; [apply posts_diffMember_only|].
  intros l r _. by apply Forall_forall.
Qed.

Lemma isCompletion_once day partNum day' partNum' c :
  isCompletion day partNum c = true → isCompletion day' partNum' c = true →
  day = day' ∧ partNum = partNum'.
Proof.
  destruct c; simpl; try done;
    intros [H1 H2]%andb_true_iff [H3 H4]%andb_true_iff;
    apply Z.eqb_eq in H1, H2, H3, H4; split; congruence.
Qed.

(** A part on record for the member in [previous] is not notified. *)
Lemma posts_diffMember_on_record cfg w lastLeaderboard lb member dayIdx partNum :
  0 ≤ dayIdx < 25 →
  length (CompletionDayLevel member) = 25%nat →
  (∀ lastMember,
     arrayFind (Members lastLeaderboard) (fun m => ID m =? ID member) = Some lastMember →
     is_Some (completionAt lastMember dayIdx partNum)) →
  posts (diffMember cfg w lastLeaderboard lb member)
        (fun l _ => Forall (fun c => isCompletion (dayIdx + 1) partNum c = false) l).
Proof.
  intros Hd Hlen Hrec.
  eapply posts_weaken; [apply posts_diffMember_only|].
  intros l r Hl.
  destruct (arrayFind _ _) as [lastMember|]; [|subst l; by constructor].
  eapply Forall_impl; [exact Hl|].
  intros c (i & q & Hi & Hq & Hc & Hnone).
  destruct (isCompletion (dayIdx + 1) partNum c) eqn:Hc'; [|done].
  rewrite wrap_small in Hc by (unfold minInt, maxInt; lia).
  destruct (isCompletion_once _ _ _ _ _ Hc Hc') as [Hday ->].
  assert (i = dayIdx) as -> by lia.
  destruct (Hrec lastMember eq_refl) as [record Hsome]. congruence.
Qed.

Lemma buildLeaderboard_slots body lb member :
  buildLeaderboard body = Some (lb, None) → member ∈ Members lb →
  length (CompletionDayLevel member) = 25%nat.
Proof.
  intros Hbuild Hin. pose proof (buildLeaderboard_cases body) as Hcases.
  destruct (fastjson.ParseBytes body) as [jsonObj|];
    [|destruct Hcases as (? & ? & _); congruence].
  destruct (rejected jsonObj); [destruct Hcases as (? & ? & _); congruence|].
  destruct Hcases as [?|(lb' & Heq & Hall)]; [congruence|].
  assert (lb' = lb) as -> by congruence.
  apply list_elem_of_lookup_1 in Hin as [i Hi].
  by destruct (Forall2_lookup_r _ _ _ _ _ Hall Hi) as (entry & _ & Hlen & _).
Qed.

(** C9. In every cycle whose download succeeds, the downloaded document is
    written to the cache before the cached previous document is parsed:
    the effects of the cycle are the cache write followed by those of the
    comparison, which starts from effects that already hold the write.  So
    when the cached document fails to parse, the write has been done, the
    cycle only logs the error, and it ends with the state a start from the
    new cache would give. *)
Theorem cache_written_before_cached_body_is_parsed cfg w st t body :
  due w st → downloaded w = Some body →
  ∃ out r,
    refresh cfg w st t
    = (t ++ [Log Scanning] ++ saved w body ++ out, r,
       loadCache (Some (nowUnix w, body))) ∧
    compare cfg w (lastBody st) body (t ++ [Log Scanning] ++ saved w body)
    = ((t ++ [Log Scanning] ++ saved w body) ++ out, r) ∧
    (marshalFails w = false →
     saved w body = WriteFile (nowUnix w) body (negb (writeFails w))
                    :: (if writeFails w then [Log SaveFailed] else [])) ∧
    (∀ lb e, buildLeaderboard (lastBody st) = Some (lb, Some e) →
             r = Some tt ∧
             out = if (String.length (lastBody st) =? 0)%nat then []
                   else [Log (CachedBodyError e)]).
Proof.
  intros Hdue Hbody.
  destruct (posts_compare_any cfg w (lastBody st) body
              (t ++ [Log Scanning] ++ saved w body)) as (out & r & Hcompare & _).
  exists out, r. split; [|split; [done|split]].
  - rewrite (refresh_due _ _ _ _ body) by done. rewrite Hcompare.
    by rewrite <- !app_assoc.
  - unfold saved. by intros ->.
  - intros lb e Hfail. revert Hcompare. unfold compare.
    destruct (String.length (lastBody st) =? 0)%nat.
    + unfold ret. intros [= Hout <-]. split; [done|].
      apply (app_inv_head (t ++ [Log Scanning] ++ saved w body)).
      by rewrite app_nil_r.
    + rewrite Hfail. unfold bind, orPanic, emit. intros [= Hout <-]. split; [done|].
      by apply (app_inv_head (t ++ [Log Scanning] ++ saved w body)).
Qed.

Lemma cache_written_before_cached_body_is_parsed_witness :
  due (Sample.world Sample.three) Sample.corrupt ∧
  ∃ out r,
    refresh Sample.cfg (Sample.world Sample.three) Sample.corrupt []
    = ([] ++ [Log Scanning] ++ saved (Sample.world Sample.three) Sample.three ++ out, r,
       loadCache (Some (1701450000, Sample.three))).
Proof.
  assert (due (Sample.world Sample.three) Sample.corrupt) as Hdue
    by (unfold due; simpl; lia).
  split; [exact Hdue|].
  destruct (cache_written_before_cached_body_is_parsed Sample.cfg
              (Sample.world Sample.three) Sample.corrupt [] Sample.three Hdue eq_refl)
    as (out & r & Heq & _).
  by exists out, r.
Defined.

(** ** Cycles in a row *)

(** A property of the previous body that the downloads of the ticks keep
    holds at the start of every later cycle. *)
Lemma daemon_lastBody (P : string → Prop) cfg ticks st t :
  P (lastBody st) →
  (∀ w body, w ∈ ticks → downloaded w = Some body → P body) →
  P (lastBody (daemon cfg ticks st t).2).
Proof.
  revert st t. induction ticks as [|w ticks IH]; intros st t Hst Hticks; [done|].
  simpl.
  assert (P (lastBody (refresh cfg w st t).2)) as Hnext.
  { destruct (refresh_lastBody cfg w st t) as [->|Hd]; [done|].
    eapply Hticks; [left|exact Hd]. }
  destruct (refresh cfg w st t) as [[t' r] st']. simpl in *.
  destruct r; [|done].
  apply IH; [done|]. intros w' body' Hin. apply Hticks. by right.
Qed.

(** C10. In every cycle that is due and whose download succeeds, the
    assignment deferred at line 137 makes the downloaded body the previous
    body, however the cycle ends; when the cached or the downloaded body
    fails to parse the cycle ends without any event.  So a completion that
    the downloaded body and the later downloads have on record is never
    notified afterwards: at the start of every later cycle the previous
    body has it on record, and the member's events of that cycle hold no
    completion for that day and part. *)
Theorem deferred_assignment_replaces_previous_body cfg w st t body :
  due w st → downloaded w = Some body →
  lastBody (refresh cfg w st t).2 = body ∧
  (∀ lb e,
     buildLeaderboard (lastBody st) = Some (lb, Some e) ∨
     (buildLeaderboard (lastBody st) ≠ None ∧
      buildLeaderboard body = Some (lb, Some e)) →
     posted (refresh cfg w st t).1.1 = posted t ∧
     (refresh cfg w st t).1.2 = Some tt) ∧
  (∀ id dayIdx partNum ticks t0,
     0 ≤ dayIdx < 25 →
     onRecord body id dayIdx partNum →
     (∀ w' body', w' ∈ ticks → downloaded w' = Some body' →
                  onRecord body' id dayIdx partNum) →
     let later := (daemon cfg ticks (refresh cfg w st t).2 t0).2 in
     onRecord (lastBody later) id dayIdx partNum ∧
     ∀ w' currBody lastLeaderboard leaderboard member,
       buildLeaderboard (lastBody later) = Some (lastLeaderboard, None) →
       buildLeaderboard currBody = Some (leaderboard, None) →
       member ∈ Members leaderboard → ID member = id →
       posts (diffMember cfg w' lastLeaderboard leaderboard member)
             (fun l _ => Forall (fun c => isCompletion (dayIdx + 1) partNum c = false) l)).
Proof.
  intros Hdue Hbody.
  rewrite (refresh_due _ _ _ _ body) by done. cbn [fst snd].
  split; [done|]. split.
  - intros lb e Hfail.
    assert (posts (compare cfg w (lastBody st) body)
                  (fun l r => l = [] ∧ r = Some tt)) as Hposts.
    { destruct Hfail as [Hlast|[Hlast Hcurr]].
      - by eapply posts_compare_cached_fails.
      - by eapply posts_compare_downloaded_fails. }
    destruct (Hposts (t ++ [Log Scanning] ++ saved w body))
      as (out & r & -> & Hout & ->).
    cbn [fst snd]. split; [|done].
    rewrite !posted_app, Hout, posted_saved. simpl. by rewrite !app_nil_r.
  - intros id dayIdx partNum ticks t0 Hd Hrec Hlater.
    match goal with |- context [daemon cfg ticks ?st' t0] =>
      set (later := (daemon cfg ticks st' t0).2) end.
    assert (onRecord (lastBody later) id dayIdx partNum) as Hinv.
    { unfold later.
      apply (daemon_lastBody (fun b => onRecord b id dayIdx partNum)); done. }
    split; [done|].
    intros w' currBody lastLeaderboard leaderboard member Hlast Hcurr Hin Hid.
    apply posts_diffMember_on_record; [done| |].
    + by eapply buildLeaderboard_slots.
    + intros lastMember Hfind. subst id. by eapply Hinv.
Qed.

Lemma deferred_assignment_replaces_previous_body_witness :
  due (Sample.world Sample.three) Sample.corrupt ∧
  lastBody (refresh Sample.cfg (Sample.world Sample.three) Sample.corrupt []).2
  = Sample.three ∧
  posted (refresh Sample.cfg (Sample.world Sample.three) Sample.corrupt []).1.1 = [].
Proof.
  assert (due (Sample.world Sample.three) Sample.corrupt) as Hdue
    by (unfold due; simpl; lia).
  split; [exact Hdue|].
  destruct (deferred_assignment_replaces_previous_body Sample.cfg
              (Sample.world Sample.three) Sample.corrupt [] Sample.three Hdue eq_refl)
    as (Hlast & Hfail & _).
  split; [exact Hlast|].
  apply (Hfail zeroLeaderboard UnmarshalError). left. by vm_compute.
Defined.

(** ** The scenarios of the specification, run *)

(** A had day 1 part 1; now A has both parts and B is new: one event for
    A's part 2, one new-member event for B, nothing for A's part 1 and no
    completion event for B. *)
Example scenario_part2_and_new_member :
  posted (refresh Sample.cfg (Sample.world Sample.after)
                  {| lastRead := 1701440000; lastBody := Sample.before |} []).1.1
  = [PartCompleted "A" 1 2 1 "st" "2023" "1234567" 200 2 "s";
     NewChallenger "B" "2023" "1234567"].
Proof. by vm_compute. Qed.

(** The same document twice: nothing. *)
Example scenario_no_change :
  posted (refresh Sample.cfg (Sample.world Sample.after)
                  {| lastRead := 1701440000; lastBody := Sample.after |} []).1.1
  = [].
Proof. by vm_compute. Qed.

(** A day key outside 1..25 makes the parser panic. *)
Example day_key_out_of_range_panics :
  buildLeaderboard
    (Sample.jsonText "{'members':{'7':{'id':7,'completion_day_level':{'26':{}}}}}")
  = None.
Proof. by vm_compute. Qed.

(** Less than 14 minutes after the last read, the cycle does nothing. *)
Example too_soon_does_nothing :
  refresh Sample.cfg (Sample.world Sample.after)
          {| lastRead := 1701449900; lastBody := Sample.before |} []
  = ([Log Scanning; Log TooSoon], Some tt,
     {| lastRead := 1701449900; lastBody := Sample.before |}).
Proof. by vm_compute. Qed.

(** * Further properties of the code *)

(** ** getCompletionRank: order of the members, failure, time order *)

Lemma rankStep_comm inMember dayIdx partNum T m1 m2 numAhead :
  rankStep inMember dayIdx partNum T m1 numAhead
    ≫= rankStep inMember dayIdx partNum T m2
  = rankStep inMember dayIdx partNum T m2 numAhead
      ≫= rankStep inMember dayIdx partNum T m1.
Proof.
  unfold rankStep.
  destruct (ID m1 =? ID inMember), (ID m2 =? ID inMember); simpl; try done.
  - destruct (index (CompletionDayLevel m2) dayIdx) as [day2|]; simpl; [|done].
    destruct (partOf day2 partNum) as [part2|]; [|done].
    by destruct (GotStarAt part2 <? T).
  - destruct (index (CompletionDayLevel m1) dayIdx) as [day1|]; simpl; [|done].
    destruct (partOf day1 partNum) as [part1|]; simpl; [|done].
    by destruct (GotStarAt part1 <? T).
  - destruct (index (CompletionDayLevel m1) dayIdx) as [day1|],
             (index (CompletionDayLevel m2) dayIdx) as [day2|]; simpl; try done.
    + destruct (partOf day1 partNum) as [part1|], (partOf day2 partNum) as [part2|];
        simpl; try done.
      * destruct (GotStarAt part1 <? T), (GotStarAt part2 <? T); simpl;
          rewrite ?Hd1, ?Hd2; simpl; try done.
      * by destruct (GotStarAt part1 <? T).
      * by destruct (GotStarAt part2 <? T).
    + destruct (partOf day1 partNum) as [part1|]; [|done].
      by destruct (GotStarAt part1 <? T).
    + destruct (partOf day2 partNum) as [part2|]; [|done].
      by destruct (GotStarAt part2 <? T).
Qed.

Lemma rankLoop_Permutation inMember dayIdx partNum T members members' :
  members ≡ₚ members' →
  ∀ numAhead, rankLoop inMember dayIdx partNum T members numAhead
              = rankLoop inMember dayIdx partNum T members' numAhead.
Proof.
  induction 1 as [|m l l' Hperm IH|m1 m2 l|l l' l'' H1 IH1 H2 IH2]; intros numAhead.
  - done.
  - simpl. destruct (rankStep inMember dayIdx partNum T m numAhead); simpl; [apply IH|done].
  - simpl.
    pose proof (rankStep_comm inMember dayIdx partNum T m1 m2 numAhead) as Hc.
    destruct (rankStep inMember dayIdx partNum T m1 numAhead) as [n1|],
             (rankStep inMember dayIdx partNum T m2 numAhead) as [n2|];
      simpl in *.
    + destruct (rankStep inMember dayIdx partNum T m2 n1),
               (rankStep inMember dayIdx partNum T m1 n2); simpl in *; congruence.
    + destruct (rankStep inMember dayIdx partNum T m2 n1); [done|done].
    + destruct (rankStep inMember dayIdx partNum T m1 n2); [done|done].
    + done.
  - by rewrite IH1, IH2.
Qed.

(** X1. The rank does not depend on the order of the members: two
    leaderboards that list the same members in a different order give
    the same result, a panic included. *)
Theorem getCompletionRank_order_of_members lb lb' inMember dayIdx partNum :
  Members lb ≡ₚ Members lb' →
  getCompletionRank lb inMember dayIdx partNum
  = getCompletionRank lb' inMember dayIdx partNum.
Proof.
  intros Hperm. unfold getCompletionRank.
  destruct (index (CompletionDayLevel inMember) dayIdx) as [day|]; simpl; [|done].
  destruct (Part1 day) as [part1|]; simpl; [|done].
  destruct (if partNum =? 1 then Some (GotStarAt part1)
            else Part2 day ≫= λ part2, Some (GotStarAt part2)) as [T|]; simpl; [|done].
  by apply rankLoop_Permutation.
Qed.

Lemma getCompletionRank_order_of_members_witness :
  Members Sample.day5 ≡ₚ Members (Sample.board [Sample.cat; Sample.bob; Sample.ann]) ∧
  getCompletionRank (Sample.board [Sample.cat; Sample.bob; Sample.ann]) Sample.bob 4 1
  = Some 1.
Proof.
  assert (Members Sample.day5
          ≡ₚ Members (Sample.board [Sample.cat; Sample.bob; Sample.ann])) as Hperm.
  { apply (bool_decide_unpack _). by vm_compute. }
  split; [exact Hperm|].
  by rewrite <- (getCompletionRank_order_of_members Sample.day5 _ Sample.bob 4 1 Hperm).
Defined.

Lemma rankStep_is_Some inMember dayIdx partNum T member numAhead :
  is_Some (rankStep inMember dayIdx partNum T member numAhead) ↔
  (ID member ≠ ID inMember → is_Some (index (CompletionDayLevel member) dayIdx)).
Proof.
  unfold rankStep. destruct (Z.eqb_spec (ID member) (ID inMember)) as [Heq|Hne].
  - split; [done|]. by eexists.
  - destruct (index (CompletionDayLevel member) dayIdx) as [day|]; simpl.
    + split; [by eexists|]. intros _.
      destruct (partOf day partNum) as [part|]; [|by eexists].
      destruct (GotStarAt part <? T); by eexists.
    + split; [by intros [? ?]|]. intros H. by destruct (H Hne).
Qed.

Lemma rankLoop_is_Some inMember dayIdx partNum T members numAhead :
  is_Some (rankLoop inMember dayIdx partNum T members numAhead) ↔
  ∀ m, m ∈ members → ID m ≠ ID inMember →
       is_Some (index (CompletionDayLevel m) dayIdx).
Proof.
  revert numAhead. induction members as [|m members IH]; intros numAhead; simpl.
  - split; [|by eexists]. intros _ m Hm. by apply elem_of_nil in Hm.
  - pose proof (rankStep_is_Some inMember dayIdx partNum T m numAhead) as Hstep.
    destruct (rankStep inMember dayIdx partNum T m numAhead) as [n|]; simpl.
    + rewrite IH. split.
      * intros Hrest m' [->|Hm']%elem_of_cons; [|by apply Hrest].
        apply Hstep. by eexists.
      * intros Hall m' Hm'. apply Hall. by right.
    + split; [by intros [? ?]|]. intros Hall.
      apply Hstep. apply Hall. left.
Qed.

(** X2. [getCompletionRank] returns a count exactly when the subject has
    the slot of the day, a Part1 in it (also when part 2 is asked for), a
    Part2 in it when the part is not 1, and every member with another id
    has the slot of the day; in every other case it panics. *)
Theorem getCompletionRank_returns_iff lb inMember dayIdx partNum :
  is_Some (getCompletionRank lb inMember dayIdx partNum) ↔
  ∃ day, index (CompletionDayLevel inMember) dayIdx = Some day ∧
         is_Some (Part1 day) ∧
         (partNum ≠ 1 → is_Some (Part2 day)) ∧
         ∀ m, m ∈ Members lb → ID m ≠ ID inMember →
              is_Some (index (CompletionDayLevel m) dayIdx).
Proof.
  unfold getCompletionRank.
  destruct (index (CompletionDayLevel inMember) dayIdx) as [day|]; simpl.
  2:{ split; [by intros [? ?]|]. by intros (day & ? & _). }
  destruct (Part1 day) as [part1|] eqn:Hp1; simpl.
  2:{ split; [by intros [? ?]|]. intros (day' & [= <-] & [? Hs] & _). congruence. }
  destruct (Z.eqb_spec partNum 1) as [->|Hne]; simpl.
  - rewrite rankLoop_is_Some. split.
    + intros Hall. exists day. repeat split; try done; by eexists.
    + by intros (day' & _ & _ & _ & Hall).
  - destruct (Part2 day) as [part2|] eqn:Hp2; simpl.
    + rewrite rankLoop_is_Some. split.
      * intros Hall. exists day. repeat split; try done; by eexists.
      * by intros (day' & _ & _ & _ & Hall).
    + split; [by intros [? ?]|].
      intros (day' & [= <-] & _ & H2 & _). destruct (H2 Hne) as [? Hs]. congruence.
Qed.

Lemma filter_length_mono {A : Type} (f g : A → bool) (l : list A) :
  (∀ x, x ∈ l → f x = true → g x = true) →
  (length (List.filter f l) ≤ length (List.filter g l))%nat.
Proof.
  induction l as [|x l IH]; intros Hfg; simpl; [done|].
  assert (length (List.filter f l) ≤ length (List.filter g l))%nat as Hrest
    by (apply IH; intros y Hy; apply Hfg; by right).
  destruct (f x) eqn:Hf.
  - rewrite (Hfg x) by (done || left). simpl. lia.
  - destruct (g x); simpl; lia.
Qed.

Lemma filter_length_more {A : Type} (f g : A → bool) (l : list A) (a : A) :
  (∀ x, x ∈ l → f x = true → g x = true) →
  a ∈ l → f a = false → g a = true →
  (length (List.filter f l) < length (List.filter g l))%nat.
Proof.
  intros Hfg Ha Hfa Hga.
  induction l as [|x l IH]; [by apply elem_of_nil in Ha|]. simpl.
  assert (length (List.filter f l) ≤ length (List.filter g l))%nat as Hrest
    by (apply filter_length_mono; intros y Hy; apply Hfg; by right).
  apply elem_of_cons in Ha as [<-|Ha].
  - rewrite Hfa, Hga. simpl. lia.
  - assert (length (List.filter f l) < length (List.filter g l))%nat as Hlt
      by (apply IH; [intros y Hy; apply Hfg; by right|done]).
    destruct (f x) eqn:Hf.
    + rewrite (Hfg x) by (done || left). simpl. lia.
    + destruct (g x); simpl; lia.
Qed.

Lemma snapshot_id_inj lb a b :
  Snapshot lb → a ∈ Members lb → b ∈ Members lb → ID a = ID b → a = b.
Proof.
  intros Hsnap Ha Hb Heq.
  apply list_elem_of_lookup_1 in Ha as [i Hi], Hb as [j Hj].
  assert (i = j) as ->; [|congruence].
  eapply NoDup_lookup; [exact (snapshot_ids lb Hsnap)| |]; rewrite list_lookup_fmap.
  - by rewrite Hi.
  - rewrite Hj. simpl. by rewrite Heq.
Qed.

(** Who finished before [a] finished before anyone who was not faster
    than [a]. *)
Lemma finishedEarlier_mono lb a b dayIdx partNum ra rb m :
  Snapshot lb → b ∈ Members lb → m ∈ Members lb →
  completionAt b dayIdx partNum = Some rb →
  GotStarAt ra ≤ GotStarAt rb →
  finishedEarlier a dayIdx partNum (GotStarAt ra) m = true →
  finishedEarlier b dayIdx partNum (GotStarAt rb) m = true.
Proof.
  intros Hsnap Hb Hm Hrb Hle. unfold finishedEarlier.
  intros [Hid Hts]%andb_true_iff.
  destruct (completionAt m dayIdx partNum) as [rm|] eqn:Hrm; [|done].
  apply Z.ltb_lt in Hts.
  apply andb_true_iff. split; [|apply Z.ltb_lt; lia].
  apply negb_true_iff, Z.eqb_neq. intros Heq.
  assert (m = b) as -> by (by eapply snapshot_id_inj).
  assert (rm = rb) as -> by congruence. lia.
Qed.

(** X3. On a snapshot the ranks of two members who completed the same
    part of the same day follow their timestamps: the earlier one gets
    the strictly smaller rank, and equal timestamps get the same rank. *)
Theorem rank_follows_completion_time lb a b dayIdx partNum ra rb :
  Snapshot lb →
  a ∈ Members lb → b ∈ Members lb →
  0 ≤ dayIdx < 25 → partNum = 1 ∨ partNum = 2 →
  completionAt a dayIdx partNum = Some ra →
  completionAt b dayIdx partNum = Some rb →
  ∃ x y, rankReported lb a dayIdx partNum = Some x ∧
         rankReported lb b dayIdx partNum = Some y ∧
         (GotStarAt ra < GotStarAt rb → x < y) ∧
         (GotStarAt ra = GotStarAt rb → x = y).
Proof.
  intros Hsnap Ha Hb Hd Hp Hra Hrb.
  destruct (getCompletionRank_numEarlier lb a dayIdx partNum ra) as [Hranka Hbounda];
    try done.
  destruct (getCompletionRank_numEarlier lb b dayIdx partNum rb) as [Hrankb Hboundb];
    try done.
  exists (numEarlier lb a dayIdx partNum (GotStarAt ra) + 1),
         (numEarlier lb b dayIdx partNum (GotStarAt rb) + 1).
  unfold rankReported. rewrite Hranka, Hrankb. simpl.
  rewrite !wrap_small by (unfold minInt, maxInt in *; lia).
  split; [done|]. split; [done|]. unfold numEarlier. split.
  - intros Hlt.
    assert (length (List.filter (finishedEarlier a dayIdx partNum (GotStarAt ra))
                                (Members lb))
            < length (List.filter (finishedEarlier b dayIdx partNum (GotStarAt rb))
                                  (Members lb)))%nat; [|lia].
    apply (filter_length_more _ _ _ a); try done.
    + intros m Hm. eapply finishedEarlier_mono; try done. lia.
    + apply finishedEarlier_self.
    + unfold finishedEarlier. rewrite Hra.
      apply andb_true_iff. split; [|by apply Z.ltb_lt].
      apply negb_true_iff, Z.eqb_neq. intros Heq.
      assert (a = b) as -> by (by eapply snapshot_id_inj).
      assert (ra = rb) as -> by congruence. lia.
  - intros Heq.
    assert (length (List.filter (finishedEarlier a dayIdx partNum (GotStarAt ra))
                                (Members lb))
            ≤ length (List.filter (finishedEarlier b dayIdx partNum (GotStarAt rb))
                                  (Members lb)))%nat
      by (apply filter_length_mono; intros m Hm;
          eapply finishedEarlier_mono; try done; lia).
    assert (length (List.filter (finishedEarlier b dayIdx partNum (GotStarAt rb))
                                (Members lb))
            ≤ length (List.filter (finishedEarlier a dayIdx partNum (GotStarAt ra))
                                  (Members lb)))%nat
      by (apply filter_length_mono; intros m Hm;
          eapply finishedEarlier_mono; try done; lia).
    lia.
Qed.

Lemma rank_follows_completion_time_witness :
  Snapshot Sample.day5 ∧
  ∃ x y, rankReported Sample.day5 Sample.ann 4 1 = Some x ∧
         rankReported Sample.day5 Sample.bob 4 1 = Some y ∧ x < y.
Proof.
  assert (Snapshot Sample.day5) as Hsnap by (by apply checkSnapshot_sound).
  split; [exact Hsnap|].
  destruct (rank_follows_completion_time Sample.day5 Sample.ann Sample.bob 4 1
              {| GotStarAt := 1000; StarIndex := 0 |}
              {| GotStarAt := 1010; StarIndex := 0 |} Hsnap)
    as (x & y & Hx & Hy & Hlt & _).
  - left.
  - right; left.
  - lia.
  - by left.
  - reflexivity.
  - reflexivity.
  - exists x, y. split; [exact Hx|]. split; [exact Hy|]. apply Hlt. simpl. lia.
Defined.

(** X4. On a snapshot the rank reported for a completed part lies between
    1 and the number of members. *)
Theorem rank_within_number_of_members lb subject dayIdx partNum record :
  Snapshot lb →
  subject ∈ Members lb →
  0 ≤ dayIdx < 25 → partNum = 1 ∨ partNum = 2 →
  completionAt subject dayIdx partNum = Some record →
  ∃ rank, rankReported lb subject dayIdx partNum = Some rank ∧
          1 ≤ rank ≤ Z.of_nat (length (Members lb)).
Proof.
  intros Hsnap Hin Hd Hp Hrec.
  destruct (getCompletionRank_numEarlier lb subject dayIdx partNum record)
    as [Hrank Hbound]; try done.
  exists (numEarlier lb subject dayIdx partNum (GotStarAt record) + 1).
  unfold rankReported. rewrite Hrank. simpl.
  rewrite wrap_small by (unfold minInt, maxInt in *; lia).
  split; [done|]. unfold numEarlier.
  pose proof (filter_length_lt
                (finishedEarlier subject dayIdx partNum (GotStarAt record))
                (Members lb) subject Hin (finishedEarlier_self _ _ _ _)).
  lia.
Qed.

Lemma rank_within_number_of_members_witness :
  Snapshot Sample.day5 ∧
  ∃ rank, rankReported Sample.day5 Sample.bob 4 1 = Some rank ∧ 1 ≤ rank ≤ 3.
Proof.
  assert (Snapshot Sample.day5) as Hsnap by (by apply checkSnapshot_sound).
  split; [exact Hsnap|].
  apply (rank_within_number_of_members Sample.day5 Sample.bob 4 1
           {| GotStarAt := 1010; StarIndex := 0 |} Hsnap).
  - right; left.
  - lia.
  - by left.
  - reflexivity.
Defined.

(** ** getOrdinal outside the positive numbers *)

Lemma getOrdinal_rem n : getOrdinal n = getOrdinal (Z.rem n 100).
Proof. unfold getOrdinal. by rewrite Z.rem_rem by lia. Qed.

Lemma getOrdinal_remainders :
  Forall (fun v => bool_decide (getOrdinal v = None) = bool_decide (v < 0))
         (seqZ (-99) 199).
Proof. apply (bool_decide_unpack _). by vm_compute. Qed.

(** X5. [getOrdinal] panics exactly on the numbers whose remainder by 100
    is negative, that is on the negative numbers that are not multiples
    of 100 (the index [ordinals[v]] is then negative); on every other
    number it returns one of the four suffixes. *)
Theorem getOrdinal_panics_iff n :
  (getOrdinal n = None ↔ Z.rem n 100 < 0) ∧
  (getOrdinal n = None ↔ n < 0 ∧ Z.rem n 100 ≠ 0) ∧
  (∀ suffix, getOrdinal n = Some suffix → suffix ∈ ordinals).
Proof.
  assert (getOrdinal n = None ↔ Z.rem n 100 < 0) as Hpanic.
  { rewrite getOrdinal_rem.
    assert (Z.rem n 100 ∈ seqZ (-99) 199) as Hin.
    { apply elem_of_seqZ. pose proof (Z.rem_bound_abs n 100 ltac:(lia)). lia. }
    pose proof (proj1 (Forall_forall _ _) getOrdinal_remainders _ Hin) as Hv.
    simpl in Hv. split; intros H.
    - rewrite bool_decide_true in Hv by done.
      symmetry in Hv. by apply bool_decide_eq_true in Hv.
    - rewrite (bool_decide_true (_ < _)) in Hv by done.
      by apply bool_decide_eq_true in Hv. }
  split; [done|]. split.
  - rewrite Hpanic. split.
    + intros Hneg. split; [|lia].
      destruct (Z.lt_ge_cases n 0) as [?|Hpos]; [done|].
      pose proof (Z.rem_nonneg n 100 ltac:(lia) Hpos). lia.
    + intros [Hneg Hne].
      pose proof (Z.rem_nonpos n 100 ltac:(lia) ltac:(lia)). lia.
  - intros suffix. unfold getOrdinal.
    repeat case_match; intros Hs; by eapply index_elem_of.
Qed.

(** ** getTotalStars, in both files *)

Lemma Old_totalStarsLoop_no_skip skip dayIdx days total :
  skip < dayIdx →
  totalStarsLoop skip dayIdx days total = Old.totalStarsLoop days total.
Proof.
  revert dayIdx total. induction days as [|day days IH]; intros dayIdx total Hlt; [done|].
  simpl. rewrite IH by lia. f_equal.
  unfold totalStarsStep, Old.totalStarsStep.
  destruct (Z.eqb_spec skip dayIdx); [lia|done].
Qed.

(** X6. [getTotalStars] counts the populated Part1 and Part2 records of
    the table and leaves out the Part2 of the day at [skipPart2OfDay] when
    that day has one; so it is at most one below the count without a skip,
    never negative, at most twice the number of slots, and without a skip
    ([-1]) it is the one-argument [getTotalStars] of the older main. *)
Theorem getTotalStars_counts_populated member skipPart2OfDay :
  2 * Z.of_nat (length (CompletionDayLevel member)) ≤ maxInt →
  getTotalStars member skipPart2OfDay
  = populated (CompletionDayLevel member)
    - (if bool_decide (is_Some (completionAt member skipPart2OfDay 2)) then 1 else 0) ∧
  getTotalStars member (-1) = populated (CompletionDayLevel member) ∧
  Old.getTotalStars member = getTotalStars member (-1) ∧
  0 ≤ getTotalStars member skipPart2OfDay
    ≤ 2 * Z.of_nat (length (CompletionDayLevel member)).
Proof.
  intros Hlen.
  assert (∀ skip, getTotalStars member skip
                  = populated (CompletionDayLevel member)
                    - (if bool_decide (is_Some (completionAt member skip 2))
                       then 1 else 0)) as Hcount.
  { intros skip. unfold getTotalStars.
    rewrite totalStarsLoop_counts by lia.
    rewrite Z.sub_0_r, Z.add_0_l. f_equal.
    unfold skipped, completionAt.
    destruct (index (CompletionDayLevel member) skip) as [day|]; simpl; [|done].
    unfold partOf, part2Star. simpl. by destruct (Part2 day). }
  split; [apply Hcount|].
  split; [rewrite Hcount; unfold completionAt, index; simpl; lia|].
  split; [unfold Old.getTotalStars, getTotalStars;
          by rewrite Old_totalStarsLoop_no_skip by lia|].
  rewrite Hcount.
  assert (∀ days, 0 ≤ populated days ≤ 2 * Z.of_nat (length days)) as Hbounds.
  { induction days as [|day days IH]; [by vm_compute|].
    rewrite populated_cons. unfold part1Star, part2Star. simpl length.
    destruct (Part1 day), (Part2 day); lia. }
  pose proof (Hbounds (CompletionDayLevel member)).
  case_bool_decide as Hskip; [|lia].
  enough (1 ≤ populated (CompletionDayLevel member)) by lia.
  destruct Hskip as [part Hpart]. unfold completionAt in Hpart.
  destruct (index (CompletionDayLevel member) skipPart2OfDay) as [day|] eqn:Hd; [|done].
  simpl in Hpart. unfold partOf in Hpart. simpl in Hpart.
  apply index_elem_of in Hd.
  revert Hd. generalize (CompletionDayLevel member). intros days Hd.
  induction days as [|day' days IH]; [by apply elem_of_nil in Hd|].
  rewrite populated_cons. pose proof (Hbounds days).
  apply elem_of_cons in Hd as [<-|Hd].
  - unfold part1Star, part2Star. rewrite Hpart. destruct (Part1 day); lia.
  - specialize (IH Hd). unfold part1Star, part2Star.
    destruct (Part1 day'), (Part2 day'); lia.
Qed.

Lemma getTotalStars_counts_populated_witness :
  2 * Z.of_nat (length (CompletionDayLevel Sample.A2)) ≤ maxInt ∧
  getTotalStars Sample.A2 1 = 2 ∧ Old.getTotalStars Sample.A2 = 3.
Proof.
  assert (2 * Z.of_nat (length (CompletionDayLevel Sample.A2)) ≤ maxInt) as Hlen
    by (by vm_compute).
  split; [exact Hlen|].
  destruct (getTotalStars_counts_populated Sample.A2 1 Hlen) as (H1 & _ & _ & _).
  destruct (getTotalStars_counts_populated Sample.A2 (-1) Hlen) as (_ & H2 & H3 & _).
  split; [by rewrite H1|]. by rewrite H3, H2.
Defined.

(** ** arrayFind and arrayContains *)

(** X7. [arrayFind] returns the first element that satisfies the
    predicate, nil exactly when no element does, and [arrayContains] tells
    whether [arrayFind] finds one. *)
Theorem arrayFind_finds_first_match {T : Type} (array : list T) (pred : T → bool) :
  (∀ x, arrayFind array pred = Some x ↔
        ∃ before after, array = before ++ x :: after ∧ pred x = true ∧
                        ∀ y, y ∈ before → pred y = false) ∧
  (arrayFind array pred = None ↔ ∀ x, x ∈ array → pred x = false) ∧
  arrayContains array pred = bool_decide (is_Some (arrayFind array pred)).
Proof.
  split; [|split; [apply arrayFind_None|]].
  - induction array as [|v rest IH]; intros x; simpl.
    + split; [done|]. intros (before & after & Heq & _). by destruct before.
    + destruct (pred v) eqn:Hv.
      * split.
        -- intros [= ->]. exists [], rest. split; [done|]. split; [done|].
           intros y Hy. by apply elem_of_nil in Hy.
        -- intros ([|b before] & after & Heq & Hx & Hbefore); simpl in Heq.
           ++ by injection Heq as ->.
           ++ injection Heq as -> _. rewrite Hbefore in Hv by left. done.
      * rewrite IH. split.
        -- intros (before & after & -> & Hx & Hbefore).
           exists (v :: before), after. split; [done|]. split; [done|].
           intros y [->|Hy]%elem_of_cons; [done|by apply Hbefore].
        -- intros ([|b before] & after & Heq & Hx & Hbefore); simpl in Heq.
           ++ injection Heq as -> _. congruence.
           ++ injection Heq as -> ->. exists before, after.
              split; [done|]. split; [done|].
              intros y Hy. apply Hbefore. by right.
  - induction array as [|v rest IH]; simpl; [done|].
    destruct (pred v); [|done].
    by rewrite bool_decide_true by (by eexists).
Qed.

(** ** buildLeaderboard: when it panics *)

(** A [Visit] whose callback keeps an invariant panics exactly when the
    callback panics on one of the entries. *)
Lemma Visit_None {S : Type} (f : S → string → fastjson.Value → option S)
    (I : S → Prop) (bad : string → fastjson.Value → Prop) entries st :
  (∀ st key v, I st → (f st key v = None ↔ bad key v)) →
  (∀ st key v st', I st → f st key v = Some st' → I st') →
  I st →
  (Visit f entries st = None ↔ ∃ key v, (key, v) ∈ entries ∧ bad key v).
Proof.
  intros Hbad Hkeep. revert st.
  induction entries as [|[key v] entries IH]; intros st Hst; simpl.
  - split; [done|]. by intros (? & ? & ?%elem_of_nil & _).
  - destruct (f st key v) as [st'|] eqn:Hf; simpl.
    + rewrite IH by (by eapply Hkeep). split.
      * intros (k & x & Hin & Hb). exists k, x. split; [by right|done].
      * intros (k & x & [[= -> ->]|Hin]%elem_of_cons & Hb); [|by exists k, x].
        apply (Hbad st key v Hst) in Hb. congruence.
    + split; [|done]. intros _. exists key, v. split; [left|].
      by apply (Hbad st key v Hst).
Qed.

Lemma slot_in_table key :
  0 ≤ wrap (strconv.Atoi key - 1) < 25 ↔ 1 ≤ strconv.Atoi key ≤ 25.
Proof.
  pose proof (Atoi_range key) as Hr.
  destruct (decide (strconv.Atoi key = minInt)) as [->|Hne].
  - assert (wrap (minInt - 1) = maxInt) as -> by (by vm_compute).
    unfold minInt, maxInt. lia.
  - rewrite wrap_small by (unfold minInt, maxInt in *; lia). lia.
Qed.

Lemma Visit_visitPart_returns entries day :
  is_Some (Visit visitPart entries day).
Proof.
  revert day. induction entries as [|[key v] entries IH]; intros day; simpl;
    [by eexists|].
  unfold visitPart. destruct (String.eqb key "1"); simpl; apply IH.
Qed.

Lemma visitDay_None member completionKey completionDay :
  length (CompletionDayLevel member) = 25%nat →
  (visitDay member completionKey completionDay = None ↔
   ¬ 1 ≤ strconv.Atoi completionKey ≤ 25).
Proof.
  intros Hlen. unfold visitDay.
  destruct (Visit_visitPart_returns (fastjson.entries completionDay) emptyDay)
    as [memberCompletionObj ->]. simpl.
  rewrite <- slot_in_table. unfold setIndex.
  destruct (Z.ltb_spec (wrap (strconv.Atoi completionKey - 1)) 0); simpl;
    [split; [lia|done]|].
  destruct (Nat.ltb_spec (Z.to_nat (wrap (strconv.Atoi completionKey - 1)))
                         (length (CompletionDayLevel member))); simpl.
  - split; [done|]. lia.
  - split; [lia|done].
Qed.

Lemma Visit_visitDay_None entries member :
  length (CompletionDayLevel member) = 25%nat →
  (Visit visitDay entries member = None ↔
   ∃ key v, (key, v) ∈ entries ∧ ¬ 1 ≤ strconv.Atoi key ≤ 25).
Proof.
  intros Hlen.
  apply (Visit_None visitDay (fun m => length (CompletionDayLevel m) = 25%nat)
                    (fun k _ => ¬ 1 ≤ strconv.Atoi k ≤ 25)); [| |done].
  - intros m k v Hm. by apply visitDay_None.
  - intros m k v m' Hm Hstep. apply visitDay_slots in Hstep as [Hl _]. congruence.
Qed.

Lemma visitMember_None leaderboard key memberVal :
  visitMember leaderboard key memberVal = None ↔
  ∃ day, day ∈ daysPresent memberVal ∧ ¬ 1 ≤ day ≤ 25.
Proof.
  unfold visitMember.
  match goal with |- context [Visit visitDay ?entries ?member] =>
    pose proof (Visit_visitDay_None entries member eq_refl) as Hvisit;
    destruct (Visit visitDay entries member) as [member'|] eqn:Hv
  end; simpl.
  - split; [done|]. intros (day & Hin & Hbad).
    unfold daysPresent in Hin. apply list_elem_of_fmap in Hin as ([k v] & -> & Hin).
    assert (Some member' = None) as Hcontra; [|done].
    apply Hvisit. by exists k, v.
  - split; [|done]. intros _.
    destruct (proj1 Hvisit eq_refl) as (k & v & Hin & Hbad).
    exists (strconv.Atoi k). split; [|done].
    unfold daysPresent. apply list_elem_of_fmap. by exists (k, v).
Qed.

(** X8. [buildLeaderboard] panics exactly when the body is one
    [json.Unmarshal] accepts and some member of it has a key in
    [completion_day_level] whose number, as [strconv.Atoi] reads it, is
    not a day from 1 to 25 (a day 0 or 26, or a key that is no number):
    the slot assignment of line 355 is then out of range. *)
Theorem buildLeaderboard_panics_iff body :
  buildLeaderboard body = None ↔
  ∃ jsonObj key memberVal day,
    fastjson.ParseBytes body = Some jsonObj ∧ rejected jsonObj = false ∧
    (key, memberVal) ∈ fastjson.GetObject jsonObj "members" ∧
    day ∈ daysPresent memberVal ∧ ¬ 1 ≤ day ≤ 25.
Proof.
  unfold buildLeaderboard, buildLeaderboardWith.
  pose proof (Unmarshal_leaderboard body) as [_ Herr].
  destruct (json.Unmarshal json.leaderboardField body zeroLeaderboard)
    as [leaderboard marshalErr]. simpl in Herr. subst marshalErr.
  destruct (fastjson.ParseBytes body) as [jsonObj|].
  2:{ split; [done|]. by intros (? & ? & ? & ? & ? & _). }
  destruct (rejected jsonObj) eqn:Hrej.
  { split; [done|]. intros (? & ? & ? & ? & [= <-] & ? & _). congruence. }
  pose proof (Visit_None visitMember (fun _ => True)
                (fun _ memberVal => ∃ day, day ∈ daysPresent memberVal ∧ ¬ 1 ≤ day ≤ 25)
                (fastjson.GetObject jsonObj "members") leaderboard) as Hvisit.
  destruct (Visit visitMember _ leaderboard) as [lb|] eqn:Hv; simpl.
  - split; [done|].
    intros (jsonObj' & key & memberVal & day & [= <-] & _ & Hin & Hday & Hbad).
    assert (Some lb = None) as Hcontra; [|done].
    apply Hvisit; try done.
    + intros st k v _. apply visitMember_None.
    + exists key, memberVal. split; [done|]. by exists day.
  - split; [|done]. intros _.
    destruct Hvisit as [Hsome _]; try done.
    + intros st k v _. apply visitMember_None.
    + destruct (Hsome eq_refl) as (key & memberVal & Hin & day & Hday & Hbad).
      by exists jsonObj, key, memberVal, day.
Qed.

(** ** buildLeaderboard: what the completion table holds *)

Lemma visitPart_parts day key v :
  ∃ day', visitPart day key v = Some day' ∧
          (is_Some (Part1 day') ↔ is_Some (Part1 day) ∨ key = "1") ∧
          (is_Some (Part2 day') ↔ is_Some (Part2 day) ∨ key ≠ "1").
Proof.
  unfold visitPart. destruct (String.eqb_spec key "1") as [->|Hne].
  - eexists. split; [done|]. simpl. split.
    + split; [by right|]. intros _. by eexists.
    + split; [by left|]. by intros [?|?].
  - eexists. split; [done|]. simpl. split.
    + split; [by left|]. by intros [?|?].
    + split; [by right|]. intros _. by eexists.
Qed.

Lemma Visit_visitPart_parts entries init :
  ∃ day, Visit visitPart entries init = Some day ∧
         (is_Some (Part1 day) ↔ is_Some (Part1 init) ∨ "1" ∈ entries.*1) ∧
         (is_Some (Part2 day) ↔
          is_Some (Part2 init) ∨ ∃ key, key ∈ entries.*1 ∧ key ≠ "1").
Proof.
  revert init. induction entries as [|[key v] entries IH]; intros init.
  - exists init. split; [done|]. split.
    + split; [by left|]. by intros [?|?%elem_of_nil].
    + split; [by left|]. by intros [?|(? & ?%elem_of_nil & _)].
  - destruct (visitPart_parts init key v) as (day1 & Hstep & Hs1 & Hs2).
    destruct (IH day1) as (day & Hrest & H1 & H2).
    exists day. split; [simpl; by rewrite Hstep|].
    rewrite fmap_cons. simpl. split.
    + rewrite H1, Hs1. split.
      * intros [[?| ->]|Hin]; [by left|right; left|right; by right].
      * intros [?|[ <- |Hin]%elem_of_cons]; [left; by left|left; by right|by right].
    + rewrite H2, Hs2. split.
      * intros [[?|Hne]|(k & Hk & Hne)]; [by left| |].
        -- right. exists key. split; [left|done].
        -- right. exists k. split; [by right|done].
      * intros [?|(k & [->|Hk]%elem_of_cons & Hne)];
          [left; by left|left; by right|right; by exists k].
Qed.

Lemma visitDay_slot member completionKey completionDay member' :
  visitDay member completionKey completionDay = Some member' →
  ∀ day, 1 ≤ day ≤ 25 →
    index (CompletionDayLevel member') (day - 1)
    = if strconv.Atoi completionKey =? day then Some (dayOf completionDay)
      else index (CompletionDayLevel member) (day - 1).
Proof.
  intros Hv day Hday.
  destruct (Z.eqb_spec (strconv.Atoi completionKey) day) as [Heq|Hne].
  2:{ by apply (proj2 (visitDay_slots _ _ _ _ Hv)). }
  revert Hv. unfold visitDay, dayOf.
  destruct (Visit visitPart _ emptyDay) as [memberCompletionObj|]; [|done]. simpl.
  destruct (setIndex _ _ _) as [days|] eqn:Hset; [|done].
  intros [= <-]. simpl.
  apply setIndex_Some in Hset as [Hi ->].
  rewrite Heq in *.
  rewrite wrap_small in * by (unfold minInt, maxInt; lia).
  unfold index. destruct (Z.ltb_spec (day - 1) 0); [lia|].
  apply list_lookup_insert_eq. lia.
Qed.

Lemma Visit_visitDay_slot entries member member' :
  Visit visitDay entries member = Some member' →
  ∀ day, 1 ≤ day ≤ 25 →
    index (CompletionDayLevel member') (day - 1)
    = match lastEntryFor day entries with
      | Some completionDay => Some (dayOf completionDay)
      | None => index (CompletionDayLevel member) (day - 1)
      end.
Proof.
  revert member. induction entries as [|[key v] entries IH]; intros member; simpl.
  - by intros [= ->].
  - destruct (visitDay member key v) as [member1|] eqn:Hv; [|done]. simpl.
    intros Hrest day Hday. rewrite (IH _ Hrest day Hday).
    destruct (lastEntryFor day entries); [done|].
    rewrite (visitDay_slot _ _ _ _ Hv day Hday).
    by destruct (strconv.Atoi key =? day).
Qed.

Lemma Visit_visitMember_table entries leaderboard leaderboard' :
  Visit visitMember entries leaderboard = Some leaderboard' →
  ∃ members,
    Members leaderboard' = Members leaderboard ++ members ∧
    Forall2 (fun entry member =>
               ∀ day, 1 ≤ day ≤ 25 →
                 index (CompletionDayLevel member) (day - 1)
                 = Some (from_option dayOf emptyDay
                           (lastEntryFor day
                              (fastjson.GetObject entry.2 "completion_day_level"))))
            entries members.
Proof.
  revert leaderboard. induction entries as [|[key v] entries IH]; intros leaderboard; simpl.
  - intros [= ->]. exists []. by rewrite app_nil_r.
  - destruct (visitMember leaderboard key v) as [leaderboard1|] eqn:Hv; [|done]. simpl.
    intros Hrest. apply IH in Hrest as (members & Hm & Hall).
    revert Hv. unfold visitMember.
    destruct (Visit visitDay _ _) as [member|] eqn:Hdays; [|done]. simpl.
    intros [= <-]. simpl in Hm.
    exists (member :: members). split; [by rewrite Hm, <- app_assoc|].
    constructor; [|done]. simpl. intros day Hday.
    rewrite (Visit_visitDay_slot _ _ _ Hdays day Hday).
    destruct (lastEntryFor day _); simpl; [done|].
    unfold index. destruct (Z.ltb_spec (day - 1) 0); [lia|].
    exact (lookup_replicate_2 25 emptyDay (Z.to_nat (day - 1)) ltac:(lia)).
Qed.

(** X9. The completion table of a member the parser returns holds, for
    every day 1 to 25, what the last entry of [completion_day_level] keyed
    with that day gives (an earlier entry for the same day is
    overwritten), and the empty slot when no entry is keyed with the day.
    In the slot an entry gives, Part1 is there exactly when the entry has
    the key "1", and Part2 exactly when it has any other key, whether "2"
    or not. *)
Theorem parsed_table_holds_last_entry_of_each_day body lb :
  buildLeaderboard body = Some (lb, None) →
  (∃ jsonObj,
     fastjson.ParseBytes body = Some jsonObj ∧
     Forall2 (fun entry member =>
                ∀ day, 1 ≤ day ≤ 25 →
                  index (CompletionDayLevel member) (day - 1)
                  = Some (from_option dayOf emptyDay
                            (lastEntryFor day
                               (fastjson.GetObject entry.2 "completion_day_level"))))
             (fastjson.GetObject jsonObj "members") (Members lb)) ∧
  (∀ completionDay,
     (is_Some (Part1 (dayOf completionDay)) ↔
      "1" ∈ (fastjson.entries completionDay).*1) ∧
     (is_Some (Part2 (dayOf completionDay)) ↔
      ∃ key, key ∈ (fastjson.entries completionDay).*1 ∧ key ≠ "1")).
Proof.
  intros Hbuild. split.
  - revert Hbuild. unfold buildLeaderboard, buildLeaderboardWith.
    pose proof (Unmarshal_leaderboard body) as [Hm _].
    destruct (json.Unmarshal json.leaderboardField body zeroLeaderboard)
      as [leaderboard marshalErr]. simpl in Hm.
    destruct marshalErr; [done|].
    destruct (fastjson.ParseBytes body) as [jsonObj|]; [|done].
    destruct (Visit visitMember _ leaderboard) as [lb'|] eqn:Hv; [|done]. simpl.
    intros [= <-]. exists jsonObj. split; [done|].
    apply Visit_visitMember_table in Hv as (members & -> & Hall).
    by rewrite Hm.
  - intros completionDay. unfold dayOf.
    destruct (Visit_visitPart_parts (fastjson.entries completionDay) emptyDay)
      as (day & -> & H1 & H2). simpl. split.
    + rewrite H1. split; [by intros [[? ?]|?]|by right].
    + rewrite H2. split; [by intros [[? ?]|?]|by right].
Qed.

Lemma parsed_table_holds_last_entry_of_each_day_witness :
  buildLeaderboard Sample.three = Some (parsedThree, None) ∧
  ∃ jsonObj,
    fastjson.ParseBytes Sample.three = Some jsonObj ∧
    Forall2 (fun entry member =>
               ∀ day, 1 ≤ day ≤ 25 →
                 index (CompletionDayLevel member) (day - 1)
                 = Some (from_option dayOf emptyDay
                           (lastEntryFor day
                              (fastjson.GetObject entry.2 "completion_day_level"))))
            (fastjson.GetObject jsonObj "members") (Members parsedThree).
Proof.
  assert (buildLeaderboard Sample.three = Some (parsedThree, None)) as Hbuild
    by (by vm_compute).
  split; [exact Hbuild|].
  exact (proj1 (parsed_table_holds_last_entry_of_each_day Sample.three parsedThree Hbuild)).
Defined.

(** ** The differ: new members, order and shape of the events *)

Lemma posts_diffMember_absent cfg w prev cur member :
  arrayFind (Members prev) (fun m => ID m =? ID member) = None →
  posts (diffMember cfg w prev cur member)
        (fun l r => l = [NewChallenger (Name member) (yearArg cfg) (leaderboardID cfg)]
                    ∧ r = Some tt).
Proof.
  intros Hnone. unfold diffMember. rewrite Hnone.
  eapply posts_bind; [apply posts_sendNotification| |by intros l1 [_ [? ?]]].
  intros l1 err [-> _]. destruct err.
  - eapply posts_weaken; [apply posts_log|]. by intros l r [-> ->].
  - eapply posts_weaken; [apply posts_ret|]. by intros l r [-> ->].
Qed.

(** X10. When the previous leaderboard lists no member (a cached document
    that parses and has none), the differ posts one new-challenger
    notification per member of the current one, in the order of its
    members, and no completion event, whatever the completion tables
    hold. *)
Theorem diff_against_no_members cfg w prev cur :
  Members prev = [] →
  posts (diff cfg w prev cur)
        (fun l r =>
           l = (fun member => NewChallenger (Name member) (yearArg cfg) (leaderboardID cfg))
                 <$> Members cur
           ∧ r = Some tt).
Proof.
  intros Hempty. unfold diff.
  eapply posts_weaken.
  - apply (posts_forRange_exact _
             (fun _ member =>
                [NewChallenger (Name member) (yearArg cfg) (leaderboardID cfg)])).
    intros j member _. apply posts_diffMember_absent. by rewrite Hempty.
  - intros l r [-> ->]. split; [|done].
    rewrite zip_with_right by (rewrite length_seqZ; lia).
    induction (Members cur) as [|m ms IH]; [done|]. simpl. by rewrite IH.
Qed.

Lemma diff_against_no_members_witness :
  Members (Sample.board []) = [] ∧
  posted (diff Sample.cfg (Sample.world Sample.three) (Sample.board []) parsedThree []).1
  = [NewChallenger "ann" "2023" "1234567"; NewChallenger "bob" "2023" "1234567";
     NewChallenger "cat" "2023" "1234567"].
Proof.
  split; [reflexivity|].
  destruct (diff_against_no_members Sample.cfg (Sample.world Sample.three)
              (Sample.board []) parsedThree eq_refl []) as (out & r & Heq & Hl & _).
  rewrite Heq. simpl fst. simpl app. rewrite Hl. by vm_compute.
Defined.

(** ** When the differ panics *)

(** A loop panics exactly when one of its rounds does, the rounds before
    it having returned. *)
Lemma posts_forRange_panics {A : Type} (body : Z → A → M unit)
    (Bad : Z → A → Prop) (xs : list A) (i : Z) :
  (∀ j x, xs !! j = Some x →
          posts (body (i + Z.of_nat j) x)
                (fun _ r => r = None ↔ Bad (i + Z.of_nat j) x)) →
  posts (forRange body i xs)
        (fun _ r => r = None ↔ ∃ j x, xs !! j = Some x ∧ Bad (i + Z.of_nat j) x).
Proof.
  revert i. induction xs as [|x xs IH]; intros i Hbody; simpl forRange.
  - eapply posts_weaken; [apply posts_ret|]. intros l r [_ ->].
    split; [done|]. by intros (j & x & Hj & _).
  - eapply posts_bind.
    + specialize (Hbody 0%nat x eq_refl). rewrite Z.add_0_r in Hbody. exact Hbody.
    + intros l1 [] Hgood. simpl in Hgood. eapply posts_weaken.
      * apply IH. intros j y Hy.
        replace (i + 1 + Z.of_nat j) with (i + Z.of_nat (S j)) by lia.
        by apply Hbody.
      * intros l r Hr. simpl. rewrite Hr. split.
        -- intros (j & y & Hj & Hbad). exists (S j), y. split; [done|].
           by replace (i + Z.of_nat (S j)) with (i + 1 + Z.of_nat j) by lia.
        -- intros ([|j] & y & Hj & Hbad).
           ++ simpl in Hj. injection Hj as <-. rewrite Z.add_0_r in Hbad.
              by apply Hgood in Hbad.
           ++ exists j, y. split; [done|].
              by replace (i + 1 + Z.of_nat j) with (i + Z.of_nat (S j)) by lia.
    + intros l1 Hbad. simpl. split; [|done]. intros _.
      exists 0%nat, x. split; [done|]. rewrite Z.add_0_r. by apply Hbad.
Qed.

(** With 25 slots in every table, the rank of a part that is there is
    computed unless it is a part 2 whose day has no part 1, and 1 can be
    added to it. *)
Lemma getCompletionRank_shaped lb member dayIdx day partNum part :
  (∀ m, m ∈ Members lb → length (CompletionDayLevel m) = 25%nat) →
  Z.of_nat (length (Members lb)) ≤ maxInt →
  member ∈ Members lb →
  0 ≤ dayIdx < 25 →
  index (CompletionDayLevel member) dayIdx = Some day →
  partOf day partNum = Some part →
  if bool_decide (partNum ≠ 1 ∧ Part1 day = None)
  then getCompletionRank lb member dayIdx partNum = None
  else ∃ numAhead, getCompletionRank lb member dayIdx partNum = Some numAhead
                   ∧ 0 ≤ numAhead < maxInt.
Proof.
  intros Hslots Hsize Hin Hday Hd Hpart.
  unfold getCompletionRank. rewrite Hd. simpl.
  unfold partOf in Hpart.
  destruct (Z.eqb_spec partNum 1) as [->|Hne].
  - rewrite bool_decide_eq_false_2 by (by intros [? _]).
    rewrite Hpart. simpl.
    rewrite rankLoop_counts by (try done; lia).
    eexists. split; [done|].
    pose proof (filter_length_lt (finishedEarlier member dayIdx 1 (GotStarAt part))
                  (Members lb) member Hin (finishedEarlier_self _ _ _ _)).
    lia.
  - destruct (Part1 day) as [part1|] eqn:Hp1.
    + rewrite bool_decide_eq_false_2 by (by intros [_ ?]).
      simpl. rewrite Hpart. simpl.
      rewrite rankLoop_counts by (try done; lia).
      eexists. split; [done|].
      pose proof (filter_length_lt
                    (finishedEarlier member dayIdx partNum (GotStarAt part))
                    (Members lb) member Hin (finishedEarlier_self _ _ _ _)).
      lia.
    + by rewrite bool_decide_eq_true_2.
Qed.

Lemma posts_seq_panics (c k : M unit) (B1 B2 : Prop) :
  posts c (fun _ r => r = None ↔ B1) →
  posts k (fun _ r => r = None ↔ B2) →
  posts (c ;; k) (fun _ r => r = None ↔ B1 ∨ B2).
Proof.
  intros Hc Hk.
  eapply posts_bind; [exact Hc| |].
  - intros l1 [] Hgood. eapply posts_weaken; [exact Hk|].
    intros l r Hr. simpl. rewrite Hr. split; [by right|].
    intros [Hbad|?]; [|done]. by apply Hgood in Hbad.
  - intros l1 Hbad. simpl. split; [|done]. intros _. left. by apply Hbad.
Qed.

Lemma posts_s_panics cfg w lb member dayIdx day partNum part :
  (∀ m, m ∈ Members lb → length (CompletionDayLevel m) = 25%nat) →
  Z.of_nat (length (Members lb)) ≤ maxInt →
  member ∈ Members lb →
  0 ≤ dayIdx < 25 →
  index (CompletionDayLevel member) dayIdx = Some day →
  partOf day partNum = Some part →
  posts (s cfg w lb member dayIdx part partNum)
        (fun _ r => r = None ↔
                    ChicagoTimeZone cfg = None ∨ (partNum ≠ 1 ∧ Part1 day = None)).
Proof.
  intros Hslots Hsize Hin Hday Hd Hpart.
  pose proof (getCompletionRank_shaped lb member dayIdx day partNum part
                Hslots Hsize Hin Hday Hd Hpart) as Hrank.
  unfold s. destruct (ChicagoTimeZone cfg) as [loc|].
  2:{ eapply posts_bind; [apply posts_orPanic|by intros l1 a [_ ?]|].
      intros l1 _. simpl. split; [by left|done]. }
  eapply posts_bind; [apply posts_orPanic| |by intros l0 [_ ?]].
  intros l0 completionTime _.
  destruct (bool_decide (partNum ≠ 1 ∧ Part1 day = None)) eqn:Hbad.
  - apply bool_decide_eq_true in Hbad. rewrite Hrank.
    eapply posts_bind; [apply posts_orPanic|by intros l1 a [_ ?]|].
    intros l1 _. simpl. split; [by right|done].
  - apply bool_decide_eq_false in Hbad.
    destruct Hrank as (numAhead & -> & Hn).
    eapply posts_bind; [apply posts_orPanic| |by intros l1 [_ ?]].
    intros l1 ? [_ [= <-]].
    rewrite wrap_small by (unfold minInt, maxInt in *; lia).
    rewrite getOrdinal_english by lia.
    eapply posts_bind; [apply posts_orPanic| |by intros l2 [_ ?]].
    intros l2 ordinal _.
    eapply posts_bind; [apply posts_sendNotification| |by intros l3 [_ [? ?]]].
    intros l3 err _.
    destruct err.
    + eapply posts_weaken; [apply posts_log|]. intros l r [_ ->].
      split; [done|]. by intros [?|?].
    + eapply posts_weaken; [apply posts_ret|]. intros l r [_ ->].
      split; [done|]. by intros [?|?].
Qed.

(** One of the two [if] statements of lines 214-219, for part [partNum]. *)
Lemma posts_diffPart_panics cfg w lb lastMember member dayIdx day partNum :
  (∀ m, m ∈ Members lb → length (CompletionDayLevel m) = 25%nat) →
  Z.of_nat (length (Members lb)) ≤ maxInt →
  length (CompletionDayLevel lastMember) = 25%nat →
  member ∈ Members lb →
  0 ≤ dayIdx < 25 → partNum = 1 ∨ partNum = 2 →
  index (CompletionDayLevel member) dayIdx = Some day →
  posts (match partOf day partNum with
         | Some part =>
             do lastDay <- orPanic (index (CompletionDayLevel lastMember) dayIdx);
             if partOf lastDay partNum is None
             then s cfg w lb member dayIdx part partNum else ret tt
         | None => ret tt
         end)
        (fun _ r => r = None ↔ panicsAt cfg lastMember dayIdx day partNum).
Proof.
  intros Hslots Hsize Hlast Hin Hday Hpart Hd. unfold panicsAt.
  destruct (index_in_range (CompletionDayLevel lastMember) dayIdx) as [lastDay Hld];
    [lia|].
  rewrite (completionAt_lookup _ _ partNum _ Hld), Hld.
  destruct (partOf day partNum) as [part|] eqn:Hp.
  2:{ eapply posts_weaken; [apply posts_ret|]. intros l r [_ ->].
      split; [done|]. by intros (_ & [? ?] & _). }
  eapply posts_bind; [apply posts_orPanic| |by intros l1 [_ ?]].
  intros l1 ? [_ [= ->]].
  destruct (partOf lastDay partNum) as [lastPart|] eqn:Hlp.
  { eapply posts_weaken; [apply posts_ret|]. intros l r [_ ->].
    split; [done|]. by intros (_ & _ & ? & _). }
  eapply posts_weaken.
  - by apply (posts_s_panics cfg w lb member dayIdx day partNum part).
  - intros l r Hr. simpl in Hr. rewrite Hr. split.
    + intros Hbad. split; [done|]. split; [by eexists|]. split; [done|].
      destruct Hbad as [?|[Hne ?]]; [by left|right]. split; [|done].
      by destruct Hpart.
    + intros (_ & _ & _ & [?|[-> ?]]); [by left|right]. by split.
Qed.

Lemma posts_diffDay_panics cfg w lb lastMember member dayIdx day :
  (∀ m, m ∈ Members lb → length (CompletionDayLevel m) = 25%nat) →
  Z.of_nat (length (Members lb)) ≤ maxInt →
  length (CompletionDayLevel lastMember) = 25%nat →
  member ∈ Members lb →
  0 ≤ dayIdx < 25 →
  index (CompletionDayLevel member) dayIdx = Some day →
  posts (diffDay cfg w lb lastMember member dayIdx day)
        (fun _ r => r = None ↔ ∃ partNum, panicsAt cfg lastMember dayIdx day partNum).
Proof.
  intros Hslots Hsize Hlast Hin Hday Hd. unfold diffDay.
  eapply posts_weaken.
  - apply posts_seq_panics.
    + apply (posts_diffPart_panics cfg w lb lastMember member dayIdx day 1); auto.
    + apply (posts_diffPart_panics cfg w lb lastMember member dayIdx day 2); auto.
  - intros l r Hr. simpl in Hr. rewrite Hr. split.
    + intros [?|?]; eauto.
    + intros (partNum & Hbad). pose proof Hbad as ([-> | ->] & _); [by left|by right].
Qed.

Lemma posts_diffMember_panics cfg w prev lb member :
  (∀ m, m ∈ Members prev → length (CompletionDayLevel m) = 25%nat) →
  (∀ m, m ∈ Members lb → length (CompletionDayLevel m) = 25%nat) →
  Z.of_nat (length (Members lb)) ≤ maxInt →
  member ∈ Members lb →
  posts (diffMember cfg w prev lb member)
        (fun _ r => r = None ↔
           ∃ lastMember dayIdx day partNum,
             arrayFind (Members prev) (fun m => ID m =? ID member) = Some lastMember ∧
             index (CompletionDayLevel member) dayIdx = Some day ∧
             panicsAt cfg lastMember dayIdx day partNum).
Proof.
  intros Hprev Hslots Hsize Hin. unfold diffMember.
  destruct (arrayFind (Members prev) (fun m => ID m =? ID member))
    as [lastMember|] eqn:Hfind.
  - apply arrayFind_Some in Hfind as [Hlast _].
    pose proof (Hslots member Hin) as Hlen.
    eapply posts_weaken.
    + apply (posts_forRange_panics _
               (fun dayIdx day => ∃ partNum, panicsAt cfg lastMember dayIdx day partNum)).
      intros j day Hj. pose proof (lookup_lt_Some _ _ _ Hj).
      apply posts_diffDay_panics; try done; [by apply Hprev|lia|].
      apply index_Some. split; [lia|]. by rewrite Z.add_0_l, Nat2Z.id.
    + intros l r Hr. simpl in Hr. rewrite Hr. split.
      * intros (j & day & Hj & partNum & Hbad).
        exists lastMember, (Z.of_nat j), day, partNum.
        split; [done|]. split; [|done].
        apply index_Some. split; [lia|]. by rewrite Nat2Z.id.
      * intros (? & dayIdx & day & partNum & [= <-] & [Hd0 Hd]%index_Some & Hbad).
        exists (Z.to_nat dayIdx), day. split; [done|].
        exists partNum. by rewrite Z.add_0_l, Z2Nat.id.
  - eapply posts_bind; [apply posts_sendNotification| |by intros l1 [_ [? ?]]].
    intros l1 err _. destruct err.
    + eapply posts_weaken; [apply posts_log|]. intros l r [_ ->].
      split; [done|]. by intros (? & ? & ? & ? & ? & _).
    + eapply posts_weaken; [apply posts_ret|]. intros l r [_ ->].
      split; [done|]. by intros (? & ? & ? & ? & ? & _).
Qed.

Lemma posts_diff_panics cfg w prev lb :
  (∀ m, m ∈ Members prev → length (CompletionDayLevel m) = 25%nat) →
  (∀ m, m ∈ Members lb → length (CompletionDayLevel m) = 25%nat) →
  Z.of_nat (length (Members lb)) ≤ maxInt →
  posts (diff cfg w prev lb)
        (fun _ r => r = None ↔
           ∃ member lastMember dayIdx day partNum,
             member ∈ Members lb ∧
             arrayFind (Members prev) (fun m => ID m =? ID member) = Some lastMember ∧
             index (CompletionDayLevel member) dayIdx = Some day ∧
             panicsAt cfg lastMember dayIdx day partNum).
Proof.
  intros Hprev Hslots Hsize. unfold diff.
  eapply posts_weaken.
  - apply (posts_forRange_panics _
             (fun _ member =>
                ∃ lastMember dayIdx day partNum,
                  arrayFind (Members prev) (fun m => ID m =? ID member) = Some lastMember ∧
                  index (CompletionDayLevel member) dayIdx = Some day ∧
                  panicsAt cfg lastMember dayIdx day partNum)).
    intros j member Hj. apply posts_diffMember_panics; try done.
    by eapply list_elem_of_lookup_2.
  - intros l r Hr. simpl in Hr. rewrite Hr. split.
    + intros (j & member & Hj & lastMember & dayIdx & day & partNum & Hbad).
      exists member, lastMember, dayIdx, day, partNum. split; [|done].
      by eapply list_elem_of_lookup_2.
    + intros (member & lastMember & dayIdx & day & partNum
              & [j Hj]%list_elem_of_lookup_1 & Hbad).
      exists j, member. split; [done|]. by exists lastMember, dayIdx, day, partNum.
Qed.

(** X11. A cycle that is due, with a cached body and a downloaded body
    that both parse, panics exactly when the closure [s] is called and
    panics: some member that was known before has a part the cached table
    lacks, and either the zone of line 36 is nil ([Time.In] at line 191
    panics, whatever the part), or the part is a part 2 whose day has no
    part 1 ([getCompletionRank] reads the time of part 1 first).  In every
    other case the cycle returns. *)
Theorem refresh_panics_iff cfg w st t currBody prev cur :
  due w st → downloaded w = Some currBody →
  lastBody st ≠ "" →
  buildLeaderboard (lastBody st) = Some (prev, None) →
  buildLeaderboard currBody = Some (cur, None) →
  Z.of_nat (length (Members cur)) ≤ maxInt →
  (refresh cfg w st t).1.2 = None ↔
  ∃ member lastMember dayIdx day partNum,
    member ∈ Members cur ∧
    arrayFind (Members prev) (fun m => ID m =? ID member) = Some lastMember ∧
    index (CompletionDayLevel member) dayIdx = Some day ∧
    (partNum = 1 ∨ partNum = 2) ∧
    is_Some (partOf day partNum) ∧
    completionAt lastMember dayIdx partNum = None ∧
    (ChicagoTimeZone cfg = None ∨ (partNum = 2 ∧ Part1 day = None)).
Proof.
  intros Hdue Hdown Hne Hprev Hcur Hsize.
  rewrite (refresh_due cfg w st t currBody Hdue Hdown). cbn [fst snd].
  unfold compare.
  assert ((String.length (lastBody st) =? 0)%nat = false) as ->
    by (by destruct (lastBody st)).
  unfold bind, orPanic. rewrite Hprev, Hcur.
  destruct (posts_diff_panics cfg w prev cur
              (fun m => buildLeaderboard_slots _ _ m Hprev)
              (fun m => buildLeaderboard_slots _ _ m Hcur) Hsize
              (t ++ [Log Scanning] ++ saved w currBody)) as (out & r & Heq & Hr).
  rewrite Heq. exact Hr.
Qed.

Lemma refresh_panics_iff_witness :
  let st := {| lastRead := 1701440000; lastBody := Sample.before |} in
  ((refresh Sample.cfg (Sample.world part2Only) st []).1.2 = None ∧
   ∃ member lastMember dayIdx day partNum,
     member ∈ Members (parsed part2Only) ∧
     arrayFind (Members (parsed Sample.before)) (fun m => ID m =? ID member)
     = Some lastMember ∧
     index (CompletionDayLevel member) dayIdx = Some day ∧
     (partNum = 1 ∨ partNum = 2) ∧
     is_Some (partOf day partNum) ∧
     completionAt lastMember dayIdx partNum = None ∧
     (ChicagoTimeZone Sample.cfg = None ∨ (partNum = 2 ∧ Part1 day = None))) ∧
  (refresh Sample.cfgNoZone (Sample.world Sample.after) st []).1.2 = None ∧
  (refresh Sample.cfg (Sample.world Sample.after) st []).1.2 = Some tt.
Proof.
  intros st.
  assert (∀ cfg body,
            buildLeaderboard body = Some (parsed body, None) →
            Z.of_nat (length (Members (parsed body))) ≤ maxInt →
            (refresh cfg (Sample.world body) st []).1.2 = None ↔
            ∃ member lastMember dayIdx day partNum,
              member ∈ Members (parsed body) ∧
              arrayFind (Members (parsed Sample.before)) (fun m => ID m =? ID member)
              = Some lastMember ∧
              index (CompletionDayLevel member) dayIdx = Some day ∧
              (partNum = 1 ∨ partNum = 2) ∧
              is_Some (partOf day partNum) ∧
              completionAt lastMember dayIdx partNum = None ∧
              (ChicagoTimeZone cfg = None ∨ (partNum = 2 ∧ Part1 day = None)))
    as Hiff.
  { intros cfg body Hbody Hsize.
    apply (refresh_panics_iff cfg (Sample.world body) st [] body
             (parsed Sample.before) (parsed body));
      try done; by vm_compute. }
  assert ((refresh Sample.cfg (Sample.world part2Only) st []).1.2 = None) as Hpanic
    by (by vm_compute).
  split; [split; [exact Hpanic|]|split].
  - apply (proj1 (Hiff Sample.cfg part2Only ltac:(by vm_compute) ltac:(by vm_compute))).
    exact Hpanic.
  - by vm_compute.
  - by vm_compute.
Defined.

(** ** A download that changes nothing *)

Lemma posts_diffDay_same cfg w lb member dayIdx day :
  index (CompletionDayLevel member) dayIdx = Some day →
  posts (diffDay cfg w lb member member dayIdx day) (fun l r => l = [] ∧ r = Some tt).
Proof.
  intros Hd. unfold diffDay. rewrite Hd.
  eapply (posts_bind _ _ (fun l r => l = [] ∧ r = Some tt)).
  - destruct (Part1 day) as [part1|] eqn:Hp1; [|apply posts_ret].
    eapply posts_bind; [apply posts_orPanic| |by intros l1 [_ ?]].
    intros l1 ? [-> [= ->]]. rewrite Hp1. apply posts_ret.
  - intros l1 [] [-> _].
    destruct (Part2 day) as [part2|] eqn:Hp2; [|apply posts_ret].
    eapply posts_bind; [apply posts_orPanic| |by intros l1 [_ ?]].
    intros l1 ? [-> [= ->]]. rewrite Hp2. apply posts_ret.
  - by intros l1 [_ ?].
Qed.

Lemma concat_zip_with_nil {A B C : Type} (l : list A) (k : list B) :
  concat (zip_with (fun _ _ => @nil C) l k) = [].
Proof. revert k. induction l as [|a l IH]; intros [|b k]; simpl; auto. Qed.

Lemma posts_diff_same cfg w lb :
  NoDup (ID <$> Members lb) →
  posts (diff cfg w lb lb) (fun l r => l = [] ∧ r = Some tt).
Proof.
  intros Hnd. unfold diff.
  eapply posts_weaken.
  - apply (posts_forRange_exact _ (fun _ _ => [])).
    intros j member Hj. unfold diffMember.
    rewrite arrayFind_self by (try done; by eapply list_elem_of_lookup_2).
    eapply posts_weaken.
    + apply (posts_forRange_exact _ (fun _ _ => [])).
      intros i day Hi. apply posts_diffDay_same.
      apply index_Some. split; [lia|]. by rewrite Z.add_0_l, Nat2Z.id.
    + intros l r [-> ->]. by rewrite concat_zip_with_nil.
  - intros l r [-> ->]. by rewrite concat_zip_with_nil.
Qed.

(** X12. A cycle that downloads the very body it has cached posts nothing,
    provided the ids of the members that body lists are distinct; unless
    the parser panics on the body, the cycle returns.  Neither the number
    of slots nor the order of the parts matters. *)
Theorem unchanged_download_posts_nothing cfg w st t :
  downloaded w = Some (lastBody st) →
  (∀ lb, buildLeaderboard (lastBody st) = Some (lb, None) → NoDup (ID <$> Members lb)) →
  posted (refresh cfg w st t).1.1 = posted t ∧
  (is_Some (buildLeaderboard (lastBody st)) → (refresh cfg w st t).1.2 = Some tt).
Proof.
  intros Hdown Hids. unfold refresh.
  destruct (_ <? _); cbn [fst snd].
  { rewrite !posted_app. simpl. by rewrite !app_nil_r. }
  rewrite Hdown. cbn [fst snd]. unfold bind. rewrite saveCache_run.
  assert (posted ((t ++ [Log Scanning]) ++ saved w (lastBody st)) = posted t) as Ht.
  { rewrite !posted_app, posted_saved. simpl. by rewrite !app_nil_r. }
  unfold compare.
  destruct (String.length (lastBody st) =? 0)%nat; [done|].
  unfold bind, orPanic.
  destruct (buildLeaderboard (lastBody st)) as [[lb [e|]]|] eqn:Hbuild.
  - unfold emit. cbn [fst snd]. rewrite posted_app, Ht. simpl. by rewrite app_nil_r.
  - destruct (posts_diff_same cfg w lb (Hids lb eq_refl)
                ((t ++ [Log Scanning]) ++ saved w (lastBody st)))
      as (out & r & -> & Hout & ->).
    cbn [fst snd]. by rewrite posted_app, Ht, Hout, app_nil_r.
  - cbn [fst snd]. split; [done|]. by intros [? ?].
Qed.

Lemma unchanged_download_posts_nothing_witness :
  let w := Sample.world Sample.three in
  let st := {| lastRead := 1701440000; lastBody := Sample.three |} in
  posted (refresh Sample.cfg w st []).1.1 = [] ∧ (refresh Sample.cfg w st []).1.2 = Some tt.
Proof.
  intros w st.
  assert (buildLeaderboard Sample.three = Some (parsedThree, None)) as Hbuild
    by (by vm_compute).
  destruct (unchanged_download_posts_nothing Sample.cfg w st [] eq_refl) as [Hposted Hret].
  - intros lb Hlb. simpl in Hlb. rewrite Hbuild in Hlb. injection Hlb as <-.
    apply (bool_decide_unpack _). by vm_compute.
  - split; [exact Hposted|]. apply Hret. simpl. rewrite Hbuild. by eexists.
Defined.

(** ** The variables in memory and the cache file *)

Lemma writes_app t1 t2 : writes (t1 ++ t2) = writes t1 ++ writes t2.
Proof.
  induction t1 as [|e t1 IH]; simpl; [done|].
  destruct e; simpl; by rewrite IH.
Qed.

Lemma silent_ret {A : Type} (a : A) : silent (ret a).
Proof. by intros t. Qed.

Lemma silent_orPanic {A : Type} (o : option A) : silent (orPanic o).
Proof. by intros t. Qed.

Lemma silent_log (l : logLine) : silent (emit (Log l)).
Proof. intros t. unfold emit. simpl. by rewrite writes_app, app_nil_r. Qed.

Lemma silent_bind {A B : Type} (c : M A) (k : A → M B) :
  silent c → (∀ a, silent (k a)) → silent (bind c k).
Proof.
  intros Hc Hk t. unfold bind. specialize (Hc t).
  destruct (c t) as [t' [a|]]; [|done].
  by rewrite Hk.
Qed.

Lemma silent_forRange {A : Type} (body : Z → A → M unit) (xs : list A) (i : Z) :
  (∀ j x, silent (body j x)) → silent (forRange body i xs).
Proof.
  intros Hbody. revert i. induction xs as [|x xs IH]; intros i; simpl forRange.
  - apply silent_ret.
  - apply silent_bind; [apply Hbody|]. intros _. apply IH.
Qed.

Lemma silent_sendNotification w content : silent (sendNotification w content).
Proof.
  intros t. unfold sendNotification, bind, emit. simpl.
  by rewrite !writes_app, !app_nil_r.
Qed.

Lemma silent_s cfg w lb member dayIdx part partNum :
  silent (s cfg w lb member dayIdx part partNum).
Proof.
  unfold s.
  apply silent_bind; [apply silent_orPanic|]. intros completionTime.
  apply silent_bind; [apply silent_orPanic|]. intros numAhead.
  apply silent_bind; [apply silent_orPanic|]. intros ordinal.
  apply silent_bind; [apply silent_sendNotification|]. intros [|].
  - apply silent_log.
  - apply silent_ret.
Qed.

Lemma silent_diffDay cfg w lb lastMember member dayIdx day :
  silent (diffDay cfg w lb lastMember member dayIdx day).
Proof.
  unfold diffDay. apply silent_bind.
  - destruct (Part1 day); [|apply silent_ret].
    apply silent_bind; [apply silent_orPanic|]. intros lastDay.
    destruct (Part1 lastDay); [apply silent_ret|apply silent_s].
  - intros _. destruct (Part2 day); [|apply silent_ret].
    apply silent_bind; [apply silent_orPanic|]. intros lastDay.
    destruct (Part2 lastDay); [apply silent_ret|apply silent_s].
Qed.

Lemma silent_diff cfg w prev lb : silent (diff cfg w prev lb).
Proof.
  unfold diff. apply silent_forRange. intros _ member. unfold diffMember.
  destruct (arrayFind _ _) as [lastMember|].
  - apply silent_forRange. intros dayIdx day. apply silent_diffDay.
  - apply silent_bind; [apply silent_sendNotification|].
    intros [|]; [apply silent_log|apply silent_ret].
Qed.

Lemma silent_compare cfg w lastBody currBody : silent (compare cfg w lastBody currBody).
Proof.
  unfold compare. destruct (_ =? _)%nat; [apply silent_ret|].
  apply silent_bind; [apply silent_orPanic|].
  intros [lastLeaderboard [e|]]; [apply silent_log|].
  apply silent_bind; [apply silent_orPanic|].
  intros [leaderboard [e|]]; [apply silent_log|apply silent_diff].
Qed.

(** One cycle either leaves the variables and the file alone, or ends with
    the variables it has just tried to write. *)
Lemma refresh_writes cfg w st t :
  marshalFails w = false →
  (writes (refresh cfg w st t).1.1 = writes t ∧ (refresh cfg w st t).2 = st) ∨
  writes (refresh cfg w st t).1.1
  = writes t ++ [(lastRead (refresh cfg w st t).2, lastBody (refresh cfg w st t).2)].
Proof.
  intros Hmarshal. unfold refresh.
  destruct (_ <? _); cbn [fst snd].
  { left. by rewrite !writes_app, !app_nil_r. }
  destruct (downloaded w) as [currBody|]; cbn [fst snd].
  2: { left. by rewrite !writes_app, !app_nil_r. }
  right. unfold bind. rewrite saveCache_run.
  pose proof (silent_compare cfg w (lastBody st) currBody
                ((t ++ [Log Scanning]) ++ saved w currBody)) as Hsilent.
  rewrite Hsilent.
  rewrite !writes_app. unfold saved. rewrite Hmarshal. simpl.
  rewrite app_nil_r. by destruct (writeFails w).
Qed.

(** X13. As long as marshalling does not fail, the variables [lastRead]
    and [lastBody] the scheduled cycles keep in memory are those of the
    last cache write attempted, whatever the webhook and the parser do
    and however the run ends: either no cycle has got as far as the write
    and the variables are untouched, or the last write carries exactly
    their values.  Nothing after line 144 writes the file. *)
Theorem daemon_memory_is_last_write cfg ticks st t :
  (∀ w, w ∈ ticks → marshalFails w = false) →
  (writes (daemon cfg ticks st t).1.1 = writes t ∧ (daemon cfg ticks st t).2 = st) ∨
  last (writes (daemon cfg ticks st t).1.1)
  = Some (lastRead (daemon cfg ticks st t).2, lastBody (daemon cfg ticks st t).2).
Proof.
  revert st t. induction ticks as [|w ticks IH]; intros st t Hmarshal; [by left|].
  simpl.
  pose proof (refresh_writes cfg w st t (Hmarshal w ltac:(left))) as Hstep.
  destruct (refresh cfg w st t) as [[t' r] st'] eqn:Hrefresh. cbn [fst snd] in Hstep.
  destruct r as [[]|].
  - destruct (IH st' t' (fun w' Hw' => Hmarshal w' ltac:(by right))) as [[Hw Hst]|Hlast];
      [|by right].
    rewrite Hw, Hst.
    destruct Hstep as [[-> ->]| ->]; [by left|right].
    by rewrite last_snoc.
  - cbn [fst snd]. destruct Hstep as [[-> ->]| ->]; [by left|right].
    by rewrite last_snoc.
Qed.

Lemma daemon_memory_is_last_write_witness :
  let ticks := [Sample.world Sample.before; Sample.world Sample.after] in
  let st := {| lastRead := 1701440000; lastBody := "" |} in
  (∀ w, w ∈ ticks → marshalFails w = false) ∧
  last (writes (daemon Sample.cfg ticks st []).1.1)
  = Some (lastRead (daemon Sample.cfg ticks st []).2,
          lastBody (daemon Sample.cfg ticks st []).2).
Proof.
  intros ticks st.
  assert (∀ w, w ∈ ticks → marshalFails w = false) as Hmarshal.
  { intros w [->|[->|[]%elem_of_nil]%elem_of_cons]%elem_of_cons; reflexivity. }
  split; [exact Hmarshal|].
  destruct (daemon_memory_is_last_write Sample.cfg ticks st [] Hmarshal) as [[_ Hst]|Hlast];
    [|exact Hlast].
  exfalso. revert Hst. by vm_compute.
Defined.

(** ** The older main (part_000) *)

Lemma agrees_ret f : agrees f (ret tt) (ret tt).
Proof. intros t1 t2. exists [], [], (Some tt). by rewrite !app_nil_r. Qed.

Lemma agrees_seq f (old new k1 k2 : M unit) :
  agrees f old new → agrees f k1 k2 →
  agrees f (old ;; k1) (new ;; k2).
Proof.
  intros Hc Hk t1 t2. unfold bind.
  destruct (Hc t1 t2) as (out1 & out2 & r & -> & -> & Hout).
  destruct r as [[]|].
  - destruct (Hk (t1 ++ out1) (t2 ++ out2)) as (out1' & out2' & r' & -> & -> & Hout').
    exists (out1 ++ out1'), (out2 ++ out2'), r'.
    rewrite !app_assoc, !posted_app, fmap_app. by rewrite Hout, Hout'.
  - by exists out1, out2, None.
Qed.

Lemma agrees_orPanic {A : Type} f (o : option A) (k1 k2 : A → M unit) :
  (∀ a, o = Some a → agrees f (k1 a) (k2 a)) →
  agrees f (bind (orPanic o) k1) (bind (orPanic o) k2).
Proof.
  intros Hk t1 t2. unfold bind, orPanic. destruct o as [a|].
  - by apply Hk.
  - exists [], [], None. by rewrite !app_nil_r.
Qed.

Lemma agrees_forRange {A : Type} f (b1 b2 : Z → A → M unit) (xs : list A) (i : Z) :
  (∀ j x, agrees f (b1 j x) (b2 j x)) →
  agrees f (forRange b1 i xs) (forRange b2 i xs).
Proof.
  intros Hbody. revert i. induction xs as [|x xs IH]; intros i; simpl forRange.
  - apply agrees_ret.
  - apply agrees_seq; [apply Hbody|apply IH].
Qed.

Lemma Old_getTotalStars_populated member :
  2 * Z.of_nat (length (CompletionDayLevel member)) ≤ maxInt →
  Old.getTotalStars member = populated (CompletionDayLevel member).
Proof.
  intros Hlen. unfold Old.getTotalStars.
  rewrite <- (Old_totalStarsLoop_no_skip (-1) 0) by lia.
  rewrite totalStarsLoop_counts by lia.
  unfold skipped, index. simpl. lia.
Qed.

(** The newer loop posts texts of the newer code only. *)
Lemma posts_s_newer cfg w lb member dayIdx part partNum :
  posts (s cfg w lb member dayIdx part partNum)
        (fun l _ => Forall (fun c => inNewerWording c = true) l).
Proof.
  unfold s.
  eapply posts_bind; [apply posts_orPanic| |by intros l1 [-> _]].
  intros l0 completionTime [-> _].
  eapply posts_bind; [apply posts_orPanic| |by intros l1 [-> _]].
  intros l1 numAhead [-> _].
  eapply posts_bind; [apply posts_orPanic| |by intros l1 [-> _]].
  intros l2 ordinal [-> _].
  eapply posts_bind; [apply posts_sendNotification| |by intros l3 [_ [? ?]]].
  intros l3 err [-> _]. destruct err.
  - eapply posts_weaken; [apply posts_log|]. intros l r [-> _]. by repeat constructor.
  - eapply posts_weaken; [apply posts_ret|]. intros l r [-> _]. by repeat constructor.
Qed.

Lemma posts_diffPart_newer cfg w lb lastMember member dayIdx day partNum :
  posts (match partOf day partNum with
         | Some part =>
             do lastDay <- orPanic (index (CompletionDayLevel lastMember) dayIdx);
             if partOf lastDay partNum is None
             then s cfg w lb member dayIdx part partNum else ret tt
         | None => ret tt
         end)
        (fun l _ => Forall (fun c => inNewerWording c = true) l).
Proof.
  destruct (partOf day partNum) as [part|];
    [|eapply posts_weaken; [apply posts_ret|]; by intros l r [-> _]].
  eapply posts_bind; [apply posts_orPanic| |by intros l1 [-> _]].
  intros l1 lastDay [-> _]. simpl.
  destruct (partOf lastDay partNum) as [lastPart|];
    [eapply posts_weaken; [apply posts_ret|]; by intros l r [-> _]|].
  apply posts_s_newer.
Qed.

Lemma posts_diffMember_newer cfg w prev lb member :
  posts (diffMember cfg w prev lb member)
        (fun l _ => Forall (fun c => inNewerWording c = true) l).
Proof.
  unfold diffMember. destruct (arrayFind _ _) as [lastMember|].
  - apply posts_forRange_only. intros j day _. unfold diffDay.
    eapply posts_bind.
    + apply (posts_diffPart_newer cfg w lb lastMember member _ day 1).
    + intros l1 [] Hl1. eapply posts_weaken.
      * apply (posts_diffPart_newer cfg w lb lastMember member _ day 2).
      * intros l2 r Hl2. by apply Forall_app.
    + by intros l1 Hl1.
  - eapply posts_bind; [apply posts_sendNotification| |by intros l1 [_ [? ?]]].
    intros l1 err [-> _]. destruct err.
    + eapply posts_weaken; [apply posts_log|]. intros l r [-> _]. by repeat constructor.
    + eapply posts_weaken; [apply posts_ret|]. intros l r [-> _]. by repeat constructor.
Qed.

Lemma agrees_notify cfg w lb member idx part partNum :
  2 * Z.of_nat (length (CompletionDayLevel member)) ≤ maxInt →
  agrees (olderWording member)
         (Old.notify cfg w lb member idx part partNum (Old.getTotalStars member)
            (if Old.getTotalStars member =? 1 then "" else "s"))
         (s cfg w lb member idx part partNum).
Proof.
  intros Hlen. unfold Old.notify, s.
  apply agrees_orPanic. intros completionTime _.
  apply agrees_orPanic. intros numAhead _.
  apply agrees_orPanic. intros ordinal _.
  intros t1 t2. unfold Old.sendNotification, sendNotification, emit, ret, bind.
  rewrite Old_getTotalStars_populated by done.
  match goal with
  | |- context [postFails w (t2 ++ ?l) ?c] =>
      destruct (postFails w (t2 ++ l) c);
        [exists [Post (olderWording member c)],
                (l ++ [Post c; Log (NotificationError member)]), (Some tt)
        |exists [Post (olderWording member c)], (l ++ [Post c]), (Some tt)]
  end; simpl; rewrite <- ?app_assoc; done.
Qed.

Lemma agrees_diffDay cfg w lb lastMember member idx day :
  2 * Z.of_nat (length (CompletionDayLevel member)) ≤ maxInt →
  agrees (olderWording member)
         (Old.diffDay cfg w lb lastMember member idx day)
         (diffDay cfg w lb lastMember member idx day).
Proof.
  intros Hlen. unfold Old.diffDay, diffDay. apply agrees_seq.
  - destruct (Part1 day) as [part1|]; [|apply agrees_ret].
    apply agrees_orPanic. intros lastDay _.
    destruct (Part1 lastDay); [apply agrees_ret|by apply agrees_notify].
  - destruct (Part2 day) as [part2|]; [|apply agrees_ret].
    apply agrees_orPanic. intros lastDay _.
    destruct (Part2 lastDay); [apply agrees_ret|by apply agrees_notify].
Qed.

Lemma agrees_diffMember cfg w prev lb member :
  2 * Z.of_nat (length (CompletionDayLevel member)) ≤ maxInt →
  agrees (olderWording member)
         (Old.diffMember cfg w prev lb member) (diffMember cfg w prev lb member).
Proof.
  intros Hlen. unfold Old.diffMember, diffMember.
  destruct (arrayFind _ _) as [lastMember|].
  - apply agrees_forRange. intros idx day. by apply agrees_diffDay.
  - intros t1 t2. unfold Old.sendNotification, sendNotification, emit, ret, bind.
    match goal with
    | |- context [postFails w (t2 ++ ?l) ?c] => destruct (postFails w (t2 ++ l) c)
    end;
      match goal with
      | |- context [postFails w t1 ?c] => destruct (postFails w t1 c)
      end; simpl; rewrite <- ?app_assoc; simpl; by eexists _, _, (Some tt).
Qed.

(** X14. For one member of the downloaded leaderboard, the older loop and
    the newer one end the same way and notify of the same events in the
    same order, each in its own wording: what the older one posts is what
    the newer one posts, put in the older texts (no [:tada:], the name
    twice, the part number in the format string) and with the count of
    the whole table on every completion, so that the two events of a day
    completed between two polls carry the same number. *)
Theorem older_differ_reports_full_count cfg w prev lb member t1 t2 :
  2 * Z.of_nat (length (CompletionDayLevel member)) ≤ maxInt →
  ∃ out1 out2 r,
    Old.diffMember cfg w prev lb member t1 = (t1 ++ out1, r) ∧
    diffMember cfg w prev lb member t2 = (t2 ++ out2, r) ∧
    posted out1 = olderWording member <$> posted out2 ∧
    Forall (fun content => inNewerWording content = true) (posted out2) ∧
    Forall (fun content =>
              inNewerWording content = false ∧
              (isNewChallenger content = false →
               totalStarsOf content = Some (populated (CompletionDayLevel member))))
           (posted out1).
Proof.
  intros Hlen.
  destruct (agrees_diffMember cfg w prev lb member Hlen t1 t2)
    as (out1 & out2 & r & Hold & Hnew & Hout).
  exists out1, out2, r. split; [done|]. split; [done|]. split; [done|].
  assert (Forall (fun content => inNewerWording content = true) (posted out2)) as Hnewer.
  { destruct (posts_diffMember_newer cfg w prev lb member t2) as (out & r' & Heq & Hall).
    rewrite Hnew in Heq. injection Heq as Hout2%app_inv_head _. by subst out. }
  split; [done|].
  rewrite Hout. apply Forall_fmap. eapply Forall_impl; [exact Hnewer|].
  by intros [] ?.
Qed.

Lemma older_differ_reports_full_count_witness :
  posted (Old.diffMember Sample.cfg (Sample.world "") (Sample.board [Sample.A0])
            Sample.both Sample.A2 []).1
  = [OlderPartCompleted "A" 2 1 1 "st" "2023" "1234567" 300 "A" 3 "s";
     OlderPartCompleted "A" 2 2 1 "st" "2023" "1234567" 400 "A" 3 "s"] ∧
  posted (diffMember Sample.cfg (Sample.world "") (Sample.board [Sample.A0])
            Sample.both Sample.A2 []).1
  = [PartCompleted "A" 2 1 1 "st" "2023" "1234567" 300 2 "s";
     PartCompleted "A" 2 2 1 "st" "2023" "1234567" 400 3 "s"].
Proof.
  destruct (older_differ_reports_full_count Sample.cfg (Sample.world "")
              (Sample.board [Sample.A0]) Sample.both Sample.A2 [] [])
    as (out1 & out2 & r & Hold & Hnew & Hout & _).
  - by vm_compute.
  - assert (posted (diffMember Sample.cfg (Sample.world "") (Sample.board [Sample.A0])
                      Sample.both Sample.A2 []).1
            = [PartCompleted "A" 2 1 1 "st" "2023" "1234567" 300 2 "s";
               PartCompleted "A" 2 2 1 "st" "2023" "1234567" 400 3 "s"]) as Hlist
      by (by vm_compute).
    split; [|exact Hlist].
    rewrite Hold. rewrite Hnew in Hlist. cbn [fst] in *. simpl app in *.
    rewrite Hout, Hlist. by vm_compute.
Defined.

(** X15. Where the cached body does not parse, the older main never
    posts and never panics: once the gate is open and the download has
    succeeded it writes the cache with the new body and ends with
    [log.Fatalln].  The newer cycle returns in all these cases. *)
Theorem older_main_ends_on_unreadable_cache cfg w st t lb e :
  buildLeaderboard (lastBody st) = Some (lb, Some e) →
  posted (Old.main cfg w st t).1 = posted t ∧
  (Old.main cfg w st t).2 ≠ Old.Panicked ∧
  (∀ body,
     15 * 60 * 10 ^ 9 ≤ clock w - lastRead st * 10 ^ 9 →
     downloaded w = Some body →
     Old.main cfg w st t
     = (t ++ saved w body ++ [Log (CachedBodyError e)], Old.Fatal)) ∧
  (refresh cfg w st t).1.2 = Some tt.
Proof.
  intros Hbuild. unfold Old.main, refresh. rewrite Hbuild.
  repeat split.
  - destruct (_ <? _); cbn [fst snd]; [by rewrite posted_app, app_nil_r|].
    destruct (downloaded w) as [body|]; cbn [fst snd];
      [|by rewrite posted_app, app_nil_r].
    rewrite saveCache_run. cbn [fst snd].
    by rewrite !posted_app, posted_saved, !app_nil_r.
  - destruct (_ <? _); [done|]. by destruct (downloaded w).
  - intros body Hgate ->.
    destruct (Z.ltb_spec (clock w - lastRead st * 10 ^ 9) (15 * 60 * 10 ^ 9)); [lia|].
    rewrite saveCache_run. cbn [fst snd]. by rewrite <- app_assoc.
  - destruct (_ <? _); [done|].
    destruct (downloaded w) as [body|]; [|done]. cbn [fst snd].
    unfold bind. rewrite saveCache_run. unfold compare.
    destruct (_ =? _)%nat; [done|].
    unfold bind, orPanic. by rewrite Hbuild.
Qed.

Lemma older_main_ends_on_unreadable_cache_witness :
  let w := Sample.world Sample.three in
  Old.main Sample.cfg w (loadCache None) []
  = (saved w Sample.three ++ [Log (CachedBodyError UnmarshalError)], Old.Fatal).
Proof.
  intros w.
  destruct (older_main_ends_on_unreadable_cache Sample.cfg w (loadCache None) []
              zeroLeaderboard UnmarshalError) as (_ & _ & Hfatal & _).
  - by vm_compute.
  - apply (Hfatal Sample.three); [by vm_compute|reflexivity].
Defined.
